(** * The conversation-graph ("mindmap") engine of glass, embedded in Rocq

    Source: [MindmapService] (src/unnamed/part_006, the listen feature's
    mindmapService.js).  Every definition below follows one method of that
    class, or one block of a method, and keeps its name.

    Conventions of the embedding.
    - A JavaScript string is a [string] of 8-bit characters.  [toLowerCase]
      and the white-space class are the ASCII ones.
    - A field the code only ever tests for truthiness ([x || d], [!x],
      [if (x)]) and whose falsy values are interchangeable for the code is a
      plain value whose falsy element stands for "absent": [""] for a
      string, [0] for a number.  A field the code tests with [?.] or whose
      absence differs from its empty value is an [option].
    - [Date.now()] and [Math.random()] are read from an oracle indexed by
      the number of readings made so far. *)

From Stdlib Require Import ZArith Ascii String Sorted.
From stdpp Require Import base decidable option list strings pretty gmap.

Local Open Scope Z_scope.

(** ** JavaScript string primitives used by the service *)

Module Js.

(** The ASCII members of the class [\s] (and of what [trim] removes). *)
Definition is_space (c : ascii) : bool := Ascii.is_space c.

Definition lower_char (c : ascii) : ascii :=
  let n := N_of_ascii c in
  if ((65 <=? n) && (n <=? 90))%N then ascii_of_N (n + 32) else c.

(** [s.toLowerCase()] *)
Fixpoint toLowerCase (s : string) : string :=
  match s with
  | EmptyString => EmptyString
  | String c s' => String (lower_char c) (toLowerCase s')
  end.

Fixpoint trimStart (s : string) : string :=
  match s with
  | EmptyString => EmptyString
  | String c s' => if is_space c then trimStart s' else s
  end.

Fixpoint trimEnd (s : string) : string :=
  match s with
  | EmptyString => EmptyString
  | String c s' =>
      match trimEnd s' with
      | EmptyString => if is_space c then EmptyString else String c EmptyString
      | t => String c t
      end
  end.

(** [s.trim()] *)
Definition trim (s : string) : string := trimEnd (trimStart s).

(** [s.includes(sub)] *)
Fixpoint includes (s sub : string) : bool :=
  String.prefix sub s ||
  match s with
  | EmptyString => false
  | String _ s' => includes s' sub
  end.

(** [s.split(/\s+/)]: the pieces between the maximal runs of white space.
    [in_sep] tells that the previous character belonged to a separator.
    The result is never empty: the empty string splits into [[""]], and a
    leading or trailing separator leaves an empty piece at that end. *)
Fixpoint split_ws_from (in_sep : bool) (s : string) : list string :=
  match s with
  | EmptyString => [EmptyString]
  | String c s' =>
      if is_space c then
        if in_sep then split_ws_from true s'
        else EmptyString :: split_ws_from true s'
      else
        match split_ws_from false s' with
        | w :: ws => String c w :: ws
        | [] => [String c EmptyString]
        end
  end.

Definition split_ws (s : string) : list string := split_ws_from false s.

(** [arr.includes(w)] on an array of strings. *)
Definition arr_includes (arr : list string) (w : string) : bool :=
  bool_decide (w ∈ arr).

(** Truthiness of a string: only the empty string is falsy. *)
Definition truthy (s : string) : bool :=
  match s with EmptyString => false | _ => true end.

(** [a || b] on strings. *)
Definition or_str (a b : string) : string := if truthy a then a else b.

(** [start_index] of [arr.slice(start, end)]: a negative index counts
    from the end, and both are clamped to the array. *)
Definition rel_index (len i : Z) : nat :=
  Z.to_nat (if i <? 0 then Z.max (len + i) 0 else Z.min i len).

(** [arr.slice(start)] and [arr.slice(start, end)] *)
Definition slice {A} (l : list A) (start : Z) (stop : option Z) : list A :=
  let len := Z.of_nat (length l) in
  let k := rel_index len start in
  let e := match stop with None => length l | Some z => rel_index len z end in
  take (e - k) (drop k l).

End Js.

(** ** Data model (spec section 3, as the code's object literals have it) *)

Record NodeMeta := mkNodeMeta {
  firstMentioned : option Z;
  speaker : option string;
  transcriptIndices : option (list Z);
  summarizedNodes : option (list string)
}.

Record Node := mkNode {
  n_id : string;
  n_label : string;
  n_type : string;
  n_level : N;
  n_color : string;
  n_size : Z;
  n_metadata : option NodeMeta;
  n_expandable : bool
}.

Record Edge := mkEdge {
  e_id : string;
  e_from : string;
  e_to : string;
  e_type : string;
  e_color : string
}.

Record GraphMeta := mkGraphMeta {
  sessionId : option string;
  lastUpdated : option Z;
  version : option Z;
  totalTranscripts : option Z;
  error : option string
}.

Record Graph := mkGraph {
  nodes : list Node;
  edges : list Edge;
  metadata : option GraphMeta
}.

(** A delta, and what the generator returns: [{ nodes, edges }]. *)
Record Updates := mkUpdates {
  u_nodes : list Node;
  u_edges : list Edge
}.

(** ** Similarity of labels *)

(** [nodesSimilar(label1, label2)].  The last test, [common / max > 0.5]
    on array lengths, is [2 * common > max]: both are small naturals and
    the quotient is never rounded onto 0.5. *)
Definition nodesSimilar (label1 label2 : string) : bool :=
  if negb (Js.truthy label1) || negb (Js.truthy label2) then false
  else
    let normalized1 := Js.trim (Js.toLowerCase label1) in
    let normalized2 := Js.trim (Js.toLowerCase label2) in
    if bool_decide (normalized1 = normalized2) then true
    else if Js.includes normalized1 normalized2 || Js.includes normalized2 normalized1
    then true
    else
      let words1 := Js.split_ws normalized1 in
      let words2 := Js.split_ws normalized2 in
      let commonWords := List.filter (fun w => Js.arr_includes words2 w) words1 in
      bool_decide
        (Nat.max (length words1) (length words2) < 2 * length commonWords)%nat.

(** ** The clock and the random source *)

(** [date_now k] is the value of the [k]-th reading of [Date.now()] made by
    an operation, [math_random k] the string
    [Math.random().toString(36).substr(2, 9)] of the [k]-th reading of
    [Math.random()]. *)
Record Oracle := mkOracle {
  date_now : nat -> Z;
  math_random : nat -> string
}.

(** The oracle as seen after [k] readings. *)
Definition later (k : nat) (o : Oracle) : Oracle :=
  {| date_now := fun i => date_now o (k + i)%nat;
     math_random := fun i => math_random o (k + i)%nat |}.

(** [x || 0] on an optional number. *)
Definition or_zero (x : option Z) : Z := default 0 x.

(** ** Merge ([mergeMindmapUpdates]) *)

(** [`node-${Date.now()}-${Math.random().toString(36).substr(2, 9)}`] at
    the [k]-th generated id; reading 0 of the clock stamps [lastUpdated]. *)
Definition fresh_id (kind : string) (o : Oracle) (k : nat) : string :=
  kind +:+ "-" +:+ pretty (date_now o (S k)) +:+ "-" +:+ math_random o k.

Definition similar_to (newNode n : Node) : Prop :=
  nodesSimilar (n_label n) (n_label newNode) = true.

Global Instance similar_to_dec newNode n : Decision (similar_to newNode n).
Proof. unfold similar_to. apply _. Defined.

(** The [else] branch of the node loop: the existing node receives the
    incoming transcript indices, appended to its own. *)
Definition add_indices (existingNode : Node) (incoming : list Z) : Node :=
  let m := default (mkNodeMeta None None None None) (n_metadata existingNode) in
  let m' := {| firstMentioned := firstMentioned m;
               speaker := speaker m;
               transcriptIndices :=
                 Some (default [] (transcriptIndices m) ++ incoming);
               summarizedNodes := summarizedNodes m |} in
  {| n_id := n_id existingNode; n_label := n_label existingNode;
     n_type := n_type existingNode; n_level := n_level existingNode;
     n_color := n_color existingNode; n_size := n_size existingNode;
     n_metadata := Some m'; n_expandable := n_expandable existingNode |}.

Definition with_node_id (n : Node) (i : string) : Node :=
  {| n_id := i; n_label := n_label n; n_type := n_type n;
     n_level := n_level n; n_color := n_color n; n_size := n_size n;
     n_metadata := n_metadata n; n_expandable := n_expandable n |}.

Definition with_edge_id (e : Edge) (i : string) : Edge :=
  {| e_id := i; e_from := e_from e; e_to := e_to e;
     e_type := e_type e; e_color := e_color e |}.

(** One turn of [for (const newNode of updates.nodes)].  The state is
    [merged.nodes] and the number of ids generated so far.  [merged.nodes]
    is a copy of the array, not of the node objects: the assignment to
    [existingNode.metadata] is also seen through [existingMindmap].  The
    model gives the array as the returned graph holds it. *)
Definition merge_node (o : Oracle) (st : list Node * nat) (newNode : Node)
  : list Node * nat :=
  let '(ns, k) := st in
  match list_find (similar_to newNode) ns with
  | None =>
      if Js.truthy (n_id newNode) then (ns ++ [newNode], k)
      else (ns ++ [with_node_id newNode (fresh_id "node" o k)], S k)
  | Some (i, existingNode) =>
      match n_metadata newNode ≫= transcriptIndices with
      | Some incoming => (<[i := add_indices existingNode incoming]> ns, k)
      | None => (ns, k)
      end
  end.

Definition same_ends (newEdge e : Edge) : Prop :=
  e_from e = e_from newEdge ∧ e_to e = e_to newEdge.

Global Instance same_ends_dec newEdge e : Decision (same_ends newEdge e).
Proof. unfold same_ends. apply _. Defined.

(** One turn of [for (const newEdge of updates.edges)]. *)
Definition merge_edge (o : Oracle) (st : list Edge * nat) (newEdge : Edge)
  : list Edge * nat :=
  let '(es, k) := st in
  match list_find (same_ends newEdge) es with
  | None =>
      if Js.truthy (e_id newEdge) then (es ++ [newEdge], k)
      else (es ++ [with_edge_id newEdge (fresh_id "edge" o k)], S k)
  | Some _ => (es, k)
  end.

(** The [metadata] literal of [merged]. *)
Definition merged_metadata (o : Oracle) (m : option GraphMeta) : GraphMeta :=
  {| sessionId := m ≫= sessionId;
     lastUpdated := Some (date_now o 0);
     version := Some (or_zero (m ≫= version) + 1);
     totalTranscripts := m ≫= totalTranscripts;
     error := m ≫= error |}.

Definition mergeMindmapUpdates (o : Oracle) (existingMindmap : Graph)
  (updates : Updates) : Graph :=
  let meta := merged_metadata o (metadata existingMindmap) in
  let '(ns, k) :=
    fold_left (merge_node o) (u_nodes updates) (nodes existingMindmap, 0%nat) in
  let '(es, _) :=
    fold_left (merge_edge o) (u_edges updates) (edges existingMindmap, k) in
  {| nodes := ns; edges := es; metadata := Some meta |}.

(** ** Summarization ([summarizeOlderNodes]) *)

(** [a.metadata?.firstMentioned || 0] *)
Definition mention_time (n : Node) : Z :=
  or_zero (n_metadata n ≫= firstMentioned).

(** [[...nodes].sort((a, b) => timeA - timeB)].  The sort of an array is
    stable, so its result is the one of any stable sort by [mention_time];
    this is insertion sort. *)
Fixpoint sort_insert (x : Node) (l : list Node) : list Node :=
  match l with
  | [] => [x]
  | y :: l' =>
      if mention_time x <=? mention_time y then x :: y :: l'
      else y :: sort_insert x l'
  end.

Fixpoint sort_by_time (l : list Node) : list Node :=
  match l with
  | [] => []
  | x :: l' => sort_insert x (sort_by_time l')
  end.

(** The order of the sorted array. *)
Definition time_le (a b : Node) : Prop := mention_time a <= mention_time b.

(** [node.level || 1] *)
Definition level_key (n : Node) : N :=
  if (n_level n =? 0)%N then 1%N else n_level n.

(** A property key that is the decimal text of an integer below 2^32 - 1
    is an array index. *)
Definition is_array_index (level : N) : bool := (level <? 4294967295)%N.

(** The object [byLevel], as the list of its entries in the order of
    [Object.keys] (a level is a natural number, and its key is its decimal
    text): the keys that are array indices come first, in ascending
    order, the other keys follow in the order in which they were created.
    [byLevel_push level node] is
    [if (!byLevel[level]) byLevel[level] = []; byLevel[level].push(node)]:
    a new array index goes before the first key that is not an array index
    or is a larger one, any other new key goes to the end. *)
Fixpoint byLevel_push (level : N) (node : Node) (m : list (N * list Node))
  : list (N * list Node) :=
  match m with
  | [] => [(level, [node])]
  | (l, g) :: m' =>
      if (level =? l)%N then (l, g ++ [node]) :: m'
      else if is_array_index level && (negb (is_array_index l) || (level <? l)%N)
      then (level, [node]) :: (l, g) :: m'
      else (l, g) :: byLevel_push level node m'
  end.

Definition group_by_level (olderNodes : list Node) : list (N * list Node) :=
  fold_left (fun m node => byLevel_push (level_key node) node m) olderNodes [].

(** [Math.min(...xs)]; the empty case (JavaScript's [Infinity]) is not
    reached, every group has a member. *)
Definition min_of (xs : list Z) : option Z :=
  match xs with
  | [] => None
  | x :: xs' => Some (fold_left Z.min xs' x)
  end.

Definition summary_node (o : Oracle) (k : nat) (level : N) (group : list Node)
  : Node :=
  {| n_id := "summary-" +:+ pretty level +:+ "-" +:+ pretty (date_now o k);
     n_label := pretty (length group) +:+ " " +:+
                Js.or_str (from_option n_type "" (head group)) "items";
     n_type := "summary";
     n_level := level;
     n_color := "#9B9B9B";
     n_size := 15;
     n_metadata := Some {| firstMentioned := min_of (mention_time <$> group);
                           speaker := None;
                           transcriptIndices := None;
                           summarizedNodes := Some (n_id <$> group) |};
     n_expandable := true |}.

(** The loop over [Object.keys(byLevel)]; [k] counts the clock readings. *)
Fixpoint summaries_of (o : Oracle) (k : nat) (m : list (N * list Node))
  : list Node :=
  match m with
  | [] => []
  | (level, group) :: m' =>
      if (0 <? length group)%nat
      then summary_node o k level group :: summaries_of o (S k) m'
      else summaries_of o k m'
  end.

Definition createSummaryNodes (o : Oracle) (olderNodes : list Node) : list Node :=
  summaries_of o 0 (group_by_level olderNodes).

(** [s.metadata?.summarizedNodes?.includes(id)] *)
Definition summarizes (id : string) (s : Node) : Prop :=
  match n_metadata s ≫= summarizedNodes with
  | Some ids => id ∈ ids
  | None => False
  end.

Global Instance summarizes_dec id s : Decision (summarizes id s).
Proof. unfold summarizes. destruct (n_metadata s ≫= summarizedNodes); apply _. Defined.

Definition with_from (e : Edge) (i : string) : Edge :=
  {| e_id := e_id e; e_from := i; e_to := e_to e;
     e_type := e_type e; e_color := e_color e |}.

Definition with_to (e : Edge) (i : string) : Edge :=
  {| e_id := e_id e; e_from := e_from e; e_to := i;
     e_type := e_type e; e_color := e_color e |}.

(** The body of [edges.forEach]: what the edge contributes to
    [updatedEdges], if anything. *)
Definition update_edge (oldNodeIds : list string) (summaryNodes : list Node)
  (edge : Edge) : option Edge :=
  let fromIsOld := bool_decide (e_from edge ∈ oldNodeIds) in
  let toIsOld := bool_decide (e_to edge ∈ oldNodeIds) in
  if fromIsOld && toIsOld then None
  else if fromIsOld then
    match list_find (summarizes (e_from edge)) summaryNodes with
    | Some (_, summaryNode) => Some (with_from edge (n_id summaryNode))
    | None => None
    end
  else if toIsOld then
    match list_find (summarizes (e_to edge)) summaryNodes with
    | Some (_, summaryNode) => Some (with_to edge (n_id summaryNode))
    | None => None
    end
  else Some edge.

(** [oldNodeIds] is a [Set] in the code; only membership is asked of it,
    so the list of the ids stands for it. *)
Definition updateEdgesForSummaries (edges : list Edge)
  (oldNodes summaryNodes : list Node) : list Edge :=
  let oldNodeIds := n_id <$> oldNodes in
  omap (update_edge oldNodeIds summaryNodes) edges.

Definition summarizeOlderNodes (o : Oracle) (mindmap : Graph) (maxNodes : Z)
  : Graph :=
  if Z.of_nat (length (nodes mindmap)) <=? maxNodes then mindmap
  else
    let sortedNodes := sort_by_time (nodes mindmap) in
    let recentNodes := Js.slice sortedNodes (- maxNodes) None in
    let olderNodes :=
      Js.slice sortedNodes 0
        (Some (Z.of_nat (length sortedNodes) - maxNodes)) in
    let summaryNodes := createSummaryNodes o olderNodes in
    let updatedEdges :=
      updateEdgesForSummaries (edges mindmap) olderNodes summaryNodes in
    {| nodes := recentNodes ++ summaryNodes;
       edges := updatedEdges;
       metadata := metadata mindmap |}.

(** ** The host runtime *)

(** Built-ins whose result depends on the host: [JSON.stringify] on a graph
    and [Date.prototype.toLocaleTimeString] (locale and time zone), the
    latter as a function of the date's time value in milliseconds. *)
Record Runtime := mkRuntime {
  JSON_stringify : Graph -> string;
  toLocaleTimeString : Z -> string
}.

(** Result of a call that may throw [new Error(msg)]. *)
Inductive Outcome (A : Type) : Type :=
| Returns (a : A)
| Throws (msg : string).
Arguments Returns {A} a.
Arguments Throws {A} msg.

(** ** Transcript formatting (first block of [generateMindmapFromTranscripts]) *)

Record Transcript := mkTranscript {
  t_speaker : string;
  t_text : string;
  start_at : option Z
}.

(** [!isNaN(new Date(ms).getTime())]: a time value is valid within
    8.64e15 milliseconds of the epoch. *)
Definition valid_time (ms : Z) : bool := Z.abs ms <=? 8640000000000000.

Definition index_tag (index : nat) : string := "[" +:+ pretty index +:+ "]".

(** The variable [timestamp] at the end of the callback's first statement
    group.  [if (t.start_at)] is false for an absent value and for 0. *)
Definition timestamp_of (rt : Runtime) (index : nat) (t : Transcript) : string :=
  match start_at t with
  | None => index_tag index
  | Some s =>
      if s =? 0 then index_tag index
      else if valid_time (s * 1000) then toLocaleTimeString rt (s * 1000)
      else if valid_time s then toLocaleTimeString rt s
      else index_tag index
  end.

(** [`[${timestamp}] ${speaker}: ${text}`] *)
Definition format_transcript (rt : Runtime) (index : nat) (t : Transcript)
  : string :=
  "[" +:+ timestamp_of rt index t +:+ "] " +:+
  Js.or_str (t_speaker t) "unknown" +:+ ": " +:+ Js.or_str (t_text t) "".

(** [arr.join('\n')] *)
Fixpoint join_lines (ls : list string) : string :=
  match ls with
  | [] => ""
  | [l] => l
  | l :: ls' => l +:+ String "010"%char (join_lines ls')
  end.

Definition formattedTranscripts (rt : Runtime) (allTranscripts : list Transcript)
  : string :=
  join_lines (imap (format_transcript rt) allTranscripts).

(** ** JSON extraction (the block after the code fences are removed) *)

Definition is_open (c : ascii) : bool := bool_decide (c = "{"%char).
Definition is_close (c : ascii) : bool := bool_decide (c = "}"%char).

(** The longest prefix of [s] that ends in a closing brace: what the
    greedy [[\s\S]*\}] consumes, after backtracking. *)
Fixpoint upto_last_close (s : string) : option string :=
  match s with
  | EmptyString => None
  | String c s' =>
      match upto_last_close s' with
      | Some t => Some (String c t)
      | None => if is_close c then Some (String c EmptyString) else None
      end
  end.

(** [responseText.match(/\{[\s\S]*\}/)]: the engine tries the start
    positions from left to right; the value is the matched text. *)
Fixpoint regex_match (s : string) : option string :=
  match s with
  | EmptyString => None
  | String c s' =>
      if is_open c then
        match upto_last_close s' with
        | Some t => Some (String c t)
        | None => regex_match s'
        end
      else regex_match s'
  end.

(** The suffix of [s] at [s.indexOf('{')], if that is not -1. *)
Fixpoint from_first_brace (s : string) : option string :=
  match s with
  | EmptyString => None
  | String c s' => if is_open c then Some s else from_first_brace s'
  end.

(** The [for] loop of the fallback, on the text from index [i] on, and the
    test after it: the text [substring(firstBrace, endIndex)] when
    [braceCount] is 0 at the end.  Leaving the loop at the end of the text
    keeps [endIndex] where it was. *)
Fixpoint brace_scan (braceCount : Z) (s : string) : option string :=
  match s with
  | EmptyString => if braceCount =? 0 then Some EmptyString else None
  | String c s' =>
      let braceCount1 := if is_open c then braceCount + 1 else braceCount in
      let braceCount2 := if is_close c then braceCount1 - 1 else braceCount1 in
      if braceCount2 =? 0 then Some (String c EmptyString)
      else String c <$> brace_scan braceCount2 s'
  end.

Definition brace_fallback (responseText : string) : option string :=
  match from_first_brace responseText with
  | Some t => brace_scan 0 t
  | None => None
  end.

(** [jsonMatch[0]], or [None] when [jsonMatch] stays null. *)
Definition extract_json (responseText : string) : option string :=
  match regex_match responseText with
  | Some m => Some m
  | None => brace_fallback responseText
  end.

(** ** Persistence ([saveMindmap]) *)

(** A summary record as [getSummaryBySessionId] returns it; a column can be
    null. *)
Record SummaryRow := mkSummaryRow {
  r_text : option string;
  r_tldr : option string;
  r_bullet_json : option string;
  r_action_json : option string;
  r_model : option string;
  r_generated_at : option Z;
  r_updated_at : option Z;
  r_mindmap_json : option string
}.

(** The object passed to [saveSummary]. *)
Record SummaryArgs := mkSummaryArgs {
  a_sessionId : string;
  a_mindmap_json : string;
  a_text : string;
  a_tldr : string;
  a_bullet_json : string;
  a_action_json : string;
  a_model : string;
  a_generated_at : Z;
  a_updated_at : Z
}.

(** [x || d] on a nullable string column. *)
Definition str_or (x : option string) (d : string) : string :=
  Js.or_str (default "" x) d.

(** [x || d] on a nullable number column. *)
Definition num_or (x : option Z) (d : Z) : Z :=
  match x with
  | Some z => if z =? 0 then d else z
  | None => d
  end.

(** The argument of [saveSummary] in either branch of
    [if (existingSummary)]; [now] is [Math.floor(Date.now() / 1000)]. *)
Definition summary_args (rt : Runtime) (session : string) (now : Z)
  (existingSummary : option SummaryRow) (mindmap : Graph) : SummaryArgs :=
  let mindmapJson := JSON_stringify rt mindmap in
  match existingSummary with
  | Some ex =>
      {| a_sessionId := session;
         a_mindmap_json := mindmapJson;
         a_text := str_or (r_text ex) "";
         a_tldr := str_or (r_tldr ex) "";
         a_bullet_json := str_or (r_bullet_json ex) "";
         a_action_json := str_or (r_action_json ex) "";
         a_model := str_or (r_model ex) "unknown";
         a_generated_at := num_or (r_generated_at ex) now;
         a_updated_at := now |}
  | None =>
      {| a_sessionId := session;
         a_mindmap_json := mindmapJson;
         a_text := "";
         a_tldr := "";
         a_bullet_json := "";
         a_action_json := "";
         a_model := "unknown";
         a_generated_at := now;
         a_updated_at := now |}
  end.

(** What the summary repository does during one save: the result of
    [getSummaryBySessionId] and whether [saveSummary] throws. *)
Record Repository := mkRepository {
  stored_summary : Outcome (option SummaryRow);
  write_result : Outcome unit
}.

(** [saveMindmap(mindmap)]: the record written, or the error rethrown. *)
Definition saveMindmap (rt : Runtime) (o : Oracle) (repo : Repository)
  (currentSessionId : option string) (mindmap : Graph) : Outcome SummaryArgs :=
  match currentSessionId with
  | None | Some EmptyString => Throws "No active session to save mindmap"
  | Some session =>
      match stored_summary repo with
      | Throws msg => Throws msg
      | Returns existingSummary =>
          let now := date_now o 0 / 1000 in
          let args := summary_args rt session now existingSummary mindmap in
          match write_result repo with
          | Throws msg => Throws msg
          | Returns _ => Returns args
          end
      end
  end.

(** ** The service and its update cycle *)

Record Pending := mkPending {
  p_speaker : string;
  p_text : string;
  p_timestamp : Z
}.

Record Service := mkService {
  currentMindmap : Graph;
  conversationHistory : list string;
  currentSessionId : option string;
  updateTimer : bool;
  pendingTranscripts : list Pending
}.

Definition empty_graph (session : option string) : Graph :=
  {| nodes := []; edges := [];
     metadata := Some {| sessionId := session; lastUpdated := None;
                         version := Some 0; totalTranscripts := Some 0;
                         error := None |} |}.

(** [new MindmapService()] *)
Definition constructor : Service :=
  {| currentMindmap := empty_graph None;
     conversationHistory := [];
     currentSessionId := None;
     updateTimer := false;
     pendingTranscripts := [] |}.

Definition with_mindmap (s : Service) (g : Graph) : Service :=
  {| currentMindmap := g;
     conversationHistory := conversationHistory s;
     currentSessionId := currentSessionId s;
     updateTimer := updateTimer s;
     pendingTranscripts := pendingTranscripts s |}.

(** [setSessionId(sessionId)] *)
Definition setSessionId (sessionId : option string) (s : Service) : Service :=
  let g := currentMindmap s in
  let m := default (mkGraphMeta None None None None None) (metadata g) in
  {| currentMindmap :=
       {| nodes := nodes g; edges := edges g;
          metadata := Some {| sessionId := sessionId;
                              lastUpdated := lastUpdated m;
                              version := version m;
                              totalTranscripts := totalTranscripts m;
                              error := error m |} |};
     conversationHistory := conversationHistory s;
     currentSessionId := sessionId;
     updateTimer := updateTimer s;
     pendingTranscripts := pendingTranscripts s |}.

(** [resetConversationHistory()] *)
Definition resetConversationHistory (s : Service) : Service :=
  {| currentMindmap := empty_graph (currentSessionId s);
     conversationHistory := [];
     currentSessionId := currentSessionId s;
     updateTimer := false;
     pendingTranscripts := [] |}.

(** [!this.currentSessionId] *)
Definition no_session (s : Service) : bool :=
  negb (Js.truthy (default "" (currentSessionId s))).

(** What the callbacks and the repository observe of a cycle. *)
Inductive Effect :=
| SaveSummary (args : SummaryArgs)
| MindmapUpdate (g : Graph)
| StatusUpdate (type message : string).

(** The collaborators of one cycle: the transcript repository, the
    generator ([generateMindmapFromTranscripts], which either returns an
    object whose [nodes] and [edges] are arrays or throws) at each attempt,
    the summary repository, and the clock as read by the cycle itself, by
    [summarizeOlderNodes] and by [saveMindmap]. *)
Record CycleEnv := mkCycleEnv {
  all_transcripts : Outcome (list Transcript);
  generate : nat -> Outcome Updates;
  repository : Repository;
  clock : Oracle;
  summarize_clock : Oracle;
  save_clock : Oracle
}.

(** The [while (retries >= 0)] loop: [left] attempts remain, [attempt] have
    been made.  Its value is [mindmapData] and [lastError]. *)
Fixpoint generate_with_retries (generate : nat -> Outcome Updates)
  (attempt left : nat) (lastError : option string)
  : option Updates * option string :=
  match left with
  | O => (None, lastError)
  | S left' =>
      match generate attempt with
      | Returns mindmapData => (Some mindmapData, lastError)
      | Throws msg =>
          generate_with_retries generate (S attempt) left' (Some msg)
      end
  end.

(** The [catch] block of [updateMindmap]; [o] is the clock at that point. *)
Definition on_error (o : Oracle) (s : Service) (message : string)
  : Service * list Effect :=
  let s' :=
    if (0 <? length (nodes (currentMindmap s)))%nat then s
    else with_mindmap s
           {| nodes := []; edges := [];
              metadata := Some {| sessionId := currentSessionId s;
                                  lastUpdated := Some (date_now o 0);
                                  version := Some 0;
                                  totalTranscripts := Some 0;
                                  error := Some message |} |} in
  (s', [StatusUpdate "error" message]).

(** [updateMindmap()], one cycle from its call to its return, when nothing
    else of the service runs while it is suspended ([resume] below gives
    the cycle step by step). *)
Definition updateMindmap (rt : Runtime) (env : CycleEnv) (s : Service)
  : Service * list Effect :=
  let o := clock env in
  if no_session s then (s, [])
  else
    match all_transcripts env with
    | Throws msg => on_error o s msg
    | Returns [] => (s, [])
    | Returns allTranscripts =>
        match generate_with_retries (generate env) 0 3 None with
        | (None, lastError) =>
            on_error o s
              (default "Failed to generate mindmap after retries" lastError)
        | (Some mindmapData, _) =>
            let newMindmap :=
              {| nodes := u_nodes mindmapData;
                 edges := u_edges mindmapData;
                 metadata :=
                   Some {| sessionId := currentSessionId s;
                           lastUpdated := Some (date_now o 0);
                           version :=
                             Some (or_zero (metadata (currentMindmap s) ≫= version) + 1);
                           totalTranscripts :=
                             Some (Z.of_nat (length allTranscripts));
                           error := None |} |} in
            let finalMindmap :=
              summarizeOlderNodes (summarize_clock env) newMindmap 200 in
            match saveMindmap rt (save_clock env) (repository env)
                    (currentSessionId s) finalMindmap with
            | Throws msg => on_error (later 1 o) s msg
            | Returns args =>
                ({| currentMindmap := finalMindmap;
                    conversationHistory := conversationHistory s;
                    currentSessionId := currentSessionId s;
                    updateTimer := updateTimer s;
                    pendingTranscripts := [] |},
                 [SaveSummary args; MindmapUpdate finalMindmap])
            end
        end
    end.

(** A cycle succeeded when it notified the renderer of a new mind map,
    failed when it reported an error, and was skipped otherwise. *)
Inductive CycleKind := Succeeded | Failed | Skipped.

Definition is_update (e : Effect) : bool :=
  match e with MindmapUpdate _ => true | _ => false end.

Definition is_status (e : Effect) : bool :=
  match e with StatusUpdate _ _ => true | _ => false end.

Definition cycle_kind (effects : list Effect) : CycleKind :=
  if existsb is_update effects then Succeeded
  else if existsb is_status effects then Failed
  else Skipped.

(** Cycles that run one after the other, each returning before the next
    is called, each with its own collaborators; the trace records the
    service before each cycle and the cycle's kind.  Nothing in the service
    makes cycles run this way: [one_by_one] below is this schedule among
    the others. *)
Fixpoint run_cycles (rt : Runtime) (envs : list CycleEnv) (s : Service)
  : list (Service * CycleKind) * Service :=
  match envs with
  | [] => ([], s)
  | env :: envs' =>
      let '(s1, effects) := updateMindmap rt env s in
      let '(trace, s2) := run_cycles rt envs' s1 in
      ((s, cycle_kind effects) :: trace, s2)
  end.

(** Deltas merged one after the other, each merge with its own clock. *)
Fixpoint merge_all (steps : list (Oracle * Updates)) (g : Graph) : Graph :=
  match steps with
  | [] => g
  | (o, u) :: steps' => merge_all steps' (mergeMindmapUpdates o g u)
  end.

(** ** Properties of graphs *)

(** [metadata?.version || 0] *)
Definition graph_version (g : Graph) : Z := or_zero (metadata g ≫= version).

Definition node_ids (g : Graph) : list string := n_id <$> nodes g.

(** Both ends of the edge are ids of nodes of [ns]. *)
Definition resolved_in (ns : list Node) (e : Edge) : Prop :=
  e_from e ∈ (n_id <$> ns) ∧ e_to e ∈ (n_id <$> ns).

Global Instance resolved_in_dec ns e : Decision (resolved_in ns e).
Proof. unfold resolved_in. apply _. Defined.

(** No edge of the graph dangles. *)
Definition no_dangling (g : Graph) : Prop :=
  Forall (resolved_in (nodes g)) (edges g).

Global Instance no_dangling_dec g : Decision (no_dangling g).
Proof. unfold no_dangling. apply _. Defined.

Definition unique_ids (g : Graph) : Prop := NoDup (node_ids g).

(** [[...(m.transcriptIndices || [])]] of a node. *)
Definition indices_of (n : Node) : list Z :=
  default [] (n_metadata n ≫= transcriptIndices).

(** ** The merge algorithm in the words of the specification (section 4.3)

    "For each incoming node, find the first existing node satisfying
    [similar]; if found, union [metadata.transcriptIndices] and keep the
    existing node's identity/visual attributes; if not found, append the
    node, generating an id if absent.  For each incoming edge, append only
    if no existing edge already has the identical [(from, to)] pair." *)






(** ** A runtime to evaluate the model with *)

Definition two_digits (n : Z) : string :=
  if n <? 10 then "0" +:+ pretty n else pretty n.

(** The time of day in UTC, 24-hour clock: [toLocaleTimeString] of a host
    whose locale is en-GB and whose time zone is UTC. *)
Definition utc_time_string (ms : Z) : string :=
  let secs := (ms / 1000) mod 86400 in
  two_digits (secs / 3600) +:+ ":" +:+ two_digits ((secs / 60) mod 60) +:+
  ":" +:+ two_digits (secs mod 60).

Definition quoted (s : string) : string :=
  String "034"%char s +:+ String "034"%char EmptyString.

Fixpoint comma_sep (ls : list string) : string :=
  match ls with
  | [] => ""
  | [l] => l
  | l :: ls' => l +:+ "," +:+ comma_sep ls'
  end.

(** A compact rendering of the ids, labels, ends and version of a graph. *)
Definition render_graph (g : Graph) : string :=
  "{nodes:[" +:+
  comma_sep ((fun n => quoted (n_id n) +:+ ":" +:+ quoted (n_label n)) <$> nodes g)
  +:+ "],edges:[" +:+
  comma_sep ((fun e => quoted (e_from e) +:+ ">" +:+ quoted (e_to e)) <$> edges g)
  +:+ "],version:" +:+ pretty (graph_version g) +:+ "}".

Definition sample_runtime : Runtime :=
  {| JSON_stringify := render_graph; toLocaleTimeString := utc_time_string |}.

(** A clock that advances one millisecond per reading. *)
Definition sample_clock (start : Z) : Oracle :=
  {| date_now := fun k => start + Z.of_nat k;
     math_random := fun k => "r" +:+ pretty k |}.

(** ** What a save keeps of the stored record *)

(** The written string is the stored one when that is truthy, and the
    default [d] when the column is null or empty. *)
Definition kept_or_default (stored : option string) (d written : string) : Prop :=
  (∀ s, stored = Some s -> Js.truthy s = true -> written = s) ∧
  (stored = None ∨ stored = Some EmptyString -> written = d).

Definition kept_or_default_num (stored : option Z) (d written : Z) : Prop :=
  (∀ z, stored = Some z -> z ≠ 0 -> written = z) ∧
  (stored = None ∨ stored = Some 0 -> written = d).

Definition sample_graph : Graph :=
  {| nodes := [ {| n_id := "node-1"; n_label := "Budget"; n_type := "topic";
                   n_level := 1; n_color := "#4A90E2"; n_size := 20;
                   n_metadata := None; n_expandable := false |};
                {| n_id := "node-2"; n_label := "Hiring"; n_type := "subtopic";
                   n_level := 2; n_color := "#50C878"; n_size := 18;
                   n_metadata := None; n_expandable := false |} ];
     edges := [ {| e_id := "edge-1"; e_from := "node-1"; e_to := "node-2";
                   e_type := "hierarchical"; e_color := "#888888" |} ];
     metadata := Some {| sessionId := Some "test-session";
                         lastUpdated := Some 1700000000000;
                         version := Some 1;
                         totalTranscripts := Some 2;
                         error := None |} |}.

(** The stored record of the repository's own test of [saveMindmap]. *)
Definition sample_row : SummaryRow :=
  {| r_text := Some "Existing summary"; r_tldr := Some "TLDR";
     r_bullet_json := Some "[]"; r_action_json := Some "[]";
     r_model := Some "gpt-4"; r_generated_at := Some 1234567890;
     r_updated_at := Some 1234567890; r_mindmap_json := None |}.

(** The same record with an empty [model] column. *)
Definition sample_row_no_model : SummaryRow :=
  {| r_text := Some "Existing summary"; r_tldr := Some "TLDR";
     r_bullet_json := Some "[]"; r_action_json := Some "[]";
     r_model := Some EmptyString; r_generated_at := Some 1234567890;
     r_updated_at := Some 1234567890; r_mindmap_json := None |}.

Definition sample_repository (stored : option SummaryRow) : Repository :=
  {| stored_summary := Returns stored; write_result := Returns tt |}.

(** The scenario of the specification: a graph with the node
    [{id: 'n1', label: 'Budget'}] and a delta with
    [{id: 'n2', label: 'Q4 Budget'}]. *)
Definition plain_node (id label : string) : Node :=
  {| n_id := id; n_label := label; n_type := EmptyString; n_level := 0;
     n_color := EmptyString; n_size := 0; n_metadata := None;
     n_expandable := false |}.

Definition plain_edge (id from to : string) : Edge :=
  {| e_id := id; e_from := from; e_to := to; e_type := EmptyString;
     e_color := EmptyString |}.

Definition budget_graph : Graph :=
  {| nodes := [plain_node "n1" "Budget"]; edges := []; metadata := None |}.


(** A delta that is consistent in itself, its edge joining its own two
    nodes, of which the first is similar to the node of [budget_graph]. *)
Definition q4_sales_delta : Updates :=
  {| u_nodes := [plain_node "n2" "Q4 Budget"; plain_node "n3" "Sales"];
     u_edges := [plain_edge "e1" "n3" "n2"] |}.

Definition timed_node (id label : string) (level : N) (mentioned : Z) : Node :=
  {| n_id := id; n_label := label; n_type := "topic"; n_level := level;
     n_color := "#4A90E2"; n_size := 20;
     n_metadata := Some {| firstMentioned := Some mentioned; speaker := None;
                           transcriptIndices := None; summarizedNodes := None |};
     n_expandable := false |}.

(** Three nodes mentioned at times 3, 1 and 2, and the three edges
    between them. *)
Definition triangle_graph : Graph :=
  {| nodes := [timed_node "a" "Alpha" 1 3; timed_node "b" "Beta" 1 1;
               timed_node "c" "Gamma" 2 2];
     edges := [plain_edge "e1" "a" "b"; plain_edge "e2" "b" "c";
               plain_edge "e3" "c" "a"];
     metadata := None |}.

(** ** Sample cycles *)

Definition sample_transcripts : list Transcript :=
  [ {| t_speaker := "them"; t_text := "Misaligned AI curiosity poses risks.";
       start_at := Some 1000 |} ].

Definition cycle_env (answer : nat -> Outcome Updates) : CycleEnv :=
  {| all_transcripts := Returns sample_transcripts;
     generate := answer;
     repository := sample_repository None;
     clock := sample_clock 1700000000000;
     summarize_clock := sample_clock 1700000000001;
     save_clock := sample_clock 1700000000002 |}.

(** The model answers without any JSON, at every attempt. *)
Definition failing_env : CycleEnv :=
  cycle_env (fun _ => Throws "No JSON found in LLM response. Response: I cannot help with that.").

(** The model answers [{}]: the generator returns empty arrays. *)
Definition empty_answer_env : CycleEnv :=
  cycle_env (fun _ => Returns {| u_nodes := []; u_edges := [] |}).

(** The model answers with one edge and no node. *)
Definition edge_only_env : CycleEnv :=
  cycle_env (fun _ => Returns
    {| u_nodes := [];
       u_edges := [ {| e_id := "e1"; e_from := "n1"; e_to := "n2";
                       e_type := EmptyString; e_color := EmptyString |} ] |}).

(** The model answers with the one node of the specification's scenario. *)
Definition curiosity_env : CycleEnv :=
  cycle_env (fun _ => Returns
    {| u_nodes := [ {| n_id := "node-1"; n_label := "AI Curiosity";
                       n_type := "topic"; n_level := 1; n_color := "#4A90E2";
                       n_size := 20; n_metadata := None;
                       n_expandable := false |} ];
       u_edges := [] |}).

Definition bound_service : Service := setSessionId (Some "s1") constructor.

(** The kinds of the cycles of a trace, and how many succeeded. *)
Definition kinds (trace : list (Service * CycleKind)) : list CycleKind :=
  snd <$> trace.

Definition is_succeeded (k : CycleKind) : bool :=
  match k with Succeeded => true | _ => false end.

Definition successes (trace : list (Service * CycleKind)) : nat :=
  length (List.filter is_succeeded (kinds trace)).

(** No cycle of the trace failed on a graph without nodes. *)
Definition failures_had_nodes (trace : list (Service * CycleKind)) : Prop :=
  Forall (fun '(before, kind) =>
            kind = Failed -> nodes (currentMindmap before) ≠ []) trace.

(** * The rest of the service, and the view that consumes its graphs *)

(** ** Conversation turns and the timer *)

Definition with_timer (s : Service) (armed : bool) : Service :=
  {| currentMindmap := currentMindmap s;
     conversationHistory := conversationHistory s;
     currentSessionId := currentSessionId s;
     updateTimer := armed;
     pendingTranscripts := pendingTranscripts s |}.

(** [startUpdateTimer()]: the service with the interval armed, and whether
    an update cycle is launched at once.  [updateMindmap] is asynchronous
    and is not awaited, so nothing it does is seen before the method
    returns; the cycle itself is a later [updateMindmap]. *)
Definition startUpdateTimer (s : Service) : Service * bool :=
  (with_timer s true, (0 <? length (pendingTranscripts s))%nat).

(** [stopUpdateTimer()] *)
Definition stopUpdateTimer (s : Service) : Service :=
  if updateTimer s then with_timer s false else s.

(** The callback of [setInterval]: a cycle is launched when a session is
    bound. *)
Definition interval_launches (s : Service) : bool := negb (no_session s).

(** [addConversationTurn(speaker, text)]: the new service, and whether an
    update cycle is launched. *)
Definition addConversationTurn (o : Oracle) (speaker text : string) (s : Service)
  : Service * bool :=
  let conversationText := Js.toLowerCase speaker +:+ ": " +:+ Js.trim text in
  let s1 :=
    {| currentMindmap := currentMindmap s;
       conversationHistory := conversationHistory s ++ [conversationText];
       currentSessionId := currentSessionId s;
       updateTimer := updateTimer s;
       pendingTranscripts :=
         pendingTranscripts s ++
         [{| p_speaker := speaker; p_text := text; p_timestamp := date_now o 0 |}] |} in
  if negb (updateTimer s1) && negb (no_session s1) then startUpdateTimer s1
  else (s1, false).

(** [getConversationHistory()] and [getCurrentMindmap()] *)
Definition getConversationHistory (s : Service) : list string := conversationHistory s.
Definition getCurrentMindmap (s : Service) : Graph := currentMindmap s.

(** [formatConversationForPrompt(conversationTexts, maxTurns)]; the default
    of [maxTurns] is 50. *)
Definition formatConversationForPrompt (conversationTexts : list string)
  (maxTurns : Z) : string :=
  if (length conversationTexts =? 0)%nat then EmptyString
  else join_lines (Js.slice conversationTexts (- maxTurns) None).

(** ** Loading the stored graph ([loadMindmapFromDatabase]) *)

(** [JSON_parse] is the host's [JSON.parse] on a stored graph; [stored] is
    what [getSummaryBySessionId] does.  The value is the service and what
    the method returns, [None] for [null]. *)
Definition loadMindmapFromDatabase (JSON_parse : string -> Outcome Graph)
  (stored : Outcome (option SummaryRow)) (s : Service) : Service * option Graph :=
  match stored with
  | Throws _ => (s, None)
  | Returns None => (s, None)
  | Returns (Some summary) =>
      match r_mindmap_json summary with
      | None => (s, None)
      | Some json =>
          if Js.truthy json then
            match JSON_parse json with
            | Returns g => (with_mindmap s g, Some g)
            | Throws _ => (s, None)
            end
          else (s, None)
      end
  end.

(** ** The answer of the model: cleaning, extraction, errors *)

(** The character of [s] at index [n] is a line feed. *)
Definition newline_at (n : nat) (s : string) : bool :=
  match String.get n s with
  | Some c => bool_decide (c = "010"%char)
  | None => false
  end.

(** [s.replace(/<lit>\n?/g, '')] for a literal [lit]: the matches are
    found from left to right and do not overlap; [skip] characters of the
    current match remain to be dropped. *)
Fixpoint remove_lit (lit : string) (skip : nat) (s : string) : string :=
  match s with
  | EmptyString => EmptyString
  | String c r =>
      match skip with
      | S k => remove_lit lit k r
      | O =>
          if String.prefix lit s then
            remove_lit lit
              (String.length lit - 1 + (if newline_at (String.length lit) s then 1 else 0))
              r
          else String c (remove_lit lit 0 r)
      end
  end.

Definition fence : string := "```".
Definition json_fence : string := "```json".

(** [responseText.replace(/```json\n?/g, '').replace(/```\n?/g, '').trim()] *)
Definition strip_fences (responseText : string) : string :=
  Js.trim (remove_lit fence 0 (remove_lit json_fence 0 responseText)).

(** What [JSON.parse] gives for a text that starts with an opening brace:
    an object, of which the code reads [nodes] and [edges], each present
    here when it is an array. *)
Record Parsed := mkParsed {
  p_nodes : option (list Node);
  p_edges : option (list Edge)
}.

(** The end of [generateMindmapFromTranscripts], from the normalized
    [responseText] on: the empty-answer error, the cleaning, the
    extraction, [JSON.parse] and the coercion of [nodes] and [edges]. *)
Definition updates_of_response (JSON_parse : string -> Outcome Parsed)
  (finishReason : string) (responseText : string) : Outcome Updates :=
  if negb (Js.truthy responseText) then
    Throws ("LLM returned empty response. Finish reason: " +:+
            Js.or_str finishReason "unknown" +:+
            ". Check API key, model configuration, and consider increasing maxTokens.")
  else
    let cleaned := strip_fences responseText in
    match extract_json cleaned with
    | None =>
        Throws ("No JSON found in LLM response. Response: " +:+
                String.substring 0 200 cleaned)
    | Some text =>
        match JSON_parse text with
        | Throws message =>
            Throws ("Failed to parse JSON from LLM response: " +:+ message)
        | Returns updates =>
            Returns {| u_nodes := default [] (p_nodes updates);
                       u_edges := default [] (p_edges updates) |}
        end
    end.

(** The guard after the formatting:
    [!formattedTranscripts || formattedTranscripts.trim().length === 0]. *)
Definition no_transcript_content (rt : Runtime) (allTranscripts : list Transcript)
  : bool :=
  let formatted := formattedTranscripts rt allTranscripts in
  negb (Js.truthy formatted) || (String.length (Js.trim formatted) =? 0)%nat.

(** ** The view ([MindmapView]) *)

Module View.

(** [getVisibleNodes(allNodes)]: every node is shown. *)
Definition getVisibleNodes (allNodes : list Node) : list Node :=
  if (length allNodes =? 0)%nat then [] else allNodes.

(** [getVisibleEdges(allEdges, visibleNodes)] *)
Definition getVisibleEdges (allEdges : list Edge) (visibleNodes : list Node)
  : list Edge :=
  if (length allEdges =? 0)%nat then []
  else if (length visibleNodes =? 0)%nat then []
  else
    let visibleNodeIds := n_id <$> visibleNodes in
    List.filter
      (fun e => bool_decide (e_from e ∈ visibleNodeIds) &&
                bool_decide (e_to e ∈ visibleNodeIds))
      allEdges.

(** The two lists that [renderMindmap] draws for the data it holds. *)
Definition rendered (data : Graph) : list Node * list Edge :=
  if (length (nodes data) =? 0)%nat then ([], [])
  else
    let visibleNodes := getVisibleNodes (nodes data) in
    (visibleNodes, getVisibleEdges (edges data) visibleNodes).

(** [handleNodeClick(event, node)] on the set [expandedNodes]. *)
Definition handleNodeClick (expandedNodes : gset string) (node : Node)
  : gset string :=
  if bool_decide (n_id node ∈ expandedNodes)
  then expandedNodes ∖ {[ n_id node ]}
  else expandedNodes ∪ {[ n_id node ]}.

End View.

(** The graph that a cycle builds, from the answer of the generator and
    the number of transcripts, before it saves and shows it. *)
Definition cycle_graph (env : CycleEnv) (s : Service) (mindmapData : Updates)
  (count : nat) : Graph :=
  summarizeOlderNodes (summarize_clock env)
    {| nodes := u_nodes mindmapData;
       edges := u_edges mindmapData;
       metadata :=
         Some {| sessionId := currentSessionId s;
                 lastUpdated := Some (date_now (clock env) 0);
                 version := Some (or_zero (metadata (currentMindmap s) ≫= version) + 1);
                 totalTranscripts := Some (Z.of_nat count);
                 error := None |} |} 200.

(** ** Cycles in flight *)

(** [updateMindmap] is an async function, and no caller awaits it: the
    callback of the interval and [startUpdateTimer] just call it, and
    nothing keeps a second cycle from starting while one is running.  A
    cycle is suspended at each of its awaits, and whatever else the service
    is asked to do runs in between.  The points of suspension, with what
    the cycle holds in its local variables there: the await of the
    transcripts; the retry loop with its waits, during which the generator
    reads nothing of the service; the await of the stored summary inside
    [saveMindmap]; the await of [saveSummary]; and the await of
    [saveMindmap] when that has thrown before its first await. *)
Inductive Suspended :=
| AtTranscripts
| AtGenerate (allTranscripts : list Transcript)
| AtStored (finalMindmap : Graph)
| AtWrite (finalMindmap : Graph) (args : SummaryArgs)
| AtThrown (message : string).

(** The [catch] block ends the cycle. *)
Definition caught (r : Service * list Effect)
  : Service * list Effect * option Suspended := (r.1, r.2, None).

(** The cycle runs from one point of suspension to the next, or to its
    end, on the service as it is when the awaited promise settles.  The
    new graph takes the session id and the version that the service has
    when the generator has answered; [saveMindmap] tests the session id
    then, and reads it again for the record when the stored summary has
    arrived; the graph is made current when the write has returned. *)
Definition resume (rt : Runtime) (env : CycleEnv) (point : Suspended) (s : Service)
  : Service * list Effect * option Suspended :=
  let o := clock env in
  match point with
  | AtTranscripts =>
      match all_transcripts env with
      | Throws msg => caught (on_error o s msg)
      | Returns [] => (s, [], None)
      | Returns allTranscripts => (s, [], Some (AtGenerate allTranscripts))
      end
  | AtGenerate allTranscripts =>
      match generate_with_retries (generate env) 0 3 None with
      | (None, lastError) =>
          caught (on_error o s
                    (default "Failed to generate mindmap after retries" lastError))
      | (Some mindmapData, _) =>
          let finalMindmap :=
            cycle_graph env s mindmapData (length allTranscripts) in
          if no_session s
          then (s, [], Some (AtThrown "No active session to save mindmap"))
          else (s, [], Some (AtStored finalMindmap))
      end
  | AtStored finalMindmap =>
      match stored_summary (repository env) with
      | Throws msg => caught (on_error (later 1 o) s msg)
      | Returns existingSummary =>
          let now := date_now (save_clock env) 0 / 1000 in
          (s, [],
           Some (AtWrite finalMindmap
                   (summary_args rt (default "" (currentSessionId s)) now
                      existingSummary finalMindmap)))
      end
  | AtWrite finalMindmap args =>
      match write_result (repository env) with
      | Throws msg => caught (on_error (later 1 o) s msg)
      | Returns _ =>
          ({| currentMindmap := finalMindmap;
              conversationHistory := conversationHistory s;
              currentSessionId := currentSessionId s;
              updateTimer := updateTimer s;
              pendingTranscripts := [] |},
           [SaveSummary args; MindmapUpdate finalMindmap], None)
      end
  | AtThrown message => caught (on_error (later 1 o) s message)
  end.

(** A cycle that was launched: its collaborators and where it is
    suspended, [None] once it has returned. *)
Record Cycle := mkCycle {
  c_env : CycleEnv;
  c_point : option Suspended
}.

(** The service with the cycles launched so far, in the order of their
    launch, and what the callbacks and the repository have observed. *)
Record World := mkWorld {
  w_service : Service;
  w_cycles : list Cycle;
  w_effects : list Effect
}.

Definition idle (s : Service) : World :=
  {| w_service := s; w_cycles := []; w_effects := [] |}.

Definition on_service (f : Service -> Service) (w : World) : World :=
  {| w_service := f (w_service w);
     w_cycles := w_cycles w;
     w_effects := w_effects w |}.

(** A call of [updateMindmap()]: without a session it returns, otherwise
    it asks for the transcripts and is suspended. *)
Definition launch (env : CycleEnv) (w : World) : World :=
  {| w_service := w_service w;
     w_cycles :=
       w_cycles w ++
       [{| c_env := env;
           c_point := if no_session (w_service w) then None
                      else Some AtTranscripts |}];
     w_effects := w_effects w |}.

(** The promise that cycle [i] awaits settles. *)
Definition settle (rt : Runtime) (i : nat) (w : World) : World :=
  match w_cycles w !! i with
  | Some {| c_env := env; c_point := Some point |} =>
      let '(s, effects, next) := resume rt env point (w_service w) in
      {| w_service := s;
         w_cycles := <[i := {| c_env := env; c_point := next |}]> (w_cycles w);
         w_effects := w_effects w ++ effects |}
  | _ => w
  end.

(** ** The operations of the service, in any order *)

(** [OpCycle] is a call of [updateMindmap()], by the interval, by
    [startUpdateTimer] or by anyone else; [OpSettle i] lets cycle [i] run
    on from where it is suspended. *)
Inductive Op :=
| OpBind (sessionId : option string)
| OpTurn (o : Oracle) (speaker text : string)
| OpCycle (env : CycleEnv)
| OpSettle (i : nat)
| OpReset
| OpStartTimer
| OpStopTimer.

Definition apply_op (rt : Runtime) (op : Op) (w : World) : World :=
  match op with
  | OpBind sessionId => on_service (setSessionId sessionId) w
  | OpTurn o speaker text =>
      on_service (fun s => (addConversationTurn o speaker text s).1) w
  | OpCycle env => launch env w
  | OpSettle i => settle rt i w
  | OpReset => on_service resetConversationHistory w
  | OpStartTimer => on_service (fun s => (startUpdateTimer s).1) w
  | OpStopTimer => on_service stopUpdateTimer w
  end.

Definition apply_ops (rt : Runtime) (ops : list Op) (w : World) : World :=
  fold_left (fun w op => apply_op rt op w) ops w.

(** The operations of a cycle during which nothing else runs: the call
    and the four promises; [i] is the number of cycles launched before. *)
Definition alone (i : nat) (env : CycleEnv) : list Op :=
  [OpCycle env; OpSettle i; OpSettle i; OpSettle i; OpSettle i].

(** Cycles one after the other, each returning before the next is
    launched. *)
Fixpoint one_by_one (i : nat) (envs : list CycleEnv) : list Op :=
  match envs with
  | [] => []
  | env :: envs' => alone i env ++ one_by_one (S i) envs'
  end.

(** Two cycles that overlap: both are launched, both build their graph,
    then both save it. *)
Definition overlapping (env1 env2 : CycleEnv) : list Op :=
  [OpCycle env1; OpCycle env2;
   OpSettle 0; OpSettle 0; OpSettle 1; OpSettle 1;
   OpSettle 0; OpSettle 0; OpSettle 1; OpSettle 1].

(** The graph has metadata with a version that is a number and is not
    negative. *)
Definition versioned (g : Graph) : Prop :=
  ∃ m v, metadata g = Some m ∧ version m = Some v ∧ 0 <= v.

(** The session id in the metadata of the graph. *)
Definition graph_session (g : Graph) : option string := metadata g ≫= sessionId.

(** The graph that a cycle holds between building and committing it. *)
Definition held (point : option Suspended) : option Graph :=
  match point with
  | Some (AtStored g) | Some (AtWrite g _) => Some g
  | _ => None
  end.

Definition held_graph (c : Cycle) : option Graph := held (c_point c).

(** What every history of operations keeps true of a service made by
    [constructor]. *)
Definition service_ok (s : Service) : Prop :=
  versioned (currentMindmap s) ∧
  (length (pendingTranscripts s) <= length (conversationHistory s))%nat.

(** The same of the service together with the graphs that the cycles in
    flight hold. *)
Definition world_ok (w : World) : Prop :=
  service_ok (w_service w) ∧
  Forall (fun c => ∀ g, held_graph c = Some g -> versioned g) (w_cycles w).

(** The current graph and the graphs held by the cycles in flight carry
    the bound session id. *)
Definition sessions_agree (w : World) : Prop :=
  graph_session (currentMindmap (w_service w)) = currentSessionId (w_service w) ∧
  Forall (fun c => ∀ g, held_graph c = Some g ->
                        graph_session g = currentSessionId (w_service w))
    (w_cycles w).

(** No session is bound while a cycle holds a graph that it has built and
    not yet committed. *)
Fixpoint binds_outside_saves (rt : Runtime) (ops : list Op) (w : World) : Prop :=
  match ops with
  | [] => True
  | op :: ops' =>
      match op with
      | OpBind _ => Forall (fun c => held_graph c = None) (w_cycles w)
      | _ => True
      end ∧ binds_outside_saves rt ops' (apply_op rt op w)
  end.

(** ** Values to evaluate the rest of the model with *)

Definition ends (e : Edge) : string * string := (e_from e, e_to e).

(** The nodes that [summarizeOlderNodes] keeps and those it collapses. *)
Definition recent_nodes (mindmap : Graph) (maxNodes : Z) : list Node :=
  Js.slice (sort_by_time (nodes mindmap)) (- maxNodes) None.

Definition older_nodes (mindmap : Graph) (maxNodes : Z) : list Node :=
  Js.slice (sort_by_time (nodes mindmap)) 0
    (Some (Z.of_nat (length (sort_by_time (nodes mindmap))) - maxNodes)).

(** The ids that the summary nodes of a graph list, in order. *)
Definition summarized_ids (ns : list Node) : list string :=
  mjoin ((fun s => default [] (n_metadata s ≫= summarizedNodes)) <$> ns).

(** The nodes that [byLevel] holds under the key [l], and the nodes of a
    list whose level (a missing level counting as 1) is [l]. *)
Definition members (l : N) (m : list (N * list Node)) : list Node :=
  mjoin (snd <$> List.filter (fun p => (p.1 =? l)%N) m).

Definition of_level (l : N) (ns : list Node) : list Node :=
  List.filter (fun n => (level_key n =? l)%N) ns.

(** Where [Object.keys] has the key [a] before the key [b]: the keys differ,
    and if [b] is an array index then so is [a], and it is the smaller. *)
Definition key_order (a b : N) : Prop :=
  a ≠ b ∧ (is_array_index b = true -> is_array_index a = true ∧ (a < b)%N).



(** The character [c] does not occur in [s]. *)
Definition lacks (c : ascii) (s : string) : Prop :=
  ¬ In c (list_ascii_of_string s).

(** The answer of the generator in [curiosity_env]. *)
Definition curiosity_answer : Updates :=
  {| u_nodes := [ {| n_id := "node-1"; n_label := "AI Curiosity";
                     n_type := "topic"; n_level := 1; n_color := "#4A90E2";
                     n_size := 20; n_metadata := None;
                     n_expandable := false |} ];
     u_edges := [] |}.

(** Some label among [labels] is similar to [l]. *)
Definition covered (labels : list string) (l : string) : Prop :=
  Exists (fun e => nodesSimilar e l = true) labels.

(** A parser that knows the rendering of one graph. *)
Definition parse_only (rt : Runtime) (g : Graph) (text : string) : Outcome Graph :=
  if bool_decide (text = JSON_stringify rt g) then Returns g
  else Throws "Unexpected token".

(** * Properties *)

(** ** The similarity rule on the labels of the repository's tests *)

Example nodesSimilar_exact : nodesSimilar "Budget" "Budget" = true.
Proof. reflexivity. Qed.
Example nodesSimilar_case : nodesSimilar "Budget" "budget" = true.
Proof. reflexivity. Qed.
Example nodesSimilar_substring : nodesSimilar "Q4 Budget" "Budget" = true.
Proof. reflexivity. Qed.
Example nodesSimilar_overlap :
  nodesSimilar "Budget Review Q4" "Budget Planning Q4" = true.
Proof. vm_compute. reflexivity. Qed.
Example nodesSimilar_different : nodesSimilar "Budget" "Marketing" = false.
Proof. vm_compute. reflexivity. Qed.

(** ** JSON extraction: the greedy match and the brace-counting fallback *)

Lemma str_app_cons (x : ascii) (a b : string) :
  String x a +:+ b = String x (a +:+ b).
Proof. reflexivity. Qed.

Lemma str_app_nil (b : string) : EmptyString +:+ b = b.
Proof. reflexivity. Qed.

Ltac str_norm := rewrite ?str_app_cons, ?str_app_nil; simpl.
Ltac str_norm_in H := rewrite ?str_app_cons, ?str_app_nil in H; simpl in H.

Lemma str_app_assoc (a b c : string) : (a +:+ b) +:+ c = a +:+ (b +:+ c).
Proof.
  induction a as [|x a IH]; [reflexivity|].
  rewrite !str_app_cons. f_equal. exact IH.
Qed.

Lemma upto_last_close_none s c :
  upto_last_close s = None -> In c (list_ascii_of_string s) -> is_close c = false.
Proof.
  induction s as [|d s IH]; simpl; [tauto|].
  destruct (upto_last_close s) eqn:E; [discriminate|].
  destruct (is_close d) eqn:Ed; [discriminate|].
  intros _ [<-|Hin]; [exact Ed|]. apply IH; [reflexivity|exact Hin].
Qed.

Lemma upto_last_close_some s t :
  upto_last_close s = Some t ->
  ∃ rest, s = t +:+ rest ∧ ∃ t', t = t' +:+ "}".
Proof.
  revert t. induction s as [|d s IH]; simpl; intros t; [discriminate|].
  destruct (upto_last_close s) as [u|] eqn:E.
  - intros [= <-]. destruct (IH u eq_refl) as (rest & -> & t' & ->).
    exists rest. split; [reflexivity|]. exists (String d t'). reflexivity.
  - destruct (is_close d) eqn:Ed; [|discriminate].
    intros [= <-]. exists s. split; [reflexivity|]. exists EmptyString.
    unfold is_close in Ed. apply bool_decide_eq_true in Ed. subst d. reflexivity.
Qed.

(** An open count that starts positive stays positive on a text without a
    closing brace, so the scan runs to the end and reports nothing. *)
Lemma brace_scan_no_close s n :
  (∀ c, In c (list_ascii_of_string s) -> is_close c = false) ->
  0 < n -> brace_scan n s = None.
Proof.
  revert n. induction s as [|d s IH]; simpl; intros n Hs Hn.
  - destruct (Z.eqb_spec n 0); [lia|reflexivity].
  - rewrite (Hs d (or_introl eq_refl)).
    destruct (is_open d).
    + destruct (Z.eqb_spec (n + 1) 0); [lia|].
      rewrite IH; [reflexivity| |lia]. intros c Hc. apply Hs. right. exact Hc.
    + destruct (Z.eqb_spec n 0); [lia|].
      rewrite IH; [reflexivity| |lia]. intros c Hc. apply Hs. right. exact Hc.
Qed.

Lemma regex_match_none_fallback s :
  regex_match s = None -> brace_fallback s = None.
Proof.
  unfold brace_fallback.
  induction s as [|d s IH]; simpl; [reflexivity|].
  destruct (is_open d) eqn:Ed.
  - destruct (upto_last_close s) eqn:E; [discriminate|]. intros _.
    simpl. rewrite Ed.
    assert (Hd : is_close d = false).
    { unfold is_open, is_close in *. apply bool_decide_eq_true in Ed. subst d.
      reflexivity. }
    rewrite Hd. simpl.
    rewrite brace_scan_no_close; [reflexivity| |lia].
    intros c Hc. eapply upto_last_close_none; eassumption.
  - exact IH.
Qed.

(** The greedy match fails exactly on the texts that have no closing brace
    after an opening one. *)
Lemma regex_match_none_iff s :
  regex_match s = None ↔ ¬ ∃ a b c, s = a +:+ "{" +:+ b +:+ "}" +:+ c.
Proof.
  induction s as [|d s IH]; simpl.
  - split; [|reflexivity]. intros _ (a & b & c & H).
    destruct a; discriminate.
  - destruct (is_open d) eqn:Ed.
    + unfold is_open in Ed. apply bool_decide_eq_true in Ed. subst d.
      destruct (upto_last_close s) as [t|] eqn:E.
      * split; [discriminate|]. intros H. exfalso. apply H.
        destruct (upto_last_close_some _ _ E) as (rest & -> & t' & ->).
        exists EmptyString, t', rest. rewrite str_app_assoc. reflexivity.
      * rewrite IH. split.
        -- intros Hn (a & b & c & H). destruct a as [|x a]; str_norm_in H.
           ++ injection H as H.
              assert (Hin : In "}"%char (list_ascii_of_string s)).
              { subst s. clear. induction b as [|y b IHb]; str_norm.
                - left; reflexivity.
                - right. exact IHb. }
              pose proof (upto_last_close_none _ _ E Hin) as Hc. discriminate Hc.
           ++ injection H as _ H. apply Hn. exists a, b, c. exact H.
        -- intros Hn (a & b & c & H). apply Hn.
           exists (String "{" a), b, c. str_norm. f_equal. exact H.
    + rewrite IH. split.
      * intros Hn (a & b & c & H). destruct a as [|x a]; str_norm_in H.
        -- injection H as H _. subst d. discriminate Ed.
        -- injection H as _ H. apply Hn. exists a, b, c. exact H.
      * intros Hn (a & b & c & H). apply Hn.
        exists (String d a), b, c. str_norm. f_equal. exact H.
Qed.

(** C10. In the JSON-extraction step the brace-counting fallback never
    yields a result: for every response text, when the greedy match of
    [/\{[\s\S]*\}/] fails the scan from the first opening brace fails too,
    so the two-stage extraction equals the greedy match alone and succeeds
    exactly when the greedy match does. *)
Theorem C10_fallback_never_fires (responseText : string) :
  (regex_match responseText = None -> brace_fallback responseText = None) ∧
  extract_json responseText = regex_match responseText ∧
  (is_Some (extract_json responseText) ↔ is_Some (regex_match responseText)).
Proof.
  assert (H : extract_json responseText = regex_match responseText).
  { unfold extract_json. destruct (regex_match responseText) eqn:E; [reflexivity|].
    apply regex_match_none_fallback. exact E. }
  split; [apply regex_match_none_fallback|]. split; [exact H|]. rewrite H. tauto.
Qed.

(** C10 on an answer cut off inside its first object. *)
Lemma C10_fallback_never_fires_witness :
  regex_match "Here it is: { nodes: [" = None ∧
  brace_fallback "Here it is: { nodes: [" = None.
Proof.
  split; [reflexivity|].
  apply (proj1 (C10_fallback_never_fires "Here it is: { nodes: [")).
  reflexivity.
Defined.

(** ** Similarity and the order of its arguments *)

Lemma common_words_length (words1 words2 : list string) :
  NoDup words1 -> NoDup words2 ->
  length (List.filter (fun w => Js.arr_includes words2 w) words1) =
  length (List.filter (fun w => Js.arr_includes words1 w) words2).
Proof.
  intros H1 H2. apply Permutation_length, NoDup_Permutation.
  - apply NoDup_ListNoDup, List.NoDup_filter, NoDup_ListNoDup, H1.
  - apply NoDup_ListNoDup, List.NoDup_filter, NoDup_ListNoDup, H2.
  - intros w. rewrite !list_elem_of_In, !List.filter_In. unfold Js.arr_includes.
    rewrite !bool_decide_eq_true, !list_elem_of_In. tauto.
Qed.

(** Only repeated words make the rule depend on the order of the labels. *)
Lemma nodesSimilar_sym_nodup (label1 label2 : string) :
  NoDup (Js.split_ws (Js.trim (Js.toLowerCase label1))) ->
  NoDup (Js.split_ws (Js.trim (Js.toLowerCase label2))) ->
  nodesSimilar label1 label2 = nodesSimilar label2 label1.
Proof.
  intros H1 H2. unfold nodesSimilar.
  rewrite (orb_comm (negb (Js.truthy label1))).
  destruct (negb (Js.truthy label2) || negb (Js.truthy label1)); [reflexivity|].
  set (n1 := Js.trim (Js.toLowerCase label1)) in *.
  set (n2 := Js.trim (Js.toLowerCase label2)) in *.
  destruct (decide (n1 = n2)) as [E|E].
  - rewrite !bool_decide_eq_true_2; congruence.
  - rewrite (bool_decide_eq_false_2 (n1 = n2)) by congruence.
    rewrite (bool_decide_eq_false_2 (n2 = n1)) by congruence.
    rewrite (orb_comm (Js.includes n1 n2)).
    destruct (Js.includes n2 n1 || Js.includes n1 n2); [reflexivity|].
    rewrite (common_words_length _ _ H1 H2), Nat.max_comm. reflexivity.
Qed.

(** C5. The claim is that [similar(a, b) = similar(b, a)] for all labels.
    The code counts the common words with their repetitions in the first
    label only: on these two labels the answer depends on the order. *)
Theorem C5_similarity_depends_on_order :
  nodesSimilar "Win Win Deal" "Win The Bid" = true ∧
  nodesSimilar "Win The Bid" "Win Win Deal" = false.
Proof. split; vm_compute; reflexivity. Qed.

(** ** Summarization below the bound *)

(** C6. For every graph whose node count is at most [maxNodes],
    summarization returns the graph itself: nodes, edges and metadata are
    unchanged. *)
Theorem C6_summarize_noop (o : Oracle) (mindmap : Graph) (maxNodes : Z) :
  Z.of_nat (length (nodes mindmap)) <= maxNodes ->
  summarizeOlderNodes o mindmap maxNodes = mindmap.
Proof.
  intros H. unfold summarizeOlderNodes.
  destruct (Z.leb_spec (Z.of_nat (length (nodes mindmap))) maxNodes); [reflexivity|lia].
Qed.

(** C6 on a graph of two nodes and the bound 100. *)
Lemma C6_summarize_noop_witness :
  Z.of_nat (length (nodes sample_graph)) <= 100 ∧
  summarizeOlderNodes (sample_clock 0) sample_graph 100 = sample_graph.
Proof.
  split; [simpl; lia|]. apply (C6_summarize_noop (sample_clock 0) sample_graph 100).
  simpl. lia.
Defined.

(** ** Merging the empty delta *)

(** C7. Merging the delta [{nodes: [], edges: []}] into a graph keeps its
    nodes and its edges, adds 1 to [metadata.version] (an absent version
    counting as 0), sets [metadata.lastUpdated] to the time of the merge and
    keeps the other metadata fields. *)
Theorem C7_merge_empty_delta (o : Oracle) (g : Graph) :
  let merged := mergeMindmapUpdates o g {| u_nodes := []; u_edges := [] |} in
  nodes merged = nodes g ∧
  edges merged = edges g ∧
  metadata merged ≫= version = Some (graph_version g + 1) ∧
  metadata merged ≫= lastUpdated = Some (date_now o 0) ∧
  metadata merged ≫= sessionId = metadata g ≫= sessionId ∧
  metadata merged ≫= totalTranscripts = metadata g ≫= totalTranscripts ∧
  metadata merged ≫= error = metadata g ≫= error.
Proof. repeat split. Qed.

(** ** Transcript lines *)

Lemma format_transcript_time (rt : Runtime) (index : nat) (t : Transcript) (s : Z) :
  start_at t = Some s -> s ≠ 0 -> valid_time (s * 1000) = true ->
  format_transcript rt index t =
  "[" +:+ toLocaleTimeString rt (s * 1000) +:+ "] " +:+
  Js.or_str (t_speaker t) "unknown" +:+ ": " +:+ t_text t.
Proof.
  intros Hs Hz Hv. unfold format_transcript, timestamp_of. rewrite Hs, Hv.
  destruct (Z.eqb_spec s 0); [contradiction|].
  destruct (t_text t); reflexivity.
Qed.

Lemma format_transcript_time_ms (rt : Runtime) (index : nat) (t : Transcript) (s : Z) :
  start_at t = Some s -> valid_time (s * 1000) = false -> valid_time s = true ->
  format_transcript rt index t =
  "[" +:+ toLocaleTimeString rt s +:+ "] " +:+
  Js.or_str (t_speaker t) "unknown" +:+ ": " +:+ t_text t.
Proof.
  intros Hs Hv1 Hv. unfold format_transcript, timestamp_of. rewrite Hs, Hv1, Hv.
  destruct (Z.eqb_spec s 0) as [->|]; [discriminate Hv1|].
  destruct (t_text t); reflexivity.
Qed.

(** Without a usable time the line starts with the index between two
    pairs of brackets: the index is bracketed when [timestamp] is
    initialised and again by the template of the line. *)
Lemma format_transcript_index (rt : Runtime) (index : nat) (t : Transcript) :
  (start_at t = None ∨ start_at t = Some 0 ∨
   ∃ s, start_at t = Some s ∧ valid_time (s * 1000) = false ∧ valid_time s = false) ->
  format_transcript rt index t =
  "[" +:+ ("[" +:+ pretty index +:+ "]") +:+ "] " +:+
  Js.or_str (t_speaker t) "unknown" +:+ ": " +:+ t_text t.
Proof.
  intros H. unfold format_transcript, timestamp_of, index_tag.
  assert (Ht : Js.or_str (t_text t) "" = t_text t) by (destruct (t_text t); reflexivity).
  rewrite Ht.
  destruct H as [-> | [-> | (s & -> & Hv1 & Hv)]]; [reflexivity|reflexivity|].
  rewrite Hv1, Hv. destruct (s =? 0); reflexivity.
Qed.

(** C9. The claim is that a turn without a usable timestamp is formatted
    with the positional index [[n]] as the prefix of the line, in place of
    [[local-time]].  On the first turn [{speaker: 'me', text: 'hi'}], which
    has no [start_at], the code produces the line shown here, whose prefix
    is the index in doubled brackets. *)
Theorem C9_index_prefix_doubled (rt : Runtime) :
  format_transcript rt 0 {| t_speaker := "me"; t_text := "hi"; start_at := None |}
  = "[[0]] me: hi".
Proof. reflexivity. Qed.

(** ** Saving the graph next to the session summary *)

Lemma str_or_kept (stored : option string) (d : string) :
  kept_or_default stored d (str_or stored d).
Proof.
  split.
  - intros s -> Hs. unfold str_or, Js.or_str. simpl. rewrite Hs. reflexivity.
  - intros [-> | ->]; reflexivity.
Qed.

Lemma num_or_kept (stored : option Z) (d : Z) :
  kept_or_default_num stored d (num_or stored d).
Proof.
  split.
  - intros z -> Hz. unfold num_or. destruct (Z.eqb_spec z 0); [contradiction|reflexivity].
  - intros [-> | ->]; reflexivity.
Qed.

(** C8, as stated, fails: a stored record whose [model] is empty is not
    written back verbatim, the save writes ['unknown'] instead; and
    [updated_at], a field other than the graph, is overwritten too. *)
Lemma C8_stored_fields_not_verbatim :
  ∃ args,
    saveMindmap sample_runtime (sample_clock 1700000000000)
      (sample_repository (Some sample_row_no_model)) (Some "test-session")
      sample_graph = Returns args ∧
    Some (a_model args) ≠ r_model sample_row_no_model ∧
    Some (a_updated_at args) ≠ r_updated_at sample_row_no_model.
Proof. eexists. split; [reflexivity|]. split; discriminate. Qed.

(** C8, amended. The save is a read-modify-write.  With a bound session
    and a repository that answers, it writes one record: the graph as the
    string [JSON.stringify] gives, [updated_at] set to the current time in
    seconds, and, when a record is stored, each of [text], [tldr],
    [bullet_json], [action_json], [model] and [generated_at] as stored if
    that value is truthy and as the default of a new record otherwise
    (the empty string, ['unknown'] for [model], the current time for
    [generated_at]); with no stored record, those defaults throughout. *)
Theorem C8_save_read_modify_write (rt : Runtime) (o : Oracle) (repo : Repository)
  (session : string) (stored : option SummaryRow) (mindmap : Graph) :
  Js.truthy session = true ->
  stored_summary repo = Returns stored ->
  write_result repo = Returns tt ->
  let now := date_now o 0 / 1000 in
  ∃ args,
    saveMindmap rt o repo (Some session) mindmap = Returns args ∧
    a_sessionId args = session ∧
    a_mindmap_json args = JSON_stringify rt mindmap ∧
    a_updated_at args = now ∧
    match stored with
    | Some ex =>
        kept_or_default (r_text ex) "" (a_text args) ∧
        kept_or_default (r_tldr ex) "" (a_tldr args) ∧
        kept_or_default (r_bullet_json ex) "" (a_bullet_json args) ∧
        kept_or_default (r_action_json ex) "" (a_action_json args) ∧
        kept_or_default (r_model ex) "unknown" (a_model args) ∧
        kept_or_default_num (r_generated_at ex) now (a_generated_at args)
    | None =>
        a_text args = "" ∧ a_tldr args = "" ∧ a_bullet_json args = "" ∧
        a_action_json args = "" ∧ a_model args = "unknown" ∧
        a_generated_at args = now
    end.
Proof.
  intros Hs Hr Hw now. unfold saveMindmap. rewrite Hr, Hw.
  destruct session as [|c session]; [discriminate Hs|].
  eexists. split; [reflexivity|].
  destruct stored as [ex|]; simpl.
  - repeat split; try apply str_or_kept; apply num_or_kept.
  - repeat split.
Qed.

(** C8 on the stored record of the repository's test. *)
Lemma C8_save_read_modify_write_witness :
  ∃ args,
    saveMindmap sample_runtime (sample_clock 1700000000000)
      (sample_repository (Some sample_row)) (Some "test-session")
      sample_graph = Returns args ∧
    a_text args = "Existing summary" ∧ a_model args = "gpt-4" ∧
    a_generated_at args = 1234567890 ∧ a_updated_at args = 1700000000.
Proof.
  destruct (C8_save_read_modify_write sample_runtime (sample_clock 1700000000000)
              (sample_repository (Some sample_row)) "test-session"
              (Some sample_row) sample_graph eq_refl eq_refl eq_refl)
    as (args & Hsave & _ & _ & Hupd & Htext & _ & _ & _ & Hmodel & Hgen).
  exists args. split; [exact Hsave|].
  split; [exact (proj1 Htext _ eq_refl eq_refl)|].
  split; [exact (proj1 Hmodel _ eq_refl eq_refl)|].
  split; [apply (proj1 Hgen _ eq_refl); discriminate|exact Hupd].
Defined.

(** ** Merge: the loops of the code take the steps of the specification *)

Lemma with_node_id_same (n : Node) : with_node_id n (n_id n) = n.
Proof. destruct n; reflexivity. Qed.

Lemma with_node_id_back (n : Node) (i : string) :
  with_node_id (with_node_id n i) (n_id n) = n.
Proof. destruct n; reflexivity. Qed.









Lemma merge_nodes_eq (o : Oracle) (g : Graph) (u : Updates) :
  nodes (mergeMindmapUpdates o g u) =
  (fold_left (merge_node o) (u_nodes u) (nodes g, 0%nat)).1.
Proof.
  unfold mergeMindmapUpdates.
  destruct (fold_left (merge_node o) (u_nodes u) (nodes g, 0%nat)) as [ns k].
  destruct (fold_left (merge_edge o) (u_edges u) (edges g, k)) as [es k'].
  reflexivity.
Qed.

Lemma merge_edges_eq (o : Oracle) (g : Graph) (u : Updates) :
  edges (mergeMindmapUpdates o g u) =
  (fold_left (merge_edge o) (u_edges u)
     (edges g, (fold_left (merge_node o) (u_nodes u) (nodes g, 0%nat)).2)).1.
Proof.
  unfold mergeMindmapUpdates.
  destruct (fold_left (merge_node o) (u_nodes u) (nodes g, 0%nat)) as [ns k].
  simpl.
  destruct (fold_left (merge_edge o) (u_edges u) (edges g, k)) as [es k'].
  reflexivity.
Qed.

(** The tests of the repository on [mergeMindmapUpdates]. *)
Example merge_unions_indices :
  let existing :=
    {| nodes := [ {| n_id := "node-1"; n_label := "Budget"; n_type := EmptyString;
                     n_level := 1; n_color := EmptyString; n_size := 0;
                     n_metadata := Some (mkNodeMeta None None (Some [1]) None);
                     n_expandable := false |} ];
       edges := []; metadata := Some (mkGraphMeta None None (Some 1) None None) |} in
  let updates :=
    {| u_nodes := [ {| n_id := "node-2"; n_label := "Q4 Budget"; n_type := EmptyString;
                       n_level := 1; n_color := EmptyString; n_size := 0;
                       n_metadata := Some (mkNodeMeta None None (Some [2]) None);
                       n_expandable := false |} ];
       u_edges := [] |} in
  let merged := mergeMindmapUpdates (sample_clock 1000) existing updates in
  (n_id <$> nodes merged) = ["node-1"] ∧ (indices_of <$> nodes merged) = [[1; 2]] ∧
  graph_version merged = 2.
Proof. vm_compute. repeat split. Qed.

(** The same ends with another type are not appended; the reversed ends
    are. *)
Example merge_edges_by_ends :
  let existing :=
    {| nodes := [plain_node "node-1" "Topic 1"; plain_node "node-2" "Topic 2"];
       edges := [plain_edge "edge-1" "node-1" "node-2"]; metadata := None |} in
  let same := {| e_id := "edge-2"; e_from := "node-1"; e_to := "node-2";
                 e_type := "related"; e_color := EmptyString |} in
  let reversed := plain_edge "edge-3" "node-2" "node-1" in
  edges (mergeMindmapUpdates (sample_clock 1000) existing
           {| u_nodes := []; u_edges := [same; reversed] |})
  = [plain_edge "edge-1" "node-1" "node-2"; reversed].
Proof. vm_compute. reflexivity. Qed.

(** A node that comes without an id receives a generated one. *)
Example merge_generates_id :
  (n_id <$> nodes (mergeMindmapUpdates (sample_clock 1000) budget_graph
                     {| u_nodes := [plain_node EmptyString "Sales"]; u_edges := [] |}))
  = ["n1"; "node-1001-r0"].
Proof. vm_compute. reflexivity. Qed.


(** ** Dangling edges *)

Lemma sort_insert_elem (x y : Node) (l : list Node) :
  y ∈ sort_insert x l ↔ y = x ∨ y ∈ l.
Proof.
  induction l as [|z l IH]; simpl.
  - rewrite list_elem_of_singleton, elem_of_nil. tauto.
  - destruct (mention_time x <=? mention_time z).
    + rewrite elem_of_cons. tauto.
    + rewrite !elem_of_cons, IH. tauto.
Qed.

Lemma sort_by_time_elem (y : Node) (l : list Node) :
  y ∈ sort_by_time l ↔ y ∈ l.
Proof.
  induction l as [|x l IH]; simpl; [tauto|].
  rewrite sort_insert_elem, elem_of_cons, IH. tauto.
Qed.

Lemma sort_insert_length (x : Node) (l : list Node) :
  length (sort_insert x l) = S (length l).
Proof.
  induction l as [|z l IH]; simpl; [reflexivity|].
  destruct (mention_time x <=? mention_time z); simpl; [reflexivity|].
  rewrite IH. reflexivity.
Qed.

Lemma sort_by_time_length (l : list Node) :
  length (sort_by_time l) = length l.
Proof.
  induction l as [|x l IH]; simpl; [reflexivity|].
  rewrite sort_insert_length, IH. reflexivity.
Qed.

(** Above the bound, every node is among the older ones or the recent
    ones, whatever the sign of [maxNodes]. *)
Lemma older_or_recent {A} (l : list A) (maxNodes : Z) (x : A) :
  maxNodes < Z.of_nat (length l) -> x ∈ l ->
  x ∈ Js.slice l 0 (Some (Z.of_nat (length l) - maxNodes)) ∨
  x ∈ Js.slice l (- maxNodes) None.
Proof.
  intros Hlen Hx. unfold Js.slice.
  set (k := Js.rel_index (Z.of_nat (length l)) (- maxNodes)).
  set (e := Js.rel_index (Z.of_nat (length l)) (Z.of_nat (length l) - maxNodes)).
  assert (H0 : Js.rel_index (Z.of_nat (length l)) 0 = 0%nat).
  { unfold Js.rel_index. simpl. lia. }
  rewrite H0, Nat.sub_0_r. simpl.
  assert (Hke : (k <= e)%nat).
  { unfold k, e, Js.rel_index.
    destruct (Z.ltb_spec (- maxNodes) 0);
      destruct (Z.ltb_spec (Z.of_nat (length l) - maxNodes) 0); lia. }
  assert (Hk : (k <= length l)%nat).
  { unfold k, Js.rel_index. destruct (Z.ltb_spec (- maxNodes) 0); lia. }
  rewrite (take_ge (drop k l)) by (rewrite length_drop; lia).
  rewrite <- (take_drop k l) in Hx. apply elem_of_app in Hx as [Hx|Hx].
  - left. apply list_elem_of_lookup in Hx as (j & Hj).
    apply lookup_take_Some in Hj as (Hj & Hlt).
    apply list_elem_of_lookup. exists j. rewrite lookup_take_lt by lia. exact Hj.
  - right. exact Hx.
Qed.

Lemma id_of_elem (ns : list Node) (n : Node) : n ∈ ns -> n_id n ∈ (n_id <$> ns).
Proof. intros H. apply list_elem_of_fmap. exists n. split; [reflexivity|exact H]. Qed.

(** An edge that survives the rewrite has each end either moved to the
    id of a summary node or left on an id that is not an old one. *)
Lemma update_edge_ends (oldNodeIds : list string) (summaryNodes : list Node)
  (edge edge' : Edge) :
  update_edge oldNodeIds summaryNodes edge = Some edge' ->
  (e_from edge' ∈ (n_id <$> summaryNodes) ∨
   e_from edge' = e_from edge ∧ e_from edge ∉ oldNodeIds) ∧
  (e_to edge' ∈ (n_id <$> summaryNodes) ∨
   e_to edge' = e_to edge ∧ e_to edge ∉ oldNodeIds).
Proof.
  unfold update_edge.
  destruct (decide (e_from edge ∈ oldNodeIds)) as [Hf|Hf];
    destruct (decide (e_to edge ∈ oldNodeIds)) as [Ht|Ht].
  - rewrite !bool_decide_eq_true_2 by assumption. discriminate.
  - rewrite bool_decide_eq_true_2, bool_decide_eq_false_2 by assumption. simpl.
    destruct (list_find _ summaryNodes) as [[i sn]|] eqn:E; [|discriminate].
    intros [= <-]. simpl. apply list_find_Some in E as (Hl & _ & _).
    split; [left|right; tauto].
    apply id_of_elem, list_elem_of_lookup. exists i. exact Hl.
  - rewrite bool_decide_eq_false_2, bool_decide_eq_true_2 by assumption. simpl.
    destruct (list_find _ summaryNodes) as [[i sn]|] eqn:E; [|discriminate].
    intros [= <-]. simpl. apply list_find_Some in E as (Hl & _ & _).
    split; [right; tauto|left].
    apply id_of_elem, list_elem_of_lookup. exists i. exact Hl.
  - rewrite !bool_decide_eq_false_2 by assumption. simpl.
    intros [= <-]. tauto.
Qed.

Lemma updateEdges_ends (es : list Edge) (oldNodes summaryNodes : list Node)
  (edge' : Edge) :
  edge' ∈ updateEdgesForSummaries es oldNodes summaryNodes ->
  ∃ edge, edge ∈ es ∧
    (e_from edge' ∈ (n_id <$> summaryNodes) ∨
     e_from edge' = e_from edge ∧ e_from edge ∉ (n_id <$> oldNodes)) ∧
    (e_to edge' ∈ (n_id <$> summaryNodes) ∨
     e_to edge' = e_to edge ∧ e_to edge ∉ (n_id <$> oldNodes)).
Proof.
  unfold updateEdgesForSummaries. intros H.
  apply list_elem_of_omap in H as (edge & Hin & Hu).
  exists edge. split; [exact Hin|]. eapply update_edge_ends. exact Hu.
Qed.

Lemma summarize_no_dangling (o : Oracle) (g : Graph) (maxNodes : Z) :
  no_dangling g -> no_dangling (summarizeOlderNodes o g maxNodes).
Proof.
  intros Hg. unfold summarizeOlderNodes.
  destruct (Z.leb_spec (Z.of_nat (length (nodes g))) maxNodes) as [|Hlt]; [exact Hg|].
  unfold no_dangling. simpl.
  set (sorted := sort_by_time (nodes g)).
  set (recent := Js.slice sorted (- maxNodes) None).
  set (older := Js.slice sorted 0 (Some (Z.of_nat (length sorted) - maxNodes))).
  set (summ := createSummaryNodes o older).
  assert (Hres : ∀ id, id ∈ (n_id <$> nodes g) -> id ∉ (n_id <$> older) ->
                       id ∈ (n_id <$> recent ++ summ)).
  { intros id Hid Hnot. apply list_elem_of_fmap in Hid as (n & -> & Hn).
    apply sort_by_time_elem in Hn.
    destruct (older_or_recent sorted maxNodes n) as [Ho|Hr].
    - unfold sorted. rewrite sort_by_time_length. exact Hlt.
    - exact Hn.
    - exfalso. apply Hnot. apply id_of_elem. exact Ho.
    - rewrite fmap_app. apply elem_of_app. left. apply id_of_elem. exact Hr. }
  apply Forall_forall. intros edge' Hin.
  apply updateEdges_ends in Hin as (edge & Hedge & Hfrom & Hto).
  unfold no_dangling in Hg. rewrite Forall_forall in Hg.
  destruct (Hg edge Hedge) as [Hf Ht].
  assert (Hs : ∀ id, id ∈ (n_id <$> summ) -> id ∈ (n_id <$> recent ++ summ)).
  { intros id Hid. rewrite fmap_app. apply elem_of_app. right. exact Hid. }
  split.
  - destruct Hfrom as [H|[-> H]]; [apply Hs, H|apply Hres; assumption].
  - destruct Hto as [H|[-> H]]; [apply Hs, H|apply Hres; assumption].
Qed.

Lemma fold_left_step {A B} (f : A -> B -> A) (x : B) (l : list B) (a : A) :
  fold_left f (x :: l) a = fold_left f l (f a x).
Proof. reflexivity. Qed.

(** *** The sort is a stable sort by time of first mention *)

Lemma sort_insert_perm (x : Node) (l : list Node) : sort_insert x l ≡ₚ x :: l.
Proof.
  induction l as [|y l IH]; simpl; [reflexivity|].
  destruct (mention_time x <=? mention_time y); [reflexivity|].
  rewrite IH. apply Permutation_swap.
Qed.

Lemma sort_by_time_perm (l : list Node) : sort_by_time l ≡ₚ l.
Proof.
  induction l as [|x l IH]; simpl; [reflexivity|].
  rewrite sort_insert_perm, IH. reflexivity.
Qed.

Lemma sort_insert_sorted (x : Node) (l : list Node) :
  StronglySorted time_le l -> StronglySorted time_le (sort_insert x l).
Proof.
  induction l as [|y l IH]; simpl; intros Hs.
  - repeat constructor.
  - apply StronglySorted_inv in Hs as [Hs Hy].
    destruct (Z.leb_spec (mention_time x) (mention_time y)) as [Hle|Hlt].
    + constructor; [constructor; assumption|].
      constructor; [exact Hle|].
      eapply Forall_impl; [exact Hy|]. intros z Hz. unfold time_le in *. lia.
    + constructor; [apply IH; exact Hs|].
      apply Forall_forall. intros z Hz. apply sort_insert_elem in Hz as [->|Hz].
      * unfold time_le. lia.
      * rewrite Forall_forall in Hy. apply Hy. exact Hz.
Qed.

Lemma sort_by_time_sorted (l : list Node) : StronglySorted time_le (sort_by_time l).
Proof.
  induction l as [|x l IH]; simpl; [constructor|].
  apply sort_insert_sorted. exact IH.
Qed.

(** Nodes first mentioned at the same time keep their order. *)
Lemma sort_insert_stable (t : Z) (x : Node) (l : list Node) :
  List.filter (fun n => mention_time n =? t) (sort_insert x l) =
  List.filter (fun n => mention_time n =? t) (x :: l).
Proof.
  induction l as [|y l IH]; [reflexivity|].
  cbn [sort_insert].
  destruct (Z.leb_spec (mention_time x) (mention_time y)) as [Hle|Hlt]; [reflexivity|].
  cbn [List.filter] in *. rewrite IH.
  destruct (Z.eqb_spec (mention_time x) t), (Z.eqb_spec (mention_time y) t);
    try reflexivity.
  lia.
Qed.

Lemma sort_by_time_stable (t : Z) (l : list Node) :
  List.filter (fun n => mention_time n =? t) (sort_by_time l) =
  List.filter (fun n => mention_time n =? t) l.
Proof.
  induction l as [|x l IH]; [reflexivity|].
  cbn [sort_by_time]. rewrite sort_insert_stable. cbn [List.filter].
  rewrite IH. reflexivity.
Qed.

(** *** Every collapsed node is listed by a summary node *)

Lemma byLevel_push_new (level : N) (node : Node) (m : list (N * list Node)) :
  ∃ g, (level, g) ∈ byLevel_push level node m ∧ node ∈ g.
Proof.
  induction m as [|[l g] m IH]; simpl.
  - exists [node]. split; apply list_elem_of_singleton; reflexivity.
  - destruct (N.eqb_spec level l) as [->|Hne].
    + exists (g ++ [node]). split; [apply elem_of_cons; left; reflexivity|].
      apply elem_of_app. right. apply list_elem_of_singleton. reflexivity.
    + destruct (is_array_index level && _).
      * exists [node]. split; [apply elem_of_cons; left; reflexivity|].
        apply list_elem_of_singleton. reflexivity.
      * destruct IH as (g' & Hin & Hn). exists g'.
        split; [apply elem_of_cons; right; exact Hin|exact Hn].
Qed.

Lemma byLevel_push_old (level : N) (node x : Node) (m : list (N * list Node))
  (l : N) (g : list Node) :
  (l, g) ∈ m -> x ∈ g ->
  ∃ g', (l, g') ∈ byLevel_push level node m ∧ x ∈ g'.
Proof.
  induction m as [|[l0 g0] m IH]; simpl; intros Hin Hx.
  - apply elem_of_nil in Hin. contradiction.
  - apply elem_of_cons in Hin as [[= -> ->]|Hin].
    + destruct (N.eqb_spec level l0) as [->|Hne].
      * exists (g0 ++ [node]). split; [apply elem_of_cons; left; reflexivity|].
        apply elem_of_app. left. exact Hx.
      * destruct (is_array_index level && _); exists g0; (split; [|exact Hx]).
        -- apply elem_of_cons; right. apply elem_of_cons; left; reflexivity.
        -- apply elem_of_cons; left; reflexivity.
    + destruct (N.eqb_spec level l0) as [->|Hne].
      * exists g. split; [apply elem_of_cons; right; exact Hin|exact Hx].
      * destruct (is_array_index level && _).
        -- exists g. split; [|exact Hx].
           apply elem_of_cons; right. apply elem_of_cons; right. exact Hin.
        -- destruct (IH Hin Hx) as (g' & Hin' & Hx'). exists g'.
           split; [apply elem_of_cons; right; exact Hin'|exact Hx'].
Qed.

Lemma group_by_level_covers (olderNodes : list Node) (x : Node) :
  x ∈ olderNodes -> ∃ l g, (l, g) ∈ group_by_level olderNodes ∧ x ∈ g.
Proof.
  unfold group_by_level.
  assert (H : ∀ m, (x ∈ olderNodes ∨ ∃ l g, (l, g) ∈ m ∧ x ∈ g) ->
    ∃ l g, (l, g) ∈ fold_left (fun m node => byLevel_push (level_key node) node m)
                        olderNodes m ∧ x ∈ g).
  { induction olderNodes as [|y ys IH]; intros m Hx.
    - destruct Hx as [Hx|Hx]; [apply elem_of_nil in Hx; contradiction|exact Hx].
    - rewrite fold_left_step. apply IH.
      destruct Hx as [Hx|(l & g & Hin & Hg)].
      + apply elem_of_cons in Hx as [->|Hx]; [|left; exact Hx].
        right. exists (level_key y). apply byLevel_push_new.
      + right. exists l. eapply byLevel_push_old; eassumption. }
  intros Hx. apply H. left. exact Hx.
Qed.

Lemma summaries_of_covers (o : Oracle) (k : nat) (m : list (N * list Node))
  (l : N) (g : list Node) (x : Node) :
  (l, g) ∈ m -> x ∈ g ->
  ∃ s, s ∈ summaries_of o k m ∧
       n_metadata s ≫= summarizedNodes = Some (n_id <$> g).
Proof.
  revert k. induction m as [|[l0 g0] m IH]; intros k Hin Hx; simpl.
  - apply elem_of_nil in Hin. contradiction.
  - apply elem_of_cons in Hin as [[= -> ->]|Hin].
    + destruct g0 as [|y g0]; [apply elem_of_nil in Hx; contradiction|].
      simpl. eexists. split; [apply elem_of_cons; left; reflexivity|reflexivity].
    + destruct (0 <? length g0)%nat.
      * destruct (IH (S k) Hin Hx) as (s & Hs & Hm). exists s.
        split; [apply elem_of_cons; right; exact Hs|exact Hm].
      * apply IH; assumption.
Qed.

Lemma old_id_summarized (o : Oracle) (olderNodes : list Node) (id : string) :
  id ∈ (n_id <$> olderNodes) ->
  ∃ s, s ∈ createSummaryNodes o olderNodes ∧ summarizes id s.
Proof.
  intros Hid. apply list_elem_of_fmap in Hid as (x & -> & Hx).
  destruct (group_by_level_covers olderNodes x Hx) as (l & g & Hin & Hg).
  destruct (summaries_of_covers o 0 _ l g x Hin Hg) as (s & Hs & Hm).
  exists s. split; [exact Hs|]. unfold summarizes. rewrite Hm.
  apply id_of_elem. exact Hg.
Qed.

(** With the summary nodes of [createSummaryNodes], an edge with exactly
    one collapsed end is redirected, not dropped. *)
Lemma one_old_end_redirected (o : Oracle) (olderNodes : list Node) (edge : Edge) :
  let oldNodeIds := n_id <$> olderNodes in
  let summaryNodes := createSummaryNodes o olderNodes in
  (e_from edge ∈ oldNodeIds -> e_to edge ∉ oldNodeIds ->
   ∃ s, s ∈ summaryNodes ∧ summarizes (e_from edge) s ∧
        update_edge oldNodeIds summaryNodes edge = Some (with_from edge (n_id s))) ∧
  (e_from edge ∉ oldNodeIds -> e_to edge ∈ oldNodeIds ->
   ∃ s, s ∈ summaryNodes ∧ summarizes (e_to edge) s ∧
        update_edge oldNodeIds summaryNodes edge = Some (with_to edge (n_id s))).
Proof.
  intros oldNodeIds summaryNodes. unfold update_edge. split; intros Hf Ht.
  - rewrite (bool_decide_eq_true_2 _ Hf), (bool_decide_eq_false_2 _ Ht). simpl.
    destruct (old_id_summarized o olderNodes _ Hf) as (s0 & Hs0 & Hsum0).
    destruct (list_find_elem_of (summarizes (e_from edge)) summaryNodes s0 Hs0 Hsum0)
      as [[i s] E].
    fold summaryNodes. rewrite E. exists s.
    apply list_find_Some in E as (Hl & HP & _).
    split; [apply list_elem_of_lookup; exists i; exact Hl|]. split; [exact HP|reflexivity].
  - rewrite (bool_decide_eq_false_2 _ Hf), (bool_decide_eq_true_2 _ Ht). simpl.
    destruct (old_id_summarized o olderNodes _ Ht) as (s0 & Hs0 & Hsum0).
    destruct (list_find_elem_of (summarizes (e_to edge)) summaryNodes s0 Hs0 Hsum0)
      as [[i s] E].
    fold summaryNodes. rewrite E. exists s.
    apply list_find_Some in E as (Hl & HP & _).
    split; [apply list_elem_of_lookup; exists i; exact Hl|]. split; [exact HP|reflexivity].
Qed.

(** The node loop never removes a node and never changes an id. *)
Lemma merge_node_ids (o : Oracle) (ns : list Node) (k : nat) (incoming : Node)
  (id : string) :
  id ∈ (n_id <$> ns) -> id ∈ (n_id <$> (merge_node o (ns, k) incoming).1).
Proof.
  intros Hid. unfold merge_node.
  destruct (list_find (similar_to incoming) ns) as [[i existing]|] eqn:Hf.
  - destruct (n_metadata incoming ≫= transcriptIndices) as [idx|]; simpl; [|exact Hid].
    apply list_find_Some in Hf as (Hl & _ & _).
    rewrite list_fmap_insert. simpl.
    rewrite list_insert_id; [exact Hid|]. rewrite list_lookup_fmap, Hl. reflexivity.
  - destruct (Js.truthy (n_id incoming)); simpl;
      rewrite fmap_app; apply elem_of_app; left; exact Hid.
Qed.

Lemma merge_nodes_ids (o : Oracle) (items ns : list Node) (k : nat) (id : string) :
  id ∈ (n_id <$> ns) ->
  id ∈ (n_id <$> (fold_left (merge_node o) items (ns, k)).1).
Proof.
  revert ns k. induction items as [|x items IH]; intros ns k Hid; [exact Hid|].
  rewrite fold_left_step.
  pose proof (merge_node_ids o ns k x id Hid) as H.
  destruct (merge_node o (ns, k) x) as [ns1 k1]. apply IH. exact H.
Qed.

(** The edge loop keeps the edges present and only adds incoming edges,
    with their ends as they came. *)
Lemma merge_edge_origin (o : Oracle) (es : list Edge) (k : nat) (x e : Edge) :
  e ∈ (merge_edge o (es, k) x).1 ->
  e ∈ es ∨ e_from e = e_from x ∧ e_to e = e_to x.
Proof.
  unfold merge_edge.
  destruct (list_find (same_ends x) es) as [[i found]|]; [left; assumption|].
  destruct (Js.truthy (e_id x)); simpl; intros H;
    apply elem_of_app in H as [H|H]; try (left; exact H);
    apply list_elem_of_singleton in H; subst e; right; split; reflexivity.
Qed.

Lemma merge_edge_keeps (o : Oracle) (es : list Edge) (k : nat) (x e : Edge) :
  e ∈ es -> e ∈ (merge_edge o (es, k) x).1.
Proof.
  intros He. unfold merge_edge.
  destruct (list_find (same_ends x) es) as [[i found]|]; [exact He|].
  destruct (Js.truthy (e_id x)); simpl; apply elem_of_app; left; exact He.
Qed.

Lemma merge_edges_origin (o : Oracle) (items es : list Edge) (k : nat) (e : Edge) :
  e ∈ (fold_left (merge_edge o) items (es, k)).1 ->
  e ∈ es ∨ ∃ incoming, incoming ∈ items ∧
                       e_from e = e_from incoming ∧ e_to e = e_to incoming.
Proof.
  revert es k. induction items as [|x items IH]; intros es k; [left; assumption|].
  rewrite fold_left_step. intros H.
  pose proof (merge_edge_origin o es k x e) as Hx.
  destruct (merge_edge o (es, k) x) as [es1 k1].
  apply IH in H as [H|(inc & Hinc & Hends)].
  - destruct (Hx H) as [H'|H']; [left; exact H'|].
    right. exists x. split; [apply elem_of_cons; left; reflexivity|exact H'].
  - right. exists inc. split; [apply elem_of_cons; right; exact Hinc|exact Hends].
Qed.

Lemma merge_keeps_edges (o : Oracle) (items es : list Edge) (k : nat) (e : Edge) :
  e ∈ es -> e ∈ (fold_left (merge_edge o) items (es, k)).1.
Proof.
  revert es k. induction items as [|x items IH]; intros es k He; [exact He|].
  rewrite fold_left_step.
  pose proof (merge_edge_keeps o es k x e He) as H.
  destruct (merge_edge o (es, k) x) as [es1 k1]. apply IH. exact H.
Qed.

Lemma merge_no_dangling (o : Oracle) (g : Graph) (u : Updates) :
  no_dangling g ->
  Forall (resolved_in (nodes (mergeMindmapUpdates o g u))) (u_edges u) ->
  no_dangling (mergeMindmapUpdates o g u).
Proof.
  intros Hg Hu. unfold no_dangling. apply Forall_forall. intros e He.
  rewrite merge_edges_eq in He. apply merge_edges_origin in He.
  destruct He as [He|(inc & Hinc & Hf & Ht)].
  - unfold no_dangling in Hg. rewrite Forall_forall in Hg.
    destruct (Hg e He) as [H1 H2]. unfold resolved_in. rewrite merge_nodes_eq.
    split; apply merge_nodes_ids; assumption.
  - rewrite Forall_forall in Hu. destruct (Hu inc Hinc) as [H1 H2].
    unfold resolved_in. rewrite Hf, Ht. split; assumption.
Qed.

Lemma merge_old_edges_resolved (o : Oracle) (g : Graph) (u : Updates) :
  no_dangling g ->
  Forall (resolved_in (nodes (mergeMindmapUpdates o g u))) (edges g).
Proof.
  intros Hg. unfold no_dangling in Hg. eapply Forall_impl; [exact Hg|].
  intros e [H1 H2]. unfold resolved_in. rewrite merge_nodes_eq.
  split; apply merge_nodes_ids; assumption.
Qed.

(** C1, as stated, fails for the merge: the graph with the one node
    'Budget' has unique ids and no edge; the delta brings the nodes
    'Q4 Budget' (n2) and 'Sales' (n3) and the edge from n3 to n2.  Node n2
    is merged into the similar 'Budget', and the edge is appended as it
    came, pointing at n2, which the result does not have. *)
Lemma C1_merge_leaves_dangling_edge :
  no_dangling budget_graph ∧ unique_ids budget_graph ∧
  ¬ no_dangling (mergeMindmapUpdates (sample_clock 1000) budget_graph q4_sales_delta).
Proof.
  split; [constructor|]. split.
  - unfold unique_ids. compute_done.
  - compute_done.
Qed.

(** C1, amended. Summarization keeps a graph free of dangling edges: if
    every edge of the input references nodes of the input, every edge of
    the result references nodes of the result; an edge that survives the
    rewrite has each end either redirected to a summary node or left on an
    id that was not collapsed, so an edge whose collapsed end finds no
    summary node is dropped.  The merge never removes or renames a node,
    so the edges of the existing graph stay resolved; it appends the
    edges of the delta without looking at their ends, and its result is
    free of dangling edges when each of them references nodes of the merged
    node list. *)
Theorem C1_no_dangling_edges :
  (∀ o g maxNodes,
     no_dangling g -> no_dangling (summarizeOlderNodes o g maxNodes)) ∧
  (∀ es oldNodes summaryNodes edge',
     edge' ∈ updateEdgesForSummaries es oldNodes summaryNodes ->
     (e_from edge' ∈ (n_id <$> summaryNodes) ∨ e_from edge' ∉ (n_id <$> oldNodes)) ∧
     (e_to edge' ∈ (n_id <$> summaryNodes) ∨ e_to edge' ∉ (n_id <$> oldNodes))) ∧
  (∀ o g u,
     no_dangling g ->
     Forall (resolved_in (nodes (mergeMindmapUpdates o g u))) (edges g)) ∧
  (∀ o g u,
     no_dangling g ->
     Forall (resolved_in (nodes (mergeMindmapUpdates o g u))) (u_edges u) ->
     no_dangling (mergeMindmapUpdates o g u)).
Proof.
  split; [exact summarize_no_dangling|]. split; [|split].
  - intros es oldNodes summaryNodes edge' H.
    apply updateEdges_ends in H as (edge & _ & Hf & Ht).
    split.
    + destruct Hf as [Hf|[-> Hf]]; [left|right]; exact Hf.
    + destruct Ht as [Ht|[-> Ht]]; [left|right]; exact Ht.
  - exact merge_old_edges_resolved.
  - exact merge_no_dangling.
Qed.

(** C1 on the triangle: summarized to two nodes, and merged with a delta
    whose edge joins a node of the graph and the node it brings. *)
Lemma C1_no_dangling_edges_witness :
  no_dangling triangle_graph ∧
  no_dangling (summarizeOlderNodes (sample_clock 1000) triangle_graph 2) ∧
  no_dangling (mergeMindmapUpdates (sample_clock 1000) triangle_graph
                 {| u_nodes := [plain_node "d" "Delta"];
                    u_edges := [plain_edge "e4" "a" "d"] |}).
Proof.
  assert (H : no_dangling triangle_graph).
  { compute_done. }
  split; [exact H|]. split.
  - apply (proj1 C1_no_dangling_edges (sample_clock 1000) triangle_graph 2 H).
  - apply (proj2 (proj2 (proj2 C1_no_dangling_edges))); [exact H|].
    compute_done.
Defined.

(** ** The update cycle: versions and failures *)

Lemma summarize_metadata (o : Oracle) (g : Graph) (maxNodes : Z) :
  metadata (summarizeOlderNodes o g maxNodes) = metadata g.
Proof.
  unfold summarizeOlderNodes.
  destruct (Z.of_nat (length (nodes g)) <=? maxNodes); reflexivity.
Qed.

Lemma on_error_keeps (o : Oracle) (s : Service) (message : string) :
  nodes (currentMindmap s) ≠ [] -> (on_error o s message).1 = s.
Proof.
  intros H. unfold on_error. destruct (nodes (currentMindmap s)); [contradiction|reflexivity].
Qed.

Lemma on_error_replaces (o : Oracle) (s : Service) (message : string) :
  nodes (currentMindmap s) = [] ->
  currentMindmap (on_error o s message).1 =
  {| nodes := []; edges := [];
     metadata := Some {| sessionId := currentSessionId s;
                         lastUpdated := Some (date_now o 0);
                         version := Some 0;
                         totalTranscripts := Some 0;
                         error := Some message |} |}.
Proof. intros H. unfold on_error. rewrite H. reflexivity. Qed.

(** The three ways a cycle ends. *)
Lemma updateMindmap_cases (rt : Runtime) (env : CycleEnv) (s : Service) :
  (updateMindmap rt env s = (s, []) ∧
   cycle_kind (updateMindmap rt env s).2 = Skipped) ∨
  (∃ o message, updateMindmap rt env s = on_error o s message ∧
   cycle_kind (updateMindmap rt env s).2 = Failed) ∨
  (cycle_kind (updateMindmap rt env s).2 = Succeeded ∧
   ∃ (mindmapData : Updates) (allTranscripts : list Transcript),
     currentMindmap (updateMindmap rt env s).1 =
     summarizeOlderNodes (summarize_clock env)
       {| nodes := u_nodes mindmapData;
          edges := u_edges mindmapData;
          metadata :=
            Some {| sessionId := currentSessionId s;
                    lastUpdated := Some (date_now (clock env) 0);
                    version := Some (graph_version (currentMindmap s) + 1);
                    totalTranscripts := Some (Z.of_nat (length allTranscripts));
                    error := None |} |} 200).
Proof.
  unfold updateMindmap.
  destruct (no_session s); [left; split; reflexivity|].
  destruct (all_transcripts env) as [[|t ts]|msg].
  - left; split; reflexivity.
  - destruct (generate_with_retries (generate env) 0 3 None) as [[data|] lastError].
    + destruct (saveMindmap _ _ _ _ _) as [args|msg].
      * right; right. split; [reflexivity|]. exists data, (t :: ts). reflexivity.
      * right; left. eexists _, _. split; reflexivity.
    + right; left. eexists _, _. split; reflexivity.
  - right; left. eexists _, _. split; reflexivity.
Qed.

Lemma cycle_succeeded_version (rt : Runtime) (env : CycleEnv) (s : Service) :
  cycle_kind (updateMindmap rt env s).2 = Succeeded ->
  graph_version (currentMindmap (updateMindmap rt env s).1) =
  graph_version (currentMindmap s) + 1.
Proof.
  intros Hk.
  destruct (updateMindmap_cases rt env s) as [[_ H]|[(o & m & _ & H)|[_ (d & ts & H)]]];
    [rewrite H in Hk; discriminate Hk|rewrite H in Hk; discriminate Hk|].
  rewrite H. unfold graph_version at 1. rewrite summarize_metadata. reflexivity.
Qed.

Lemma cycle_skipped_same (rt : Runtime) (env : CycleEnv) (s : Service) :
  cycle_kind (updateMindmap rt env s).2 = Skipped ->
  (updateMindmap rt env s).1 = s.
Proof.
  intros Hk.
  destruct (updateMindmap_cases rt env s) as [[H _]|[(o & m & _ & H)|[H _]]];
    [rewrite H; reflexivity|rewrite H in Hk; discriminate Hk|rewrite H in Hk; discriminate Hk].
Qed.

Lemma cycle_failed_on_error (rt : Runtime) (env : CycleEnv) (s : Service) :
  cycle_kind (updateMindmap rt env s).2 = Failed ->
  ∃ o message, updateMindmap rt env s = on_error o s message.
Proof.
  intros Hk.
  destruct (updateMindmap_cases rt env s) as [[_ H]|[(o & m & H & _)|[H _]]];
    [rewrite H in Hk; discriminate Hk|exists o, m; exact H|rewrite H in Hk; discriminate Hk].
Qed.

Lemma cycle_failed_keeps (rt : Runtime) (env : CycleEnv) (s : Service) :
  cycle_kind (updateMindmap rt env s).2 = Failed ->
  nodes (currentMindmap s) ≠ [] ->
  (updateMindmap rt env s).1 = s.
Proof.
  intros Hk Hn. destruct (cycle_failed_on_error rt env s Hk) as (o & m & ->).
  apply on_error_keeps. exact Hn.
Qed.

Lemma cycle_failed_resets (rt : Runtime) (env : CycleEnv) (s : Service) :
  cycle_kind (updateMindmap rt env s).2 = Failed ->
  nodes (currentMindmap s) = [] ->
  graph_version (currentMindmap (updateMindmap rt env s).1) = 0.
Proof.
  intros Hk Hn. destruct (cycle_failed_on_error rt env s Hk) as (o & m & ->).
  rewrite on_error_replaces by exact Hn. reflexivity.
Qed.

(** Three failed attempts make a failed cycle. *)
Lemma retries_exhausted (generate : nat -> Outcome Updates) :
  (∀ k, (k < 3)%nat -> ∃ msg, generate k = Throws msg) ->
  ∃ msg, generate_with_retries generate 0 3 None = (None, Some msg).
Proof.
  intros H.
  destruct (H 0%nat ltac:(lia)) as (m0 & H0).
  destruct (H 1%nat ltac:(lia)) as (m1 & H1).
  destruct (H 2%nat ltac:(lia)) as (m2 & H2).
  exists m2. simpl. rewrite H0, H1, H2. reflexivity.
Qed.

Lemma cycle_exhausted_failed (rt : Runtime) (env : CycleEnv) (s : Service)
  (t : Transcript) (ts : list Transcript) :
  no_session s = false ->
  all_transcripts env = Returns (t :: ts) ->
  (∀ k, (k < 3)%nat -> ∃ msg, generate env k = Throws msg) ->
  ∃ msg, generate env 2 = Throws msg ∧
         updateMindmap rt env s = on_error (clock env) s msg.
Proof.
  intros Hs Ht Hg. unfold updateMindmap. rewrite Hs, Ht.
  destruct (Hg 0%nat ltac:(lia)) as (m0 & H0).
  destruct (Hg 1%nat ltac:(lia)) as (m1 & H1).
  destruct (Hg 2%nat ltac:(lia)) as (m2 & H2).
  exists m2. split; [exact H2|]. simpl. rewrite H0, H1, H2. reflexivity.
Qed.

Lemma merge_version (o : Oracle) (g : Graph) (u : Updates) :
  graph_version (mergeMindmapUpdates o g u) = graph_version g + 1.
Proof.
  unfold mergeMindmapUpdates.
  destruct (fold_left (merge_node o) (u_nodes u) (nodes g, 0%nat)) as [ns k].
  destruct (fold_left (merge_edge o) (u_edges u) (edges g, k)) as [es k'].
  reflexivity.
Qed.

Lemma merge_all_version (steps : list (Oracle * Updates)) (g : Graph) :
  graph_version (merge_all steps g) = graph_version g + Z.of_nat (length steps).
Proof.
  revert g. induction steps as [|[o u] steps IH]; intros g; simpl; [lia|].
  rewrite IH, merge_version. lia.
Qed.

Lemma run_cycles_step (rt : Runtime) (env : CycleEnv) (envs : list CycleEnv)
  (s : Service) :
  run_cycles rt (env :: envs) s =
  ((s, cycle_kind (updateMindmap rt env s).2)
     :: (run_cycles rt envs (updateMindmap rt env s).1).1,
   (run_cycles rt envs (updateMindmap rt env s).1).2).
Proof.
  simpl. destruct (updateMindmap rt env s) as [s1 effects]. simpl.
  destruct (run_cycles rt envs s1) as [trace s2]. reflexivity.
Qed.

(** Over a run in which no cycle failed on a graph without nodes, the
    version grows by the number of cycles that succeeded. *)
Lemma run_cycles_version (rt : Runtime) (envs : list CycleEnv) (s : Service) :
  failures_had_nodes (run_cycles rt envs s).1 ->
  graph_version (currentMindmap (run_cycles rt envs s).2) =
  graph_version (currentMindmap s) + Z.of_nat (successes (run_cycles rt envs s).1).
Proof.
  revert s. induction envs as [|env envs IH]; intros s.
  - simpl. intros _. unfold successes. simpl. lia.
  - rewrite run_cycles_step. cbn [fst snd]. intros Hf.
    apply Forall_cons in Hf as [Hhead Htail].
    rewrite (IH _ Htail). unfold successes, kinds. cbn [fmap list_fmap snd List.filter].
    fold (kinds (run_cycles rt envs (updateMindmap rt env s).1).1).
    destruct (cycle_kind (updateMindmap rt env s).2) eqn:Hk; cbn [is_succeeded].
    + rewrite (cycle_succeeded_version rt env s Hk). cbn [length]. lia.
    + rewrite (cycle_failed_keeps rt env s Hk (Hhead eq_refl)). lia.
    + rewrite (cycle_skipped_same rt env s Hk). lia.
Qed.

Lemma all_succeeded_successes (trace : list (Service * CycleKind)) :
  Forall (fun k => k = Succeeded) (kinds trace) ->
  failures_had_nodes trace ∧ successes trace = length trace.
Proof.
  unfold failures_had_nodes, successes, kinds.
  induction trace as [|[s k] trace IH]; simpl; intros H.
  - split; [constructor|reflexivity].
  - apply Forall_cons in H as [-> H]. destruct (IH H) as [IH1 IH2]. split.
    + constructor; [discriminate|exact IH1].
    + cbn [is_succeeded length]. f_equal. exact IH2.
Qed.

Lemma run_cycles_length (rt : Runtime) (envs : list CycleEnv) (s : Service) :
  length (run_cycles rt envs s).1 = length envs.
Proof.
  revert s. induction envs as [|env envs IH]; intros s; [reflexivity|].
  rewrite run_cycles_step. simpl. rewrite IH. reflexivity.
Qed.

(** ** Cycles in flight: the cycle that runs alone, and cycles that overlap *)

Lemma settle_last (rt : Runtime) (s : Service) (cs : list Cycle) (env : CycleEnv)
  (point : Suspended) (es : list Effect) :
  settle rt (length cs)
    {| w_service := s;
       w_cycles := cs ++ [{| c_env := env; c_point := Some point |}];
       w_effects := es |} =
  {| w_service := (resume rt env point s).1.1;
     w_cycles := cs ++ [{| c_env := env; c_point := (resume rt env point s).2 |}];
     w_effects := es ++ (resume rt env point s).1.2 |}.
Proof.
  unfold settle. cbn [w_cycles w_service w_effects].
  rewrite lookup_app_r by lia. rewrite Nat.sub_diag. cbn [lookup list_lookup].
  destruct (resume rt env point s) as [[s' effects] next]. cbn [fst snd].
  f_equal. rewrite insert_app_r_alt by lia. rewrite Nat.sub_diag. reflexivity.
Qed.

Lemma settle_returned (rt : Runtime) (s : Service) (cs : list Cycle) (env : CycleEnv)
  (es : list Effect) :
  settle rt (length cs)
    {| w_service := s;
       w_cycles := cs ++ [{| c_env := env; c_point := None |}];
       w_effects := es |} =
  {| w_service := s;
     w_cycles := cs ++ [{| c_env := env; c_point := None |}];
     w_effects := es |}.
Proof.
  unfold settle. cbn [w_cycles]. rewrite lookup_app_r by lia.
  rewrite Nat.sub_diag. reflexivity.
Qed.

(** The graph that a cycle builds has the version of the current graph
    plus 1 and the bound session id. *)
Lemma cycle_graph_metadata (env : CycleEnv) (s : Service) (d : Updates) (n : nat) :
  graph_version (cycle_graph env s d n) = graph_version (currentMindmap s) + 1 ∧
  graph_session (cycle_graph env s d n) = currentSessionId s.
Proof.
  unfold graph_version, graph_session, cycle_graph.
  rewrite summarize_metadata. split; reflexivity.
Qed.

(** A cycle during which nothing else runs is [updateMindmap]. *)
Lemma alone_is_updateMindmap (rt : Runtime) (env : CycleEnv) (w : World) :
  apply_ops rt (alone (length (w_cycles w)) env) w =
  {| w_service := (updateMindmap rt env (w_service w)).1;
     w_cycles := w_cycles w ++ [{| c_env := env; c_point := None |}];
     w_effects := w_effects w ++ (updateMindmap rt env (w_service w)).2 |}.
Proof.
  destruct w as [s cs es]. unfold alone, apply_ops, updateMindmap.
  cbn [fold_left apply_op]. unfold launch. cbn [w_service w_cycles w_effects].
  destruct (no_session s) eqn:Hs.
  { rewrite ?settle_returned, ?app_nil_r. reflexivity. }
  rewrite settle_last. cbn [resume].
  destruct (all_transcripts env) as [[|t ts]|msg].
  - cbn [fst snd]. rewrite ?settle_returned, ?app_nil_r. reflexivity.
  - cbn [fst snd]. rewrite settle_last. cbn [resume].
    destruct (generate_with_retries (generate env) 0 3 None) as [[d|] lastError].
    + rewrite Hs. cbn [fst snd]. rewrite settle_last. cbn [resume].
      unfold saveMindmap.
      assert (Hsession : ∃ c session, currentSessionId s = Some (String c session)).
      { unfold no_session in Hs. destruct (currentSessionId s) as [[|c session]|];
          [discriminate Hs|eexists _, _; reflexivity|discriminate Hs]. }
      destruct Hsession as (c & session & Hsession).
      unfold cycle_graph. rewrite Hsession.
      destruct (stored_summary (repository env)) as [existing|msg].
      * cbn [fst snd]. rewrite settle_last. cbn [resume default].
        destruct (write_result (repository env)) as [[]|msg].
        -- cbn [fst snd caught]. rewrite ?app_nil_r, ?Hsession. reflexivity.
        -- cbn [fst snd caught]. rewrite ?app_nil_r. reflexivity.
      * cbn [fst snd caught]. rewrite ?settle_returned, ?app_nil_r. reflexivity.
    + cbn [fst snd caught]. rewrite ?settle_returned, ?app_nil_r. reflexivity.
  - cbn [fst snd caught]. rewrite ?settle_returned, ?app_nil_r. reflexivity.
Qed.

Lemma apply_ops_app (rt : Runtime) (ops1 ops2 : list Op) (w : World) :
  apply_ops rt (ops1 ++ ops2) w = apply_ops rt ops2 (apply_ops rt ops1 w).
Proof. unfold apply_ops. apply fold_left_app. Qed.

(** Cycles that run one after the other are the cycles of [run_cycles]. *)
Lemma one_by_one_run_cycles (rt : Runtime) (envs : list CycleEnv) (w : World) :
  w_service (apply_ops rt (one_by_one (length (w_cycles w)) envs) w) =
  (run_cycles rt envs (w_service w)).2.
Proof.
  revert w. induction envs as [|env envs IH]; intros w; [reflexivity|].
  cbn [one_by_one]. rewrite apply_ops_app, alone_is_updateMindmap, run_cycles_step.
  cbn [snd].
  set (w1 := {| w_service := (updateMindmap rt env (w_service w)).1;
                w_cycles := w_cycles w ++ [{| c_env := env; c_point := None |}];
                w_effects := w_effects w ++ (updateMindmap rt env (w_service w)).2 |}).
  replace (S (length (w_cycles w))) with (length (w_cycles w1))
    by (unfold w1; cbn [w_cycles]; rewrite length_app; simpl; lia).
  rewrite (IH w1). reflexivity.
Qed.

(** Two cycles that overlap and both succeed: each builds its graph on
    the version it finds, so both carry the same version, and the second
    commit replaces the graph of the first. *)
Lemma overlapping_cycles (rt : Runtime) (env1 env2 : CycleEnv) (s : Service)
  (t1 t2 : Transcript) (ts1 ts2 : list Transcript) (d1 d2 : Updates) :
  no_session s = false ->
  all_transcripts env1 = Returns (t1 :: ts1) ->
  all_transcripts env2 = Returns (t2 :: ts2) ->
  (generate_with_retries (generate env1) 0 3 None).1 = Some d1 ->
  (generate_with_retries (generate env2) 0 3 None).1 = Some d2 ->
  (∃ existing, stored_summary (repository env1) = Returns existing) ->
  (∃ existing, stored_summary (repository env2) = Returns existing) ->
  write_result (repository env1) = Returns tt ->
  write_result (repository env2) = Returns tt ->
  let w := apply_ops rt (overlapping env1 env2) (idle s) in
  currentMindmap (w_service w) = cycle_graph env2 s d2 (length (t2 :: ts2)) ∧
  is_update <$> w_effects w = [false; true; false; true].
Proof.
  intros Hs Ht1 Ht2 Hg1 Hg2 [ex1 Hx1] [ex2 Hx2] Hw1 Hw2.
  destruct (generate_with_retries (generate env1) 0 3 None) as [r1 e1] eqn:G1.
  destruct (generate_with_retries (generate env2) 0 3 None) as [r2 e2] eqn:G2.
  cbn [fst] in Hg1, Hg2. subst r1 r2. intros w.
  enough (E : ∃ a1 a2 cs,
    w = {| w_service :=
             {| currentMindmap := cycle_graph env2 s d2 (length (t2 :: ts2));
                conversationHistory := conversationHistory s;
                currentSessionId := currentSessionId s;
                updateTimer := updateTimer s;
                pendingTranscripts := [] |};
           w_cycles := cs;
           w_effects :=
             [SaveSummary a1; MindmapUpdate (cycle_graph env1 s d1 (length (t1 :: ts1)));
              SaveSummary a2; MindmapUpdate (cycle_graph env2 s d2 (length (t2 :: ts2)))] |}).
  { destruct E as (a1 & a2 & cs & E). rewrite E. split; reflexivity. }
  eexists _, _, _. unfold w, overlapping, apply_ops, idle.
  cbn [fold_left apply_op]. unfold launch. cbn [w_service w_cycles w_effects app].
  rewrite Hs.
  unfold settle at 8. cbn [w_cycles w_service w_effects lookup list_lookup resume].
  rewrite Ht1. cbn [list_insert insert].
  unfold settle at 7. cbn [w_cycles w_service w_effects lookup list_lookup resume].
  rewrite G1, Hs. cbn [list_insert insert].
  unfold settle at 6. cbn [w_cycles w_service w_effects lookup list_lookup resume].
  rewrite Ht2. cbn [list_insert insert].
  unfold settle at 5. cbn [w_cycles w_service w_effects lookup list_lookup resume].
  rewrite G2, Hs. cbn [list_insert insert].
  unfold settle at 4. cbn [w_cycles w_service w_effects lookup list_lookup resume].
  rewrite Hx1. cbn [list_insert insert].
  unfold settle at 3. cbn [w_cycles w_service w_effects lookup list_lookup resume].
  rewrite Hw1. cbn [list_insert insert].
  unfold settle at 2. cbn [w_cycles w_service w_effects lookup list_lookup resume].
  rewrite Hx2. cbn [list_insert insert].
  unfold settle at 1. cbn [w_cycles w_service w_effects lookup list_lookup resume].
  rewrite Hw2. cbn [list_insert insert].
  cbn [w_service w_effects currentMindmap app fst snd caught conversationHistory
       currentSessionId updateTimer pendingTranscripts].
  reflexivity.
Qed.

(** A step of a cycle that reports an error is the [catch] block on the
    service as it is at that step, and ends the cycle. *)
Lemma resume_failed (rt : Runtime) (env : CycleEnv) (point : Suspended) (s : Service) :
  existsb is_status (resume rt env point s).1.2 = true ->
  ∃ o message, (resume rt env point s).1 = on_error o s message ∧
               (resume rt env point s).2 = None.
Proof.
  destruct point as [|ts|g|g args|message]; cbn [resume];
    [| | | |intros _; eexists _, _; split; reflexivity].
  - destruct (all_transcripts env) as [[|t ts]|msg]; cbn [caught fst snd existsb];
      try discriminate. intros _. eexists _, _. split; reflexivity.
  - destruct (generate_with_retries (generate env) 0 3 None) as [[d|] lastError].
    + destruct (no_session s); cbn [caught fst snd existsb]; discriminate.
    + intros _. eexists _, _. split; reflexivity.
  - destruct (stored_summary (repository env)) as [existing|msg];
      cbn [caught fst snd existsb]; try discriminate.
    intros _. eexists _, _. split; reflexivity.
  - destruct (write_result (repository env)) as [[]|msg];
      cbn [caught fst snd existsb is_status orb]; try discriminate.
    intros _. eexists _, _. split; reflexivity.
Qed.

(** What the [catch] block does to the service: nothing when the current
    graph has a node, otherwise it replaces the graph. *)
Lemma on_error_exact (o : Oracle) (s : Service) (message : string) :
  (nodes (currentMindmap s) ≠ [] -> (on_error o s message).1 = s) ∧
  (nodes (currentMindmap s) = [] ->
   (on_error o s message).1 =
   with_mindmap s
     {| nodes := []; edges := [];
        metadata := Some {| sessionId := currentSessionId s;
                            lastUpdated := Some (date_now o 0);
                            version := Some 0;
                            totalTranscripts := Some 0;
                            error := Some message |} |}) ∧
  (on_error o s message).2 = [StatusUpdate "error" message].
Proof.
  split; [apply on_error_keeps|]. split; [|reflexivity].
  intros H. unfold on_error. rewrite H. reflexivity.
Qed.

(** C2, as stated, fails on the failure path: a bound service whose first
    cycle succeeds with an answer without nodes is at version 1; the next
    cycle, in which every attempt fails, finds a graph without nodes and
    replaces it by an empty graph at version 0. *)
Lemma C2_failed_cycle_resets_version :
  let run := run_cycles sample_runtime [empty_answer_env; failing_env] bound_service in
  kinds run.1 = [Succeeded; Failed] ∧
  (graph_version ∘ currentMindmap ∘ fst) <$> run.1 = [0; 1] ∧
  graph_version (currentMindmap run.2) = 0.
Proof. vm_compute. repeat split. Qed.

(** C2, amended. [metadata.version] grows by exactly 1 in each successful
    update cycle that runs alone and in each merge: N merges, or N
    successful cycles that run one after the other, take version v to
    v + N, and so does such a run with N successful cycles among skipped
    cycles and failed cycles that found a graph with nodes.  A failed cycle
    leaves the version (and the whole service state) unchanged when the
    current graph has at least one node; when it has none, the failure path
    installs an empty graph whose version is 0.  The service does not keep
    cycles from overlapping, and a cycle commits the graph that it built
    when the generator answered, with the version found then plus 1,
    whatever has run since: when two successful cycles overlap, each
    building its graph before either has committed, both commit the
    version v + 1, so two successes take v to v + 1. *)
Theorem C2_version_counts_successes :
  (∀ rt env s,
     cycle_kind (updateMindmap rt env s).2 = Succeeded ->
     graph_version (currentMindmap (updateMindmap rt env s).1) =
     graph_version (currentMindmap s) + 1) ∧
  (∀ o g u, graph_version (mergeMindmapUpdates o g u) = graph_version g + 1) ∧
  (∀ steps g,
     graph_version (merge_all steps g) = graph_version g + Z.of_nat (length steps)) ∧
  (∀ rt envs s,
     Forall (fun k => k = Succeeded) (kinds (run_cycles rt envs s).1) ->
     graph_version (currentMindmap (run_cycles rt envs s).2) =
     graph_version (currentMindmap s) + Z.of_nat (length envs)) ∧
  (∀ rt envs s,
     failures_had_nodes (run_cycles rt envs s).1 ->
     graph_version (currentMindmap (run_cycles rt envs s).2) =
     graph_version (currentMindmap s) +
     Z.of_nat (successes (run_cycles rt envs s).1)) ∧
  (∀ rt env s,
     cycle_kind (updateMindmap rt env s).2 = Failed ->
     nodes (currentMindmap s) ≠ [] ->
     (updateMindmap rt env s).1 = s) ∧
  (∀ rt env s,
     cycle_kind (updateMindmap rt env s).2 = Failed ->
     nodes (currentMindmap s) = [] ->
     graph_version (currentMindmap (updateMindmap rt env s).1) = 0) ∧
  (∀ rt envs w,
     w_service (apply_ops rt (one_by_one (length (w_cycles w)) envs) w) =
     (run_cycles rt envs (w_service w)).2) ∧
  (∀ rt env1 env2 s t1 ts1 t2 ts2 d1 d2,
     no_session s = false ->
     all_transcripts env1 = Returns (t1 :: ts1) ->
     all_transcripts env2 = Returns (t2 :: ts2) ->
     (generate_with_retries (generate env1) 0 3 None).1 = Some d1 ->
     (generate_with_retries (generate env2) 0 3 None).1 = Some d2 ->
     (∃ existing, stored_summary (repository env1) = Returns existing) ->
     (∃ existing, stored_summary (repository env2) = Returns existing) ->
     write_result (repository env1) = Returns tt ->
     write_result (repository env2) = Returns tt ->
     let w := apply_ops rt (overlapping env1 env2) (idle s) in
     length (List.filter is_update (w_effects w)) = 2%nat ∧
     graph_version (currentMindmap (w_service w)) =
     graph_version (currentMindmap s) + 1) ∧
  (∀ rt env allTranscripts s g,
     (resume rt env (AtGenerate allTranscripts) s).2 = Some (AtStored g) ->
     graph_version g = graph_version (currentMindmap s) + 1) ∧
  (∀ rt env g args s,
     existsb is_update (resume rt env (AtWrite g args) s).1.2 = true ->
     currentMindmap (resume rt env (AtWrite g args) s).1.1 = g).
Proof.
  split; [exact cycle_succeeded_version|].
  split; [exact merge_version|].
  split; [exact merge_all_version|].
  split; [|split; [exact run_cycles_version|]].
  - intros rt envs s H. apply all_succeeded_successes in H as [Hf Hs].
    rewrite (run_cycles_version rt envs s Hf), Hs, run_cycles_length. reflexivity.
  - split; [exact cycle_failed_keeps|]. split; [exact cycle_failed_resets|].
    split; [exact one_by_one_run_cycles|]. split; [|split].
    + intros rt env1 env2 s t1 ts1 t2 ts2 d1 d2 Hs Ht1 Ht2 Hg1 Hg2 Hx1 Hx2 Hw1 Hw2 w.
      destruct (overlapping_cycles rt env1 env2 s t1 t2 ts1 ts2 d1 d2
                  Hs Ht1 Ht2 Hg1 Hg2 Hx1 Hx2 Hw1 Hw2) as [Eg Ee].
      fold w in Eg, Ee. split.
      * revert Ee. generalize (w_effects w) as es. intros es Ee.
        repeat (destruct es as [|? es]; try discriminate Ee).
        injection Ee as E1 E2 E3 E4. cbn [List.filter].
        rewrite E1, E2, E3, E4. reflexivity.
      * rewrite Eg. apply cycle_graph_metadata.
    + intros rt env ts s g. cbn [resume].
      destruct (generate_with_retries (generate env) 0 3 None) as [[d|] lastError];
        [|discriminate].
      destruct (no_session s); [discriminate|]. cbn [snd]. intros [= <-].
      apply cycle_graph_metadata.
    + intros rt env g args s. cbn [resume].
      destruct (write_result (repository env)) as [[]|msg]; [reflexivity|discriminate].
Qed.

(** Two overlapping cycles of the specification's scenario: two
    successes, and the version is 1. *)
Example overlapping_curiosity_cycles :
  let w := apply_ops sample_runtime (overlapping curiosity_env curiosity_env)
             (idle bound_service) in
  is_update <$> w_effects w = [false; true; false; true] ∧
  graph_version (currentMindmap (w_service w)) = 1.
Proof. vm_compute. split; reflexivity. Qed.

(** C2 on a run of a successful, a failed and a successful cycle. *)
Lemma C2_version_counts_successes_witness :
  let envs := [curiosity_env; failing_env; curiosity_env] in
  failures_had_nodes (run_cycles sample_runtime envs bound_service).1 ∧
  kinds (run_cycles sample_runtime envs bound_service).1 =
    [Succeeded; Failed; Succeeded] ∧
  graph_version (currentMindmap (run_cycles sample_runtime envs bound_service).2) = 2.
Proof.
  intros envs.
  assert (Hf : failures_had_nodes (run_cycles sample_runtime envs bound_service).1).
  { vm_compute.
    apply Forall_cons; split; [intros H; discriminate H|].
    apply Forall_cons; split; [intros _ H; discriminate H|].
    apply Forall_cons; split; [intros H; discriminate H|]. constructor. }
  split; [exact Hf|]. split; [vm_compute; reflexivity|].
  rewrite (proj1 (proj2 (proj2 (proj2 (proj2 C2_version_counts_successes))))
             sample_runtime envs bound_service Hf).
  vm_compute. reflexivity.
Defined.

(** C3, as stated, fails when the graph in memory has edges and no node:
    a bound service whose first cycle succeeds with an answer of one edge
    and no node holds that graph at version 1, without an error; the next
    cycle, in which every attempt fails, is not the first cycle, and yet
    it drops the edge, sets the version back to 0 and attaches
    [metadata.error]. *)
Lemma C3_failed_cycle_drops_edges :
  let run := run_cycles sample_runtime [edge_only_env; failing_env] bound_service in
  let prior := currentMindmap (updateMindmap sample_runtime edge_only_env
                                 bound_service).1 in
  kinds run.1 = [Succeeded; Failed] ∧
  (e_id <$> edges prior) = ["e1"] ∧ graph_version prior = 1 ∧
  metadata prior ≫= error = None ∧
  edges (currentMindmap run.2) = [] ∧
  graph_version (currentMindmap run.2) = 0 ∧
  metadata (currentMindmap run.2) ≫= error =
    Some "No JSON found in LLM response. Response: I cannot help with that.".
Proof. vm_compute. repeat split. Qed.

(** C3, amended.  A failed update cycle reports its error as a status and
    leaves the service as it is, graph (nodes, edges and metadata) and all,
    exactly when the current graph has at least one node at the time of
    the failure.  When the current graph has no node, on the first cycle
    or on a later one, the failed cycle replaces it by a graph without
    nodes and edges that carries the bound session id, version 0, no
    transcripts and the message of the error in [metadata.error]; nothing
    else of the service changes.  This holds of a cycle that runs alone
    and of every step at which a cycle in flight fails, on the service as
    it is at that step.  A cycle whose three generation attempts all throw
    is such a failed cycle. *)
Theorem C3_failed_cycle_keeps_graph :
  (∀ rt env s,
     cycle_kind (updateMindmap rt env s).2 = Failed ->
     ∃ o message,
       (updateMindmap rt env s).2 = [StatusUpdate "error" message] ∧
       (nodes (currentMindmap s) ≠ [] -> (updateMindmap rt env s).1 = s) ∧
       (nodes (currentMindmap s) = [] ->
        (updateMindmap rt env s).1 =
        with_mindmap s
          {| nodes := []; edges := [];
             metadata := Some {| sessionId := currentSessionId s;
                                 lastUpdated := Some (date_now o 0);
                                 version := Some 0;
                                 totalTranscripts := Some 0;
                                 error := Some message |} |})) ∧
  (∀ rt env point s,
     existsb is_status (resume rt env point s).1.2 = true ->
     ∃ o message,
       (resume rt env point s).2 = None ∧
       (resume rt env point s).1.2 = [StatusUpdate "error" message] ∧
       (nodes (currentMindmap s) ≠ [] -> (resume rt env point s).1.1 = s) ∧
       (nodes (currentMindmap s) = [] ->
        (resume rt env point s).1.1 =
        with_mindmap s
          {| nodes := []; edges := [];
             metadata := Some {| sessionId := currentSessionId s;
                                 lastUpdated := Some (date_now o 0);
                                 version := Some 0;
                                 totalTranscripts := Some 0;
                                 error := Some message |} |})) ∧
  (∀ rt env s t ts,
     no_session s = false ->
     all_transcripts env = Returns (t :: ts) ->
     (∀ k, (k < 3)%nat -> ∃ msg, generate env k = Throws msg) ->
     cycle_kind (updateMindmap rt env s).2 = Failed ∧
     (nodes (currentMindmap s) ≠ [] -> (updateMindmap rt env s).1 = s)).
Proof.
  split; [|split].
  - intros rt env s Hk.
    destruct (cycle_failed_on_error rt env s Hk) as (o & m & E).
    destruct (on_error_exact o s m) as (H1 & H2 & H3).
    exists o, m. rewrite E. split; [exact H3|]. split; assumption.
  - intros rt env point s Hk.
    destruct (resume_failed rt env point s Hk) as (o & m & E & En).
    destruct (on_error_exact o s m) as (H1 & H2 & H3).
    exists o, m. split; [exact En|]. rewrite E. split; [exact H3|].
    split; assumption.
  - intros rt env s t ts Hs Ht Hg.
    destruct (cycle_exhausted_failed rt env s t ts Hs Ht Hg) as (msg & _ & E).
    assert (Hk : cycle_kind (updateMindmap rt env s).2 = Failed)
      by (rewrite E; reflexivity).
    split; [exact Hk|]. apply cycle_failed_keeps. exact Hk.
Qed.

(** C3 on a service holding the sample graph, all attempts failing. *)
Lemma C3_failed_cycle_keeps_graph_witness :
  let s := with_mindmap bound_service sample_graph in
  cycle_kind (updateMindmap sample_runtime failing_env s).2 = Failed ∧
  currentMindmap (updateMindmap sample_runtime failing_env s).1 = sample_graph.
Proof.
  intros s.
  destruct (proj2 (proj2 C3_failed_cycle_keeps_graph) sample_runtime failing_env s
              (hd (mkTranscript EmptyString EmptyString None) sample_transcripts)
              (tl sample_transcripts) eq_refl eq_refl) as [Hk Hkeep].
  - intros k Hlt. eexists. reflexivity.
  - split; [exact Hk|]. rewrite Hkeep; [reflexivity|]. discriminate.
Defined.

(** The first cycle ever, failing: the empty graph receives the error. *)
Example first_cycle_failing :
  metadata (currentMindmap (updateMindmap sample_runtime failing_env bound_service).1)
    ≫= error
  = Some "No JSON found in LLM response. Response: I cannot help with that.".
Proof. vm_compute. reflexivity. Qed.

(** The scenario of the specification: one turn, the model answering with
    one node; the graph has one node, no edge, and the version grew by 1. *)
Example curiosity_cycle :
  let s := (updateMindmap sample_runtime curiosity_env bound_service).1 in
  length (nodes (currentMindmap s)) = 1%nat ∧ edges (currentMindmap s) = [] ∧
  graph_version (currentMindmap s) = graph_version (currentMindmap bound_service) + 1.
Proof. vm_compute. repeat split. Qed.

(** * More properties: the rest of the service and the view *)

(** ** Similarity *)

Lemma includes_empty (s : string) : Js.includes s EmptyString = true.
Proof. destruct s; reflexivity. Qed.

Lemma nodesSimilar_empty_r (l : string) : nodesSimilar l EmptyString = false.
Proof. unfold nodesSimilar. simpl. rewrite orb_true_r. reflexivity. Qed.

Lemma nodesSimilar_same_normal (a b : string) :
  Js.truthy a = true -> Js.truthy b = true ->
  Js.trim (Js.toLowerCase a) = Js.trim (Js.toLowerCase b) ->
  nodesSimilar a b = true.
Proof.
  intros Ha Hb E. unfold nodesSimilar. rewrite Ha, Hb. simpl.
  rewrite bool_decide_eq_true_2 by exact E. reflexivity.
Qed.

Lemma nodesSimilar_refl (l : string) : Js.truthy l = true -> nodesSimilar l l = true.
Proof. intros H. apply nodesSimilar_same_normal; [exact H|exact H|reflexivity]. Qed.

(** X1. Two non-empty labels that differ only in case and in surrounding
    white space are similar, in particular every non-empty label is
    similar to itself; and a non-empty label that consists of white space
    only is similar to every non-empty label, in both orders, because the
    empty string it normalizes to is contained in every string. *)
Theorem X1_similar_normal_forms_and_blank (a b : string) :
  Js.truthy a = true -> Js.truthy b = true ->
  (Js.trim (Js.toLowerCase a) = Js.trim (Js.toLowerCase b) ->
   nodesSimilar a b = true) ∧
  (Js.trim (Js.toLowerCase a) = EmptyString ->
   nodesSimilar a b = true ∧ nodesSimilar b a = true).
Proof.
  intros Ha Hb. split; [apply nodesSimilar_same_normal; assumption|].
  intros E. unfold nodesSimilar. rewrite Ha, Hb, E. simpl.
  rewrite includes_empty, orb_true_r.
  split; destruct (bool_decide _); reflexivity.
Qed.

(** X1 on 'Budget ' and ' budget', and on a label of two spaces. *)
Lemma X1_similar_normal_forms_and_blank_witness :
  nodesSimilar "Budget " " budget" = true ∧
  nodesSimilar "  " "Marketing" = true ∧ nodesSimilar "Marketing" "  " = true.
Proof.
  split.
  - apply (proj1 (X1_similar_normal_forms_and_blank "Budget " " budget"
                    eq_refl eq_refl)). reflexivity.
  - apply (proj2 (X1_similar_normal_forms_and_blank "  " "Marketing"
                    eq_refl eq_refl)). reflexivity.
Defined.

(** X2. When neither label repeats a word (after lower-casing and
    trimming), the similarity of two labels does not depend on their
    order. *)
Theorem X2_similar_symmetric_without_repeats (label1 label2 : string) :
  NoDup (Js.split_ws (Js.trim (Js.toLowerCase label1))) ->
  NoDup (Js.split_ws (Js.trim (Js.toLowerCase label2))) ->
  nodesSimilar label1 label2 = nodesSimilar label2 label1.
Proof.
  intros H1 H2. unfold nodesSimilar.
  rewrite (orb_comm (negb (Js.truthy label1))).
  destruct (negb (Js.truthy label2) || negb (Js.truthy label1)); [reflexivity|].
  set (n1 := Js.trim (Js.toLowerCase label1)) in *.
  set (n2 := Js.trim (Js.toLowerCase label2)) in *.
  destruct (decide (n1 = n2)) as [E|E].
  - rewrite !bool_decide_eq_true_2; congruence.
  - rewrite (bool_decide_eq_false_2 (n1 = n2)) by congruence.
    rewrite (bool_decide_eq_false_2 (n2 = n1)) by congruence.
    rewrite (orb_comm (Js.includes n1 n2)).
    destruct (Js.includes n2 n1 || Js.includes n1 n2); [reflexivity|].
    rewrite (common_words_length _ _ H1 H2), Nat.max_comm. reflexivity.
Qed.

(** X2 on the labels of the repository's word-overlap test. *)
Lemma X2_similar_symmetric_without_repeats_witness :
  nodesSimilar "Budget Review Q4" "Budget Planning Q4" =
  nodesSimilar "Budget Planning Q4" "Budget Review Q4".
Proof.
  apply (X2_similar_symmetric_without_repeats "Budget Review Q4" "Budget Planning Q4");
    compute_done.
Defined.

(** ** Merge: what stays and what is added *)

(** A turn of the node loop leaves every attribute that [add_indices]
    keeps as it was, in place, and adds at most one node at the end. *)
Lemma merge_node_proj {A} (f : Node -> A) (o : Oracle) (ns : list Node) (k : nat)
  (x : Node) :
  (∀ e idx, f (add_indices e idx) = f e) ->
  f <$> (merge_node o (ns, k) x).1 = f <$> ns ∨
  ∃ added, (merge_node o (ns, k) x).1 = ns ++ [added] ∧
           with_node_id added (n_id x) = x ∧
           list_find (similar_to x) ns = None.
Proof.
  intros Hf. unfold merge_node.
  destruct (list_find (similar_to x) ns) as [[i existing]|] eqn:E.
  - left. destruct (n_metadata x ≫= transcriptIndices) as [idx|]; simpl; [|reflexivity].
    apply list_find_Some in E as (Hl & _ & _).
    rewrite list_fmap_insert, Hf.
    apply list_insert_id. rewrite list_lookup_fmap, Hl. reflexivity.
  - right. destruct (Js.truthy (n_id x)); simpl; eexists; (split; [reflexivity|]);
      (split; [|reflexivity]).
    + apply with_node_id_same.
    + apply with_node_id_back.
Qed.

Lemma merge_nodes_proj {A} (f : Node -> A) (o : Oracle) (items ns : list Node)
  (k : nat) :
  (∀ e idx, f (add_indices e idx) = f e) ->
  (f <$> ns) `prefix_of` (f <$> (fold_left (merge_node o) items (ns, k)).1) ∧
  (length (fold_left (merge_node o) items (ns, k)).1 <= length ns + length items)%nat.
Proof.
  intros Hf. revert ns k. induction items as [|x items IH]; intros ns k.
  - simpl. split; [reflexivity|lia].
  - rewrite fold_left_step.
    pose proof (merge_node_proj f o ns k x Hf) as Hx.
    destruct (merge_node o (ns, k) x) as [ns1 k1]. cbn [fst] in Hx.
    destruct (IH ns1 k1) as [Hp Hl].
    destruct Hx as [E|(added & E & _ & _)].
    + rewrite <- E. split; [exact Hp|].
      assert (length ns1 = length ns)
        by (rewrite <- (length_fmap f ns1), E, length_fmap; reflexivity).
      simpl. lia.
    + subst ns1. rewrite fmap_app in Hp. split.
      * etransitivity; [|exact Hp]. apply prefix_app_r. reflexivity.
      * rewrite length_app in Hl. simpl in *. lia.
Qed.

Lemma merge_edge_step (o : Oracle) (es : list Edge) (k : nat) (x : Edge) :
  ((merge_edge o (es, k) x).1 = es ∧ ends x ∈ (ends <$> es)) ∨
  ∃ added, (merge_edge o (es, k) x).1 = es ++ [added] ∧ ends added = ends x ∧
           ends x ∉ (ends <$> es).
Proof.
  unfold merge_edge.
  destruct (list_find (same_ends x) es) as [[i found]|] eqn:E.
  - left. split; [reflexivity|]. apply list_find_Some in E as (Hl & [Hf Ht] & _).
    apply list_elem_of_fmap. exists found. split.
    + unfold ends. rewrite Hf, Ht. reflexivity.
    + apply list_elem_of_lookup. exists i. exact Hl.
  - right. apply list_find_None in E.
    assert (Hnot : ends x ∉ (ends <$> es)).
    { intros Hin. apply list_elem_of_fmap in Hin as (e & He & Hin).
      rewrite Forall_forall in E. apply (E e Hin).
      unfold ends in He. injection He as Hf Ht. split; congruence. }
    destruct (Js.truthy (e_id x)); simpl; eexists; (split; [reflexivity|]);
      (split; [reflexivity|exact Hnot]).
Qed.

Lemma merge_edges_prefix (o : Oracle) (items es : list Edge) (k : nat) :
  es `prefix_of` (fold_left (merge_edge o) items (es, k)).1 ∧
  (length (fold_left (merge_edge o) items (es, k)).1 <= length es + length items)%nat.
Proof.
  revert es k. induction items as [|x items IH]; intros es k.
  - simpl. split; [reflexivity|lia].
  - rewrite fold_left_step.
    pose proof (merge_edge_step o es k x) as Hx.
    destruct (merge_edge o (es, k) x) as [es1 k1]. cbn [fst] in Hx.
    destruct (IH es1 k1) as [Hp Hl].
    destruct Hx as [[E _]|(added & E & _ & _)]; subst es1.
    + split; [exact Hp|simpl; lia].
    + split.
      * etransitivity; [|exact Hp]. apply prefix_app_r. reflexivity.
      * rewrite length_app in Hl. simpl in *. lia.
Qed.

(** X3. A merge keeps every node of the existing graph in its place with
    its id, label, type, level, colour and size, and every edge of the
    existing graph in its place: the ids and labels of the existing nodes,
    and the existing edges, are prefixes of those of the result (whatever
    is new comes after them), and the result has at most as many more
    nodes and edges as the delta has. *)
Theorem X3_merge_keeps_existing_in_place (o : Oracle) (existing : Graph)
  (delta : Updates) :
  let merged := mergeMindmapUpdates o existing delta in
  (n_id <$> nodes existing) `prefix_of` (n_id <$> nodes merged) ∧
  (n_label <$> nodes existing) `prefix_of` (n_label <$> nodes merged) ∧
  ((fun n => (n_type n, n_level n, n_color n, n_size n)) <$> nodes existing)
    `prefix_of`
    ((fun n => (n_type n, n_level n, n_color n, n_size n)) <$> nodes merged) ∧
  edges existing `prefix_of` edges merged ∧
  (length (nodes merged) <= length (nodes existing) + length (u_nodes delta))%nat ∧
  (length (edges merged) <= length (edges existing) + length (u_edges delta))%nat.
Proof.
  intros merged. unfold merged. rewrite merge_nodes_eq, merge_edges_eq.
  split; [apply merge_nodes_proj; reflexivity|].
  split; [apply merge_nodes_proj; reflexivity|].
  split; [apply (merge_nodes_proj (fun n => (n_type n, n_level n, n_color n, n_size n)));
          reflexivity|].
  split; [apply merge_edges_prefix|].
  split; [apply (merge_nodes_proj n_id); reflexivity|apply merge_edges_prefix].
Qed.

Lemma merge_edges_nodup (o : Oracle) (items es : list Edge) (k : nat) :
  NoDup (ends <$> es) ->
  NoDup (ends <$> (fold_left (merge_edge o) items (es, k)).1).
Proof.
  revert es k. induction items as [|x items IH]; intros es k Hn; [exact Hn|].
  rewrite fold_left_step.
  pose proof (merge_edge_step o es k x) as Hx.
  destruct (merge_edge o (es, k) x) as [es1 k1]. cbn [fst] in Hx. apply IH.
  destruct Hx as [[-> _]|(added & -> & Hends & Hnot)]; [exact Hn|].
  rewrite fmap_app. apply NoDup_app. split; [exact Hn|]. split.
  - intros p Hp Hp'. simpl in Hp'. apply list_elem_of_singleton in Hp'.
    subst p. rewrite Hends in Hp. contradiction.
  - simpl. apply NoDup_singleton.
Qed.

(** X4. If no two edges of the existing graph have the same (from, to)
    pair, no two edges of the merged graph have: the merge never creates a
    parallel edge, whatever the delta repeats. *)
Theorem X4_merge_keeps_edge_pairs_unique (o : Oracle) (existing : Graph)
  (delta : Updates) :
  NoDup (ends <$> edges existing) ->
  NoDup (ends <$> edges (mergeMindmapUpdates o existing delta)).
Proof. intros H. rewrite merge_edges_eq. apply merge_edges_nodup. exact H. Qed.

(** X4 on the triangle and a delta that brings the same new edge twice
    and an edge the graph has. *)
Lemma X4_merge_keeps_edge_pairs_unique_witness :
  NoDup (ends <$> edges triangle_graph) ∧
  NoDup (ends <$> edges (mergeMindmapUpdates (sample_clock 1000) triangle_graph
           {| u_nodes := [];
              u_edges := [plain_edge "e7" "b" "a"; plain_edge "e8" "b" "a";
                          plain_edge "e9" "a" "b"] |})).
Proof.
  assert (H : NoDup (ends <$> edges triangle_graph)) by compute_done.
  split; [exact H|]. apply (X4_merge_keeps_edge_pairs_unique _ _ _ H).
Defined.

(** ** Merge: the same delta again, and nodes without a label *)

Lemma covered_find (x : Node) (ns : list Node) :
  covered (n_label <$> ns) (n_label x) ↔ list_find (similar_to x) ns ≠ None.
Proof.
  unfold covered. rewrite Exists_fmap. split.
  - intros H E. apply list_find_None in E. rewrite Forall_forall in E.
    apply Exists_exists in H as (e & He & Hs). apply (E e He). exact Hs.
  - intros H. destruct (list_find (similar_to x) ns) as [[i e]|] eqn:E; [|contradiction].
    apply list_find_Some in E as (Hl & Hs & _). apply Exists_exists.
    exists e. split; [apply list_elem_of_lookup; exists i; exact Hl|exact Hs].
Qed.

Lemma covered_prefix (labels labels' : list string) (l : string) :
  labels `prefix_of` labels' -> covered labels l -> covered labels' l.
Proof. intros [k ->] H. apply Exists_app. left. exact H. Qed.

Lemma merge_node_covered (o : Oracle) (ns : list Node) (k : nat) (x : Node) :
  covered (n_label <$> ns) (n_label x) ->
  (merge_node o (ns, k) x).2 = k ∧
  ∀ A (f : Node -> A), (∀ e idx, f (add_indices e idx) = f e) ->
    f <$> (merge_node o (ns, k) x).1 = f <$> ns.
Proof.
  intros Hc. apply covered_find in Hc. split.
  - unfold merge_node. destruct (list_find (similar_to x) ns) as [[i e]|]; [|contradiction].
    destruct (n_metadata x ≫= transcriptIndices); reflexivity.
  - intros A f Hf. destruct (merge_node_proj f o ns k x Hf) as [E|(a & _ & _ & E)];
      [exact E|contradiction].
Qed.

Lemma merge_node_covers (o : Oracle) (ns : list Node) (k : nat) (x : Node) :
  Js.truthy (n_label x) = true ->
  covered (n_label <$> (merge_node o (ns, k) x).1) (n_label x).
Proof.
  intros Ht.
  destruct (merge_node_proj n_label o ns k x ltac:(reflexivity))
    as [E|(a & E & Ha & Hnone)].
  - rewrite E. apply covered_find. intros Hnone.
    unfold merge_node in E. rewrite Hnone in E.
    destruct (Js.truthy (n_id x)); simpl in E; rewrite fmap_app in E;
      apply (f_equal length) in E; rewrite length_app in E; simpl in E; lia.
  - rewrite E, fmap_app. apply Exists_app. right. simpl. constructor.
    rewrite <- Ha. simpl. apply nodesSimilar_refl. rewrite <- Ha in Ht. exact Ht.
Qed.

Lemma merge_nodes_cover (o : Oracle) (items ns : list Node) (k : nat) :
  Forall (fun x => Js.truthy (n_label x) = true) items ->
  Forall (fun x => covered (n_label <$> (fold_left (merge_node o) items (ns, k)).1)
                     (n_label x)) items.
Proof.
  revert ns k. induction items as [|x items IH]; intros ns k Ht; [constructor|].
  apply Forall_cons in Ht as [Hx Ht]. rewrite fold_left_step.
  pose proof (merge_node_covers o ns k x Hx) as Hc.
  destruct (merge_node o (ns, k) x) as [ns1 k1]. cbn [fst] in Hc.
  constructor; [|apply IH; exact Ht].
  eapply covered_prefix; [|exact Hc].
  apply (merge_nodes_proj n_label). reflexivity.
Qed.

Lemma merge_nodes_all_covered {A} (f : Node -> A) (o : Oracle)
  (items ns : list Node) (k : nat) :
  (∀ e idx, f (add_indices e idx) = f e) ->
  Forall (fun x => covered (n_label <$> ns) (n_label x)) items ->
  f <$> (fold_left (merge_node o) items (ns, k)).1 = f <$> ns ∧
  (fold_left (merge_node o) items (ns, k)).2 = k.
Proof.
  intros Hf. revert ns k. induction items as [|x items IH]; intros ns k Hc.
  - split; reflexivity.
  - apply Forall_cons in Hc as [Hx Hc]. rewrite fold_left_step.
    destruct (merge_node_covered o ns k x Hx) as [Hk Hsame].
    destruct (merge_node o (ns, k) x) as [ns1 k1]. cbn [fst snd] in *. subst k1.
    destruct (IH ns1 k) as [E1 E2].
    + rewrite (Hsame _ n_label) by reflexivity. exact Hc.
    + split; [rewrite E1; apply Hsame; exact Hf|exact E2].
Qed.

Lemma merge_edges_have_ends (o : Oracle) (items es : list Edge) (k : nat) :
  Forall (fun x => ends x ∈ (ends <$> (fold_left (merge_edge o) items (es, k)).1))
    items.
Proof.
  revert es k. induction items as [|x items IH]; intros es k; [constructor|].
  rewrite fold_left_step.
  pose proof (merge_edge_step o es k x) as Hx.
  destruct (merge_edge o (es, k) x) as [es1 k1]. cbn [fst] in Hx.
  constructor; [|apply IH].
  destruct (merge_edges_prefix o items es1 k1) as [[rest ->] _].
  rewrite fmap_app. apply elem_of_app. left.
  destruct Hx as [[-> H]|(added & -> & Hends & _)]; [exact H|].
  rewrite fmap_app. apply elem_of_app. right. simpl.
  apply list_elem_of_singleton. symmetry. exact Hends.
Qed.

Lemma merge_edges_all_known (o : Oracle) (items es : list Edge) (k : nat) :
  Forall (fun x => ends x ∈ (ends <$> es)) items ->
  (fold_left (merge_edge o) items (es, k)).1 = es.
Proof.
  revert k. induction items as [|x items IH]; intros k Hc; [reflexivity|].
  apply Forall_cons in Hc as [Hx Hc]. rewrite fold_left_step.
  pose proof (merge_edge_step o es k x) as Hs.
  destruct (merge_edge o (es, k) x) as [es1 k1]. cbn [fst] in Hs.
  destruct Hs as [[-> _]|(added & _ & _ & Hnot)]; [apply IH; exact Hc|contradiction].
Qed.

(** X5. Merging a delta a second time adds nothing, provided every node
    of the delta has a non-empty label: the second merge leaves the ids
    and labels of the nodes and the whole list of edges as the first merge
    made them (each delta node finds a similar node, each delta edge finds
    its pair), and only adds 1 to the version. *)
Theorem X5_merging_again_adds_nothing (o1 o2 : Oracle) (existing : Graph)
  (delta : Updates) :
  Forall (fun x => Js.truthy (n_label x) = true) (u_nodes delta) ->
  let once := mergeMindmapUpdates o1 existing delta in
  let twice := mergeMindmapUpdates o2 once delta in
  n_id <$> nodes twice = n_id <$> nodes once ∧
  n_label <$> nodes twice = n_label <$> nodes once ∧
  edges twice = edges once ∧
  graph_version twice = graph_version once + 1.
Proof.
  intros Ht once twice.
  assert (Hc : Forall (fun x => covered (n_label <$> nodes once) (n_label x))
                 (u_nodes delta)).
  { unfold once. rewrite merge_nodes_eq. apply merge_nodes_cover. exact Ht. }
  assert (He : Forall (fun x => ends x ∈ (ends <$> edges once)) (u_edges delta)).
  { unfold once. rewrite merge_edges_eq. apply merge_edges_have_ends. }
  unfold twice. rewrite !merge_nodes_eq, merge_edges_eq, merge_version.
  split; [apply (merge_nodes_all_covered n_id); [reflexivity|exact Hc]|].
  split; [apply (merge_nodes_all_covered n_label); [reflexivity|exact Hc]|].
  split; [apply merge_edges_all_known; exact He|reflexivity].
Qed.

(** X5 on the graph with 'Budget' and the delta with 'Q4 Budget', 'Sales'
    and an edge. *)
Lemma X5_merging_again_adds_nothing_witness :
  let once := mergeMindmapUpdates (sample_clock 1000) budget_graph q4_sales_delta in
  let twice := mergeMindmapUpdates (sample_clock 2000) once q4_sales_delta in
  n_id <$> nodes twice = ["n1"; "n3"] ∧ edges twice = edges once.
Proof.
  intros once twice.
  destruct (X5_merging_again_adds_nothing (sample_clock 1000) (sample_clock 2000)
              budget_graph q4_sales_delta) as (Hid & _ & He & _).
  - repeat constructor.
  - split; [|exact He]. fold once twice in Hid. rewrite Hid. vm_compute. reflexivity.
Defined.

Lemma merge_node_unlabelled (o : Oracle) (ns : list Node) (k : nat) (x : Node) :
  n_label x = EmptyString ->
  ∃ added, (merge_node o (ns, k) x).1 = ns ++ [added] ∧
           with_node_id added (n_id x) = x.
Proof.
  intros Hl.
  destruct (merge_node_proj n_id o ns k x ltac:(reflexivity)) as [E|(a & E & Ha & _)];
    [|exists a; split; assumption].
  exfalso. unfold merge_node in E.
  destruct (list_find (similar_to x) ns) as [[i e]|] eqn:Hf.
  - apply list_find_Some in Hf as (_ & Hs & _). unfold similar_to in Hs.
    rewrite Hl, nodesSimilar_empty_r in Hs. discriminate Hs.
  - destruct (Js.truthy (n_id x)); simpl in E; rewrite fmap_app in E;
      apply (f_equal length) in E; rewrite length_app in E; simpl in E; lia.
Qed.

(** X6. A node that comes without a label (or with an empty one) is never
    merged into another node: the merge appends every node of a delta that
    consists of such nodes, in order, each equal to the incoming node apart
    from a generated id, whatever the graph contains, also when the graph
    already holds the very same nodes. *)
Theorem X6_unlabelled_nodes_always_appended (o : Oracle) (existing : Graph)
  (delta : Updates) :
  Forall (fun x => n_label x = EmptyString) (u_nodes delta) ->
  ∃ added,
    nodes (mergeMindmapUpdates o existing delta) = nodes existing ++ added ∧
    Forall2 (fun a x => with_node_id a (n_id x) = x) added (u_nodes delta).
Proof.
  intros Hl. rewrite merge_nodes_eq.
  generalize (nodes existing) as ns, 0%nat as k.
  induction (u_nodes delta) as [|x items IH]; intros ns k.
  - exists []. rewrite app_nil_r. split; [reflexivity|constructor].
  - apply Forall_cons in Hl as [Hx Hl]. rewrite fold_left_step.
    destruct (merge_node_unlabelled o ns k x Hx) as (a & E & Ha).
    destruct (merge_node o (ns, k) x) as [ns1 k1]. cbn [fst] in E. subst ns1.
    destruct (IH Hl (ns ++ [a]) k1) as (added & E & HF).
    exists (a :: added). rewrite E, <- app_assoc. split; [reflexivity|].
    constructor; assumption.
Qed.

(** X6 on a graph that already holds the unlabelled node. *)
Lemma X6_unlabelled_nodes_always_appended_witness :
  let g := {| nodes := [plain_node "n9" EmptyString]; edges := []; metadata := None |} in
  length (nodes (mergeMindmapUpdates (sample_clock 1000) g
                   {| u_nodes := [plain_node "n9" EmptyString]; u_edges := [] |}))
  = 2%nat.
Proof.
  intros g.
  destruct (X6_unlabelled_nodes_always_appended (sample_clock 1000) g
              {| u_nodes := [plain_node "n9" EmptyString]; u_edges := [] |})
    as (added & E & HF).
  - repeat constructor.
  - rewrite E, length_app. apply Forall2_length in HF. rewrite HF. reflexivity.
Defined.

(** ** Summarization: the groups and their summary nodes *)

Lemma members_none (l : N) (m : list (N * list Node)) :
  l ∉ (fst <$> m) -> members l m = [].
Proof.
  unfold members. induction m as [|[l0 g0] m IH]; simpl; intros H; [reflexivity|].
  apply not_elem_of_cons in H as [H0 H].
  destruct (N.eqb_spec l0 l) as [->|_]; [contradiction H0; reflexivity|].
  apply IH. exact H.
Qed.

Lemma members_cons (l l0 : N) (g0 : list Node) (m : list (N * list Node)) :
  members l ((l0, g0) :: m) = (if (l0 =? l)%N then g0 else []) ++ members l m.
Proof. unfold members. simpl. destruct (l0 =? l)%N; reflexivity. Qed.

Lemma key_order_fresh (level : N) (keys : list N) :
  Forall (key_order level) keys -> level ∉ keys.
Proof.
  intros H Hin. rewrite Forall_forall in H. destruct (H level Hin) as [Hne _].
  apply Hne. reflexivity.
Qed.


(** A new array index is put before the keys that must come after it. *)
Lemma byLevel_push_front (level l0 : N) (keys : list N) :
  StronglySorted key_order (l0 :: keys) -> level ≠ l0 ->
  is_array_index level && (negb (is_array_index l0) || (level <? l0)%N) = true ->
  Forall (key_order level) (l0 :: keys).
Proof.
  intros Hs Hne Hc. apply StronglySorted_inv in Hs as [_ H0].
  apply andb_true_iff in Hc as [Hi Hc]. apply orb_true_iff in Hc.
  assert (H1 : is_array_index l0 = true -> (level < l0)%N).
  { intros Hl. destruct Hc as [Hc|Hc]; [rewrite Hl in Hc; discriminate Hc|].
    apply N.ltb_lt. exact Hc. }
  constructor.
  - split; [exact Hne|]. intros Hl. split; [exact Hi|apply H1; exact Hl].
  - rewrite Forall_forall in H0. apply Forall_forall. intros k Hk.
    destruct (H0 k Hk) as [_ Hord]. split.
    + intros ->. unfold is_array_index in *. specialize (Hord Hi) as [Hl Hlt].
      specialize (H1 Hl). lia.
    + intros Hki. destruct (Hord Hki) as [Hl Hlt]. specialize (H1 Hl).
      split; [exact Hi|lia].
Qed.

(** A key that is not put in front of [l0] comes after it. *)
Lemma byLevel_push_behind (level l0 : N) :
  level ≠ l0 ->
  is_array_index level && (negb (is_array_index l0) || (level <? l0)%N) = false ->
  key_order l0 level.
Proof.
  intros Hne Hc. split; [intros E; apply Hne; symmetry; exact E|].
  intros Hi. rewrite Hi in Hc. simpl in Hc. apply orb_false_iff in Hc as [Hl Hlt].
  apply negb_false_iff in Hl. apply N.ltb_ge in Hlt. split; [exact Hl|lia].
Qed.

Lemma byLevel_push_keys (level : N) (node : Node) (m : list (N * list Node)) (k : N) :
  k ∈ (fst <$> byLevel_push level node m) -> k = level ∨ k ∈ (fst <$> m).
Proof.
  induction m as [|[l0 g0] m IH]; simpl.
  - intros H. apply list_elem_of_singleton in H. left. exact H.
  - destruct (level =? l0)%N; [intros H; right; exact H|].
    destruct (is_array_index level && _); simpl.
    + intros H. apply elem_of_cons in H as [H|H]; [left; exact H|right; exact H].
    + intros H. apply elem_of_cons in H as [H|H].
      * right. apply elem_of_cons. left. exact H.
      * destruct (IH H) as [E|Hin]; [left; exact E|].
        right. apply elem_of_cons. right. exact Hin.
Qed.

Lemma byLevel_push_ordered (level : N) (node : Node) (m : list (N * list Node)) :
  StronglySorted key_order (fst <$> m) ->
  StronglySorted key_order (fst <$> byLevel_push level node m).
Proof.
  induction m as [|[l0 g0] m IH]; simpl; intros Hs.
  - repeat constructor.
  - destruct (N.eqb_spec level l0) as [->|Hne]; [exact Hs|].
    destruct (is_array_index level && _) eqn:Hc; simpl.
    + constructor; [exact Hs|]. apply (byLevel_push_front level l0 _ Hs Hne Hc).
    + pose proof (byLevel_push_behind level l0 Hne Hc) as Hb.
      apply StronglySorted_inv in Hs as [Hs H0].
      constructor; [apply IH; exact Hs|].
      apply Forall_forall. intros k Hk.
      apply byLevel_push_keys in Hk as [->|Hk]; [exact Hb|].
      rewrite Forall_forall in H0. apply H0. exact Hk.
Qed.

Lemma members_push (l level : N) (node : Node) (m : list (N * list Node)) :
  StronglySorted key_order (fst <$> m) ->
  members l (byLevel_push level node m) =
  members l m ++ (if (level =? l)%N then [node] else []).
Proof.
  induction m as [|[l0 g0] m IH]; simpl; intros Hs.
  - rewrite members_cons. unfold members. simpl. rewrite app_nil_r. reflexivity.
  - destruct (N.eqb_spec level l0) as [->|Hne].
    + apply StronglySorted_inv in Hs as [Hs H0].
      rewrite !members_cons. destruct (N.eqb_spec l0 l) as [->|_].
      * rewrite (members_none l m) by (apply key_order_fresh; exact H0).
        rewrite !app_nil_r. reflexivity.
      * simpl. rewrite app_nil_r. reflexivity.
    + destruct (is_array_index level && _) eqn:Hc.
      * rewrite members_cons. destruct (N.eqb_spec level l) as [->|_].
        -- rewrite (members_none l ((l0, g0) :: m)); [reflexivity|].
           apply key_order_fresh. apply (byLevel_push_front l l0 _ Hs Hne Hc).
        -- simpl. rewrite app_nil_r. reflexivity.
      * apply StronglySorted_inv in Hs as [Hs H0].
        rewrite !members_cons, (IH Hs), app_assoc. reflexivity.
Qed.


Lemma byLevel_push_nonempty (level : N) (node : Node) (m : list (N * list Node)) :
  Forall (fun p => p.2 ≠ []) m ->
  Forall (fun p => p.2 ≠ []) (byLevel_push level node m).
Proof.
  induction m as [|[l0 g0] m IH]; simpl; intros H.
  - repeat constructor. discriminate.
  - apply Forall_cons in H as [H0 H].
    destruct (level =? l0)%N.
    + constructor; [|exact H]. simpl. intros E. apply app_eq_nil in E as [_ E].
      discriminate E.
    + destruct (is_array_index level && _).
      * constructor; [discriminate|]. constructor; assumption.
      * constructor; [exact H0|]. apply IH. exact H.
Qed.

Lemma byLevel_push_perm (level : N) (node : Node) (m : list (N * list Node)) :
  mjoin (snd <$> byLevel_push level node m) ≡ₚ node :: mjoin (snd <$> m).
Proof.
  induction m as [|[l0 g0] m IH]; simpl; [reflexivity|].
  destruct (level =? l0)%N; simpl.
  - rewrite <- app_assoc. rewrite (Permutation_app_comm [node]).
    rewrite app_assoc. symmetry. apply Permutation_cons_append.
  - destruct (is_array_index level && _); simpl; [reflexivity|].
    rewrite IH. symmetry. apply Permutation_middle.
Qed.



(** What the grouping loop has built: keys without repetition in the
    order of [Object.keys], no empty group, under each key the nodes of
    that level in their order, and every node in one group. *)
Lemma group_by_level_spec (olderNodes : list Node) :
  let groups := group_by_level olderNodes in
  StronglySorted key_order (fst <$> groups) ∧
  Forall (fun p => p.2 ≠ []) groups ∧
  (∀ l, members l groups = of_level l olderNodes) ∧
  mjoin (snd <$> groups) ≡ₚ olderNodes.
Proof.
  unfold group_by_level.
  assert (H : ∀ m,
    StronglySorted key_order (fst <$> m) -> Forall (fun p => p.2 ≠ []) m ->
    let groups := fold_left (fun m node => byLevel_push (level_key node) node m)
                    olderNodes m in
    StronglySorted key_order (fst <$> groups) ∧
    Forall (fun p => p.2 ≠ []) groups ∧
    (∀ l, members l groups = members l m ++ of_level l olderNodes) ∧
    mjoin (snd <$> groups) ≡ₚ mjoin (snd <$> m) ++ olderNodes).
  { induction olderNodes as [|x xs IH]; intros m Hs Hn; simpl.
    - split; [exact Hs|]. split; [exact Hn|]. split.
      + intros l. rewrite app_nil_r. reflexivity.
      + rewrite app_nil_r. reflexivity.
    - destruct (IH (byLevel_push (level_key x) x m)) as (I1 & I2 & I3 & I4).
      + apply byLevel_push_ordered. exact Hs.
      + apply byLevel_push_nonempty. exact Hn.
      + split; [exact I1|]. split; [exact I2|]. split.
        * intros l. rewrite I3, members_push by exact Hs.
          unfold of_level. simpl. rewrite <- app_assoc.
          destruct (level_key x =? l)%N; reflexivity.
        * rewrite I4, byLevel_push_perm. simpl. apply Permutation_middle. }
  cbv zeta. destruct (H [] ltac:(constructor) ltac:(constructor))
    as (I1 & I2 & I3 & I4).
  split; [exact I1|]. split; [exact I2|]. split; [exact I3|exact I4].
Qed.







Lemma summarized_ids_cons (s : Node) (rest : list Node) :
  summarized_ids (s :: rest) =
  default [] (n_metadata s ≫= summarizedNodes) ++ summarized_ids rest.
Proof. reflexivity. Qed.

Lemma summaries_levels (o : Oracle) (k : nat) (m : list (N * list Node)) :
  Forall (fun p => p.2 ≠ []) m ->
  n_level <$> summaries_of o k m = fst <$> m ∧
  summarized_ids (summaries_of o k m) = n_id <$> mjoin (snd <$> m) ∧
  length (summaries_of o k m) = length m.
Proof.
  revert k. induction m as [|[l g] m IH]; intros k H; [repeat split|].
  apply Forall_cons in H as [Hg H]. simpl in Hg.
  destruct g as [|x g]; [contradiction|].
  destruct (IH (S k) H) as (I1 & I2 & I3).
  change (summaries_of o k ((l, x :: g) :: m))
    with (summary_node o k l (x :: g) :: summaries_of o (S k) m).
  rewrite summarized_ids_cons, !fmap_cons, I1, I2, length_cons, I3.
  split; [reflexivity|]. split; [|reflexivity].
  change (mjoin (snd (l, x :: g) :: (snd <$> m)))
    with ((x :: g) ++ mjoin (snd <$> m)).
  rewrite fmap_app. reflexivity.
Qed.

Lemma groups_count (m : list (N * list Node)) :
  Forall (fun p => p.2 ≠ []) m -> (length m <= length (mjoin (snd <$> m)))%nat.
Proof.
  induction m as [|[l g] m IH]; intros H; [reflexivity|].
  apply Forall_cons in H as [Hg H]. specialize (IH H).
  change (mjoin (snd <$> (l, g) :: m)) with (g ++ mjoin (snd <$> m)).
  rewrite length_app, length_cons. simpl in Hg.
  destruct g as [|x g]; [contradiction|]. rewrite length_cons. lia.
Qed.

Lemma summaries_length_le (o : Oracle) (olderNodes : list Node) :
  (length (createSummaryNodes o olderNodes) <= length olderNodes)%nat.
Proof.
  unfold createSummaryNodes.
  destruct (group_by_level_spec olderNodes) as (_ & Hn & _ & Hp).
  destruct (summaries_levels o 0 _ Hn) as (_ & _ & E3).
  rewrite E3, <- (Permutation_length Hp). apply groups_count. exact Hn.
Qed.





(** ** Summarization: which nodes stay, which edges go *)

Lemma slice_split {A} (l : list A) (maxNodes : Z) :
  0 < maxNodes < Z.of_nat (length l) ->
  Js.slice l (- maxNodes) None = drop (length l - Z.to_nat maxNodes) l ∧
  Js.slice l 0 (Some (Z.of_nat (length l) - maxNodes)) =
    take (length l - Z.to_nat maxNodes) l.
Proof.
  intros H. unfold Js.slice, Js.rel_index.
  destruct (Z.ltb_spec (- maxNodes) 0); [|lia].
  destruct (Z.ltb_spec (Z.of_nat (length l) - maxNodes) 0); [lia|].
  destruct (Z.ltb_spec 0 0); [lia|].
  replace (Z.to_nat (Z.max (Z.of_nat (length l) + - maxNodes) 0))
    with (length l - Z.to_nat maxNodes)%nat by lia.
  replace (Z.to_nat (Z.min (Z.of_nat (length l) - maxNodes) (Z.of_nat (length l))))
    with (length l - Z.to_nat maxNodes)%nat by lia.
  replace (Z.to_nat (Z.min 0 (Z.of_nat (length l)))) with 0%nat by lia.
  split.
  - apply take_ge. rewrite length_drop. lia.
  - rewrite Nat.sub_0_r. reflexivity.
Qed.

Lemma slice_all_older {A} (l : list A) (maxNodes : Z) :
  maxNodes <= 0 ->
  Js.slice l 0 (Some (Z.of_nat (length l) - maxNodes)) = l ∧
  (maxNodes = 0 -> Js.slice l (- maxNodes) None = l).
Proof.
  intros H. unfold Js.slice, Js.rel_index. split.
  - destruct (Z.ltb_spec (Z.of_nat (length l) - maxNodes) 0); [lia|].
    destruct (Z.ltb_spec 0 0); [lia|].
    replace (Z.to_nat (Z.min 0 (Z.of_nat (length l)))) with 0%nat by lia.
    simpl. apply take_ge. lia.
  - intros ->. change (- 0) with 0.
    destruct (Z.ltb_spec 0 0); [lia|].
    replace (Z.to_nat (Z.min 0 (Z.of_nat (length l)))) with 0%nat by lia.
    simpl. apply take_ge. lia.
Qed.

Lemma sorted_app_le (l1 l2 : list Node) :
  StronglySorted time_le (l1 ++ l2) ->
  ∀ a b, a ∈ l1 -> b ∈ l2 -> mention_time a <= mention_time b.
Proof.
  induction l1 as [|x l1 IH]; simpl; intros Hs a b Ha Hb.
  - apply elem_of_nil in Ha. contradiction.
  - apply StronglySorted_inv in Hs as [Hs Hx].
    apply elem_of_cons in Ha as [->|Ha]; [|apply IH; assumption].
    rewrite Forall_forall in Hx. apply Hx. apply elem_of_app. right. exact Hb.
Qed.

Lemma summarize_above (o : Oracle) (g : Graph) (maxNodes : Z) :
  maxNodes < Z.of_nat (length (nodes g)) ->
  summarizeOlderNodes o g maxNodes =
  {| nodes := recent_nodes g maxNodes ++ createSummaryNodes o (older_nodes g maxNodes);
     edges := updateEdgesForSummaries (edges g) (older_nodes g maxNodes)
                (createSummaryNodes o (older_nodes g maxNodes));
     metadata := metadata g |}.
Proof.
  intros H. unfold summarizeOlderNodes.
  destruct (Z.leb_spec (Z.of_nat (length (nodes g))) maxNodes); [lia|reflexivity].
Qed.

(** X9. Summarizing a graph of n nodes with 0 < maxNodes < n keeps
    exactly the maxNodes most recently mentioned nodes, unchanged, and
    collapses the other n - maxNodes: no collapsed node was first mentioned
    after a kept one, and kept and collapsed nodes together are the nodes
    of the input.  The result holds the kept nodes followed by at least one
    summary node, so it has more than maxNodes nodes and at most n. *)
Theorem X9_summarize_keeps_most_recent (o : Oracle) (g : Graph) (maxNodes : Z) :
  0 < maxNodes < Z.of_nat (length (nodes g)) ->
  let kept := recent_nodes g maxNodes in
  let collapsed := older_nodes g maxNodes in
  let result := summarizeOlderNodes o g maxNodes in
  nodes result = kept ++ createSummaryNodes o collapsed ∧
  Z.of_nat (length kept) = maxNodes ∧
  collapsed ++ kept ≡ₚ nodes g ∧
  (∀ a b, a ∈ collapsed -> b ∈ kept -> mention_time a <= mention_time b) ∧
  maxNodes < Z.of_nat (length (nodes result)) <= Z.of_nat (length (nodes g)).
Proof.
  intros H kept collapsed result.
  assert (Hlen : length (sort_by_time (nodes g)) = length (nodes g))
    by apply sort_by_time_length.
  destruct (slice_split (sort_by_time (nodes g)) maxNodes) as [Hr Ho]; [lia|].
  assert (Ek : kept = drop (length (nodes g) - Z.to_nat maxNodes) (sort_by_time (nodes g))).
  { unfold kept, recent_nodes. rewrite Hr, Hlen. reflexivity. }
  assert (Ec : collapsed = take (length (nodes g) - Z.to_nat maxNodes)
                             (sort_by_time (nodes g))).
  { unfold collapsed, older_nodes. rewrite Ho, Hlen. reflexivity. }
  assert (Hlk : length kept = Z.to_nat maxNodes) by (rewrite Ek, length_drop; lia).
  assert (Hlc : length collapsed = (length (nodes g) - Z.to_nat maxNodes)%nat)
    by (rewrite Ec, length_take; lia).
  assert (Hsum : (1 <= length (createSummaryNodes o collapsed) <= length collapsed)%nat).
  { split; [|apply summaries_length_le].
    destruct collapsed as [|x rest] eqn:E; [simpl in Hlc; lia|].
    destruct (old_id_summarized o (x :: rest) (n_id x)) as (s & Hs & _).
    - apply id_of_elem. apply elem_of_cons. left. reflexivity.
    - destruct (createSummaryNodes o (x :: rest)); [apply elem_of_nil in Hs; contradiction|].
      simpl. lia. }
  split; [unfold result; rewrite summarize_above by lia; reflexivity|].
  split; [lia|]. split; [|split].
  - rewrite Ec, Ek, take_drop. apply sort_by_time_perm.
  - apply sorted_app_le. rewrite Ec, Ek, take_drop. apply sort_by_time_sorted.
  - unfold result. rewrite summarize_above by lia. simpl.
    fold kept collapsed. rewrite length_app. lia.
Qed.

(** X9 on the triangle with the bound 2. *)
Lemma X9_summarize_keeps_most_recent_witness :
  n_id <$> recent_nodes triangle_graph 2 = ["c"; "a"] ∧
  n_id <$> older_nodes triangle_graph 2 = ["b"] ∧
  length (nodes (summarizeOlderNodes (sample_clock 1000) triangle_graph 2)) = 3%nat.
Proof.
  destruct (X9_summarize_keeps_most_recent (sample_clock 1000) triangle_graph 2)
    as (E & _ & _ & _ & _); [simpl; lia|].
  split; [reflexivity|]. split; [reflexivity|]. rewrite E. reflexivity.
Defined.

Lemma update_edge_none_iff (o : Oracle) (olderNodes : list Node) (edge : Edge) :
  update_edge (n_id <$> olderNodes) (createSummaryNodes o olderNodes) edge = None ↔
  e_from edge ∈ (n_id <$> olderNodes) ∧ e_to edge ∈ (n_id <$> olderNodes).
Proof.
  destruct (one_old_end_redirected o olderNodes edge) as [H1 H2].
  destruct (decide (e_from edge ∈ (n_id <$> olderNodes))) as [Hf|Hf];
    destruct (decide (e_to edge ∈ (n_id <$> olderNodes))) as [Ht|Ht].
  - split; [tauto|]. intros _. unfold update_edge.
    rewrite !bool_decide_eq_true_2 by assumption. reflexivity.
  - destruct (H1 Hf Ht) as (s & _ & _ & E). rewrite E. split; [discriminate|tauto].
  - destruct (H2 Hf Ht) as (s & _ & _ & E). rewrite E. split; [discriminate|tauto].
  - unfold update_edge. rewrite !bool_decide_eq_false_2 by assumption. simpl.
    split; [discriminate|tauto].
Qed.

Lemma omap_length_filter {A B} (f : A -> option B) (l : list A) :
  length (omap f l) =
  length (List.filter (fun x => match f x with Some _ => true | None => false end) l).
Proof.
  induction l as [|x l IH]; [reflexivity|].
  change (omap f (x :: l))
    with (match f x with Some y => y :: omap f l | None => omap f l end).
  cbn [List.filter]. destruct (f x); cbn [length]; rewrite IH; reflexivity.
Qed.

(** X10. When a graph is summarized (its node count exceeding
    [maxNodes]), exactly the edges with both ends among the collapsed nodes
    are dropped: every other edge yields one edge of the result, in the
    same order, and an edge with no collapsed end is passed on unchanged.
    No edge is lost for want of a summary node. *)
Theorem X10_only_inner_edges_dropped (o : Oracle) (g : Graph) (maxNodes : Z) :
  maxNodes < Z.of_nat (length (nodes g)) ->
  let collapsed := n_id <$> older_nodes g maxNodes in
  let result := summarizeOlderNodes o g maxNodes in
  length (edges result) =
    length (List.filter
              (fun e => negb (bool_decide (e_from e ∈ collapsed) &&
                              bool_decide (e_to e ∈ collapsed)))
              (edges g)) ∧
  (∀ e, e ∈ edges g -> e_from e ∉ collapsed -> e_to e ∉ collapsed ->
        e ∈ edges result).
Proof.
  intros H collapsed result. unfold result. rewrite summarize_above by exact H.
  simpl. unfold updateEdgesForSummaries. fold collapsed. split.
  - rewrite omap_length_filter. f_equal. apply List.filter_ext. intros e.
    destruct (update_edge collapsed _ e) eqn:E.
    + symmetry. apply negb_true_iff. apply andb_false_iff.
      destruct (decide (e_from e ∈ collapsed)) as [Hf|Hf];
        [|left; apply bool_decide_eq_false_2; exact Hf].
      destruct (decide (e_to e ∈ collapsed)) as [Ht|Ht];
        [|right; apply bool_decide_eq_false_2; exact Ht].
      assert (update_edge collapsed
                (createSummaryNodes o (older_nodes g maxNodes)) e = None)
        by (apply update_edge_none_iff; split; assumption).
      congruence.
    + apply update_edge_none_iff in E as [Hf Ht].
      rewrite !bool_decide_eq_true_2 by assumption. reflexivity.
  - intros e He Hf Ht. apply list_elem_of_omap. exists e. split; [exact He|].
    unfold update_edge. rewrite !bool_decide_eq_false_2 by assumption. reflexivity.
Qed.

(** X10 on the triangle with the bound 2: none of its three edges has
    both ends on the collapsed node, and the edge from c to a has none. *)
Lemma X10_only_inner_edges_dropped_witness :
  length (edges (summarizeOlderNodes (sample_clock 1000) triangle_graph 2)) = 3%nat ∧
  plain_edge "e3" "c" "a" ∈ edges (summarizeOlderNodes (sample_clock 1000) triangle_graph 2).
Proof.
  destruct (X10_only_inner_edges_dropped (sample_clock 1000) triangle_graph 2)
    as [Hl Hk]; [simpl; lia|].
  split; [rewrite Hl; reflexivity|].
  apply Hk; [|compute_done|compute_done].
  do 2 (apply elem_of_cons; right). apply elem_of_cons. left. reflexivity.
Defined.

(** X11. With [maxNodes] at or below 0 and a graph that has nodes, the
    size bound does not bound: every node counts as an older node and is
    collapsed into the summary nodes, every edge of a graph without
    dangling edges is dropped, and with [maxNodes] = 0 every node is also
    kept as a recent node ([slice(-0)] is the whole array), so that the
    result has all the nodes of the input, sorted, followed by the summary
    nodes, and is larger than the input. *)
Theorem X11_summarize_nonpositive_bound (o : Oracle) (g : Graph) (maxNodes : Z) :
  maxNodes <= 0 -> nodes g ≠ [] ->
  let result := summarizeOlderNodes o g maxNodes in
  older_nodes g maxNodes = sort_by_time (nodes g) ∧
  (no_dangling g -> edges result = []) ∧
  (maxNodes = 0 ->
   nodes result = sort_by_time (nodes g) ++
                  createSummaryNodes o (sort_by_time (nodes g)) ∧
   (length (nodes g) < length (nodes result))%nat).
Proof.
  intros Hm Hne result.
  assert (Hlt : maxNodes < Z.of_nat (length (nodes g))).
  { destruct (nodes g); [contradiction|]. simpl. lia. }
  destruct (slice_all_older (sort_by_time (nodes g)) maxNodes Hm) as [Ho Hr].
  assert (Eo : older_nodes g maxNodes = sort_by_time (nodes g)) by exact Ho.
  unfold result. rewrite summarize_above by exact Hlt. simpl. rewrite Eo.
  split; [reflexivity|]. split.
  - intros Hd. unfold updateEdgesForSummaries. unfold no_dangling in Hd.
    assert (Hids : ∀ id, id ∈ (n_id <$> nodes g) ->
                         id ∈ (n_id <$> sort_by_time (nodes g))).
    { intros id Hid. apply list_elem_of_fmap in Hid as (n & -> & Hn).
      apply id_of_elem, sort_by_time_elem. exact Hn. }
    revert Hd. generalize (edges g) as es.
    induction es as [|e es IH]; intros Hd; [reflexivity|].
    apply Forall_cons in Hd as [[Hf Ht] Hd].
    change (omap ?f (e :: es))
      with (match f e with Some y => y :: omap f es | None => omap f es end).
    rewrite (proj2 (update_edge_none_iff o (sort_by_time (nodes g)) e));
      [apply IH; exact Hd|]. split; apply Hids; assumption.
  - intros ->. unfold recent_nodes. rewrite (Hr eq_refl). split; [reflexivity|].
    rewrite length_app, sort_by_time_length.
    destruct (nodes g) as [|x rest] eqn:E; [contradiction|].
    destruct (old_id_summarized o (sort_by_time (x :: rest)) (n_id x)) as (s & Hs & _).
    + apply id_of_elem, sort_by_time_elem. apply elem_of_cons. left. reflexivity.
    + destruct (createSummaryNodes o (sort_by_time (x :: rest)));
        [apply elem_of_nil in Hs; contradiction|]. simpl. lia.
Qed.

(** X11 on the triangle with the bound 0: five nodes, no edge. *)
Lemma X11_summarize_nonpositive_bound_witness :
  length (nodes (summarizeOlderNodes (sample_clock 1000) triangle_graph 0)) = 5%nat ∧
  edges (summarizeOlderNodes (sample_clock 1000) triangle_graph 0) = [].
Proof.
  destruct (X11_summarize_nonpositive_bound (sample_clock 1000) triangle_graph 0)
    as (_ & He & Hn); [lia|discriminate|].
  split; [rewrite (proj1 (Hn eq_refl)); reflexivity|].
  apply He. compute_done.
Defined.

(** ** The update cycle: attempts, commit, failure of the save *)

Lemma retries_cases (generate : nat -> Outcome Updates) :
  (∃ d, generate 0%nat = Returns d ∧
        generate_with_retries generate 0 3 None = (Some d, None)) ∨
  (∃ m0 d, generate 0%nat = Throws m0 ∧ generate 1%nat = Returns d ∧
           generate_with_retries generate 0 3 None = (Some d, Some m0)) ∨
  (∃ m0 m1 d, generate 0%nat = Throws m0 ∧ generate 1%nat = Throws m1 ∧
              generate 2%nat = Returns d ∧
              generate_with_retries generate 0 3 None = (Some d, Some m1)) ∨
  (∃ m0 m1 m2, generate 0%nat = Throws m0 ∧ generate 1%nat = Throws m1 ∧
               generate 2%nat = Throws m2 ∧
               generate_with_retries generate 0 3 None = (None, Some m2)).
Proof.
  simpl. destruct (generate 0%nat) as [d0|m0].
  { left. exists d0. split; reflexivity. }
  destruct (generate 1%nat) as [d1|m1].
  { right; left. exists m0, d1. repeat split. }
  destruct (generate 2%nat) as [d2|m2].
  { right; right; left. exists m0, m1, d2. repeat split. }
  right; right; right. exists m0, m1, m2. repeat split.
Qed.

Lemma bound_session (s : Service) :
  no_session s = false -> ∃ c r, currentSessionId s = Some (String c r).
Proof.
  unfold no_session. destruct (currentSessionId s) as [[|c r]|]; try discriminate.
  intros _. exists c, r. reflexivity.
Qed.

Lemma cycle_with_answer (rt : Runtime) (env : CycleEnv) (s : Service)
  (t : Transcript) (ts : list Transcript) (d : Updates) (e : option string) :
  no_session s = false ->
  all_transcripts env = Returns (t :: ts) ->
  generate_with_retries (generate env) 0 3 None = (Some d, e) ->
  updateMindmap rt env s =
  match saveMindmap rt (save_clock env) (repository env) (currentSessionId s)
          (cycle_graph env s d (length (t :: ts))) with
  | Throws msg => on_error (later 1 (clock env)) s msg
  | Returns args =>
      ({| currentMindmap := cycle_graph env s d (length (t :: ts));
          conversationHistory := conversationHistory s;
          currentSessionId := currentSessionId s;
          updateTimer := updateTimer s;
          pendingTranscripts := [] |},
       [SaveSummary args; MindmapUpdate (cycle_graph env s d (length (t :: ts)))])
  end.
Proof.
  intros Hs Ht Hg. unfold updateMindmap. rewrite Hs, Ht, Hg. reflexivity.
Qed.

Lemma saveMindmap_bound (rt : Runtime) (o : Oracle) (repo : Repository)
  (c : ascii) (r : string) (g : Graph) :
  saveMindmap rt o repo (Some (String c r)) g =
  match stored_summary repo with
  | Throws msg => Throws msg
  | Returns existing =>
      match write_result repo with
      | Throws msg => Throws msg
      | Returns _ =>
          Returns (summary_args rt (String c r) (date_now o 0 / 1000) existing g)
      end
  end.
Proof. reflexivity. Qed.

(** X12. In a cycle with a bound session, transcripts and a repository
    that works, the generator is tried at most three times and the first
    attempt that returns decides: the cycle succeeds exactly when one of
    the attempts 0, 1, 2 returns, the graph it installs is built from the
    answer of the first of them that returns, and what later attempts
    would do makes no difference.  When all three throw, the cycle fails
    with the message of the third. *)
Theorem X12_first_returning_attempt_decides (rt : Runtime) (env : CycleEnv)
  (s : Service) (t : Transcript) (ts : list Transcript)
  (existing : option SummaryRow) :
  no_session s = false ->
  all_transcripts env = Returns (t :: ts) ->
  stored_summary (repository env) = Returns existing ->
  write_result (repository env) = Returns tt ->
  (cycle_kind (updateMindmap rt env s).2 = Succeeded ↔
   ∃ k d, (k < 3)%nat ∧ generate env k = Returns d) ∧
  (∀ k d, (k < 3)%nat -> generate env k = Returns d ->
     (∀ j, (j < k)%nat -> ∃ msg, generate env j = Throws msg) ->
     currentMindmap (updateMindmap rt env s).1 =
       cycle_graph env s d (length (t :: ts))) ∧
  (∀ msg, (∀ k, (k < 3)%nat -> ∃ m, generate env k = Throws m) ->
     generate env 2%nat = Throws msg ->
     (updateMindmap rt env s).2 = [StatusUpdate "error" msg]).
Proof.
  intros Hs Ht Hr Hw.
  destruct (bound_session s Hs) as (c & r & Hc).
  assert (Hok : ∀ d e, generate_with_retries (generate env) 0 3 None = (Some d, e) ->
    cycle_kind (updateMindmap rt env s).2 = Succeeded ∧
    currentMindmap (updateMindmap rt env s).1 = cycle_graph env s d (length (t :: ts))).
  { intros d e Hg. rewrite (cycle_with_answer rt env s t ts d e Hs Ht Hg).
    rewrite Hc, saveMindmap_bound, Hr, Hw. split; reflexivity. }
  assert (Hbad : ∀ m, generate_with_retries (generate env) 0 3 None = (None, Some m) ->
    updateMindmap rt env s = on_error (clock env) s m).
  { intros m Hg. unfold updateMindmap. rewrite Hs, Ht, Hg. reflexivity. }
  destruct (retries_cases (generate env))
    as [(d & H0 & Hg)|[(m0 & d & H0 & H1 & Hg)|[(m0 & m1 & d & H0 & H1 & H2 & Hg)
       |(m0 & m1 & m2 & H0 & H1 & H2 & Hg)]]].
  - destruct (Hok d _ Hg) as [Hk Hgr]. split; [|split].
    + split; [intros _; exists 0%nat, d; split; [lia|exact H0]|intros _; exact Hk].
    + intros k d' Hlt Hd Hbefore. destruct k as [|k].
      * rewrite Hgr. congruence.
      * destruct (Hbefore 0%nat ltac:(lia)) as (m & Hm). congruence.
    + intros msg Hall _. destruct (Hall 0%nat ltac:(lia)) as (m & Hm). congruence.
  - destruct (Hok d _ Hg) as [Hk Hgr]. split; [|split].
    + split; [intros _; exists 1%nat, d; split; [lia|exact H1]|intros _; exact Hk].
    + intros k d' Hlt Hd Hbefore. destruct k as [|[|k]].
      * congruence.
      * rewrite Hgr. congruence.
      * destruct (Hbefore 1%nat ltac:(lia)) as (m & Hm). congruence.
    + intros msg Hall _. destruct (Hall 1%nat ltac:(lia)) as (m & Hm). congruence.
  - destruct (Hok d _ Hg) as [Hk Hgr]. split; [|split].
    + split; [intros _; exists 2%nat, d; split; [lia|exact H2]|intros _; exact Hk].
    + intros k d' Hlt Hd Hbefore. destruct k as [|[|[|k]]]; [congruence|congruence| |lia].
      rewrite Hgr. congruence.
    + intros msg Hall _. destruct (Hall 2%nat ltac:(lia)) as (m & Hm). congruence.
  - rewrite (Hbad _ Hg). split; [|split].
    + split; [discriminate|]. intros (k & d & Hlt & Hd).
      destruct k as [|[|[|k]]]; [congruence|congruence|congruence|lia].
    + intros k d Hlt Hd _. destruct k as [|[|[|k]]]; [congruence|congruence|congruence|lia].
    + intros msg _ Hm. rewrite H2 in Hm. injection Hm as <-. reflexivity.
Qed.

(** X12 on a generator that fails twice and then answers. *)
Lemma X12_first_returning_attempt_decides_witness :
  let env := cycle_env (fun k => if (k <? 2)%nat then Throws "No JSON found"
                                 else Returns {| u_nodes := [plain_node "n1" "Budget"];
                                                 u_edges := [] |}) in
  cycle_kind (updateMindmap sample_runtime env bound_service).2 = Succeeded ∧
  n_id <$> nodes (currentMindmap (updateMindmap sample_runtime env bound_service).1)
    = ["n1"].
Proof.
  intros env.
  destruct (X12_first_returning_attempt_decides sample_runtime env bound_service
              (hd (mkTranscript EmptyString EmptyString None) sample_transcripts)
              (tl sample_transcripts) None eq_refl eq_refl eq_refl eq_refl)
    as (Hiff & Hfirst & _).
  split.
  - apply Hiff. exists 2%nat. eexists. split; [lia|reflexivity].
  - rewrite (Hfirst 2%nat _ ltac:(lia) eq_refl); [reflexivity|].
    intros j Hj. exists "No JSON found".
    destruct j as [|[|j]]; [reflexivity|reflexivity|lia].
Defined.

(** X13. When the generator has answered but the repository throws (on
    reading the stored summary or on writing), the graph built in the
    cycle is discarded: the cycle reports the repository's message as an
    error and shows no graph, the pending transcripts are not cleared, and
    a current graph that has nodes stays the current graph with the whole
    service state. *)
Theorem X13_failed_save_discards_new_graph (rt : Runtime) (env : CycleEnv)
  (s : Service) (t : Transcript) (ts : list Transcript) (d : Updates) (msg : string) :
  no_session s = false ->
  all_transcripts env = Returns (t :: ts) ->
  (generate_with_retries (generate env) 0 3 None).1 = Some d ->
  (stored_summary (repository env) = Throws msg ∨
   (∃ existing, stored_summary (repository env) = Returns existing) ∧
   write_result (repository env) = Throws msg) ->
  (updateMindmap rt env s).2 = [StatusUpdate "error" msg] ∧
  pendingTranscripts (updateMindmap rt env s).1 = pendingTranscripts s ∧
  nodes (currentMindmap (updateMindmap rt env s).1) = nodes (currentMindmap s) ∧
  (nodes (currentMindmap s) ≠ [] -> (updateMindmap rt env s).1 = s).
Proof.
  intros Hs Ht Hg Hrepo.
  destruct (generate_with_retries (generate env) 0 3 None) as [d' e] eqn:Hgen.
  simpl in Hg. subst d'.
  destruct (bound_session s Hs) as (c & r & Hc).
  rewrite (cycle_with_answer rt env s t ts d e Hs Ht Hgen), Hc, saveMindmap_bound.
  assert (E : match stored_summary (repository env) with
              | Returns existing =>
                  match write_result (repository env) with
                  | Returns _ =>
                      Returns (summary_args rt (String c r)
                                 (date_now (save_clock env) 0 / 1000) existing
                                 (cycle_graph env s d (length (t :: ts))))
                  | Throws m => Throws m
                  end
              | Throws m => Throws m
              end = Throws msg).
  { destruct Hrepo as [->|[(x & ->) ->]]; reflexivity. }
  rewrite E. split; [reflexivity|]. split; [|split].
  - unfold on_error. destruct (0 <? length (nodes (currentMindmap s)))%nat; reflexivity.
  - destruct (nodes (currentMindmap s)) as [|n ns] eqn:En.
    + rewrite on_error_replaces by exact En. reflexivity.
    + rewrite on_error_keeps by (try rewrite En; discriminate). exact En.
  - apply on_error_keeps.
Qed.

(** X13 on a repository whose write fails, with a graph in memory. *)
Lemma X13_failed_save_discards_new_graph_witness :
  let env := {| all_transcripts := Returns sample_transcripts;
                generate := generate curiosity_env;
                repository := {| stored_summary := Returns None;
                                 write_result := Throws "database is locked" |};
                clock := sample_clock 0; summarize_clock := sample_clock 0;
                save_clock := sample_clock 0 |} in
  let s := with_mindmap bound_service sample_graph in
  updateMindmap sample_runtime env s = (s, [StatusUpdate "error" "database is locked"]).
Proof.
  intros env s.
  destruct (X13_failed_save_discards_new_graph sample_runtime env s
              (hd (mkTranscript EmptyString EmptyString None) sample_transcripts)
              (tl sample_transcripts)
              curiosity_answer "database is locked" eq_refl eq_refl eq_refl)
    as (He & _ & _ & Hkeep).
  - right. split; [exists None; reflexivity|reflexivity].
  - rewrite (surjective_pairing (updateMindmap sample_runtime env s)).
    rewrite He, Hkeep; [reflexivity|discriminate].
Defined.



(** ** The service as a state machine *)

Lemma on_error_ok (o : Oracle) (s : Service) (message : string) :
  service_ok s -> service_ok (on_error o s message).1.
Proof.
  intros [Hv Hlen]. unfold on_error.
  destruct (0 <? length (nodes (currentMindmap s)))%nat; [split; assumption|].
  split; [|exact Hlen]. eexists _, 0. repeat split. lia.
Qed.

Lemma on_error_session (o : Oracle) (s : Service) (message : string) :
  currentSessionId (on_error o s message).1 = currentSessionId s ∧
  (graph_session (currentMindmap s) = currentSessionId s ->
   graph_session (currentMindmap (on_error o s message).1) = currentSessionId s).
Proof.
  unfold on_error.
  destruct (0 <? length (nodes (currentMindmap s)))%nat; split; auto.
Qed.

Lemma cycle_graph_versioned (env : CycleEnv) (s : Service) (d : Updates) (n : nat) :
  versioned (currentMindmap s) -> versioned (cycle_graph env s d n).
Proof.
  intros (m & v & Hm & Hv & Hpos). unfold versioned, cycle_graph.
  rewrite summarize_metadata. eexists _, _.
  split; [reflexivity|]. split; [reflexivity|].
  rewrite Hm. simpl. rewrite Hv. simpl. lia.
Qed.

(** A step of a cycle keeps the service well formed, and the graph it
    holds afterwards has a version. *)
Lemma resume_ok (rt : Runtime) (env : CycleEnv) (point : Suspended) (s : Service) :
  service_ok s ->
  (∀ g, held (Some point) = Some g -> versioned g) ->
  service_ok (resume rt env point s).1.1 ∧
  (∀ g, held (resume rt env point s).2 = Some g -> versioned g).
Proof.
  intros Hok Hheld. pose proof Hok as [Hv Hlen].
  destruct point as [|ts|g|g args|message]; cbn [resume];
    [| | | |cbn [caught fst snd held]; split; [apply on_error_ok; exact Hok|discriminate]].
  - destruct (all_transcripts env) as [[|t ts]|msg]; cbn [caught fst snd held].
    + split; [exact Hok|discriminate].
    + split; [exact Hok|discriminate].
    + split; [apply on_error_ok; exact Hok|discriminate].
  - destruct (generate_with_retries (generate env) 0 3 None) as [[d|] lastError].
    + destruct (no_session s); cbn [caught fst snd held].
      * split; [exact Hok|discriminate].
      * split; [exact Hok|]. intros g [= <-]. apply cycle_graph_versioned. exact Hv.
    + cbn [caught fst snd held]. split; [apply on_error_ok; exact Hok|discriminate].
  - destruct (stored_summary (repository env)) as [existing|msg];
      cbn [caught fst snd held].
    + split; [exact Hok|]. intros g' [= <-]. apply Hheld. reflexivity.
    + split; [apply on_error_ok; exact Hok|discriminate].
  - destruct (write_result (repository env)) as [[]|msg]; cbn [caught fst snd held].
    + split; [|discriminate]. split; [apply Hheld; reflexivity|simpl; lia].
    + split; [apply on_error_ok; exact Hok|discriminate].
Qed.

(** A step of a cycle leaves the bound session alone; the graph that it
    builds carries the session id bound at that step. *)
Lemma resume_session (rt : Runtime) (env : CycleEnv) (point : Suspended) (s : Service) :
  graph_session (currentMindmap s) = currentSessionId s ->
  (∀ g, held (Some point) = Some g -> graph_session g = currentSessionId s) ->
  currentSessionId (resume rt env point s).1.1 = currentSessionId s ∧
  graph_session (currentMindmap (resume rt env point s).1.1) = currentSessionId s ∧
  (∀ g, held (resume rt env point s).2 = Some g ->
        graph_session g = currentSessionId s).
Proof.
  intros Hs Hheld.
  assert (Herr : ∀ o m,
    currentSessionId (caught (on_error o s m)).1.1 = currentSessionId s ∧
    graph_session (currentMindmap (caught (on_error o s m)).1.1) = currentSessionId s ∧
    (∀ g, held (caught (on_error o s m)).2 = Some g ->
          graph_session g = currentSessionId s)).
  { intros o m. destruct (on_error_session o s m) as [H1 H2].
    cbn [caught fst snd held]. split; [exact H1|]. split; [apply H2; exact Hs|discriminate]. }
  destruct point as [|ts|g|g args|message]; cbn [resume]; [| | | |apply Herr].
  - destruct (all_transcripts env) as [[|t ts]|msg]; [| |apply Herr];
      cbn [fst snd held]; (split; [reflexivity|split; [exact Hs|discriminate]]).
  - destruct (generate_with_retries (generate env) 0 3 None) as [[d|] lastError];
      [|apply Herr].
    destruct (no_session s); cbn [fst snd held];
      [split; [reflexivity|split; [exact Hs|discriminate]]|].
    split; [reflexivity|]. split; [exact Hs|]. intros g [= <-].
    apply cycle_graph_metadata.
  - destruct (stored_summary (repository env)) as [existing|msg]; [|apply Herr].
    cbn [fst snd held]. split; [reflexivity|]. split; [exact Hs|].
    intros g' [= <-]. apply Hheld. reflexivity.
  - destruct (write_result (repository env)) as [[]|msg]; [|apply Herr].
    cbn [fst snd held currentSessionId currentMindmap].
    split; [reflexivity|]. split; [apply Hheld; reflexivity|discriminate].
Qed.

Lemma turn_frame (o : Oracle) (speaker text : string) (s : Service) :
  currentMindmap (addConversationTurn o speaker text s).1 = currentMindmap s ∧
  currentSessionId (addConversationTurn o speaker text s).1 = currentSessionId s ∧
  (length (pendingTranscripts s) <= length (conversationHistory s) ->
   length (pendingTranscripts (addConversationTurn o speaker text s).1) <=
   length (conversationHistory (addConversationTurn o speaker text s).1))%nat.
Proof.
  unfold addConversationTurn. cbn [updateTimer no_session currentSessionId].
  destruct (negb (updateTimer s) && _); simpl;
    (split; [reflexivity|split; [reflexivity|]]);
    rewrite ?length_app; simpl; lia.
Qed.

Lemma world_ok_op (rt : Runtime) (op : Op) (w : World) :
  world_ok w -> world_ok (apply_op rt op w).
Proof.
  intros [[Hv Hlen] Hcs]. destruct w as [s cs es]. cbn [w_service w_cycles] in *.
  destruct op as [sid|o speaker text|env|i| | |]; cbn [apply_op].
  - split; [|exact Hcs]. split; [|exact Hlen].
    destruct Hv as (m & v & Hm & Hver & Hpos). cbn. rewrite Hm. cbn.
    eexists _, v. repeat split; assumption.
  - destruct (turn_frame o speaker text s) as (Eg & _ & Hl).
    split; [|exact Hcs]. cbn [on_service w_service]. split; [|apply Hl; exact Hlen].
    rewrite Eg. exact Hv.
  - split; [split; assumption|]. unfold launch. cbn [w_cycles w_service].
    apply Forall_app. split; [exact Hcs|]. repeat constructor.
    intros g. unfold held_graph. cbn [c_point]. destruct (no_session s); discriminate.
  - unfold settle. cbn [w_cycles w_service w_effects].
    destruct (cs !! i) as [[env [point|]]|] eqn:Hi;
      [|split; [split; assumption|exact Hcs]..].
    assert (Hc : ∀ g, held (Some point) = Some g -> versioned g).
    { intros g. apply (Forall_lookup_1 _ _ _ _ Hcs Hi). }
    destruct (resume_ok rt env point s (conj Hv Hlen) Hc) as [Hok Hnext].
    destruct (resume rt env point s) as [[s' effects] next]. cbn [fst snd] in *.
    split; [exact Hok|]. cbn [w_cycles]. apply Forall_insert; [exact Hcs|exact Hnext].
  - split; [|exact Hcs]. split; [|simpl; lia]. eexists _, 0. repeat split. lia.
  - split; [|exact Hcs]. split; assumption.
  - split; [|exact Hcs]. cbn [on_service w_service]. unfold stopUpdateTimer.
    destruct (updateTimer s); split; assumption.
Qed.

Lemma sessions_agree_op (rt : Runtime) (op : Op) (w : World) :
  match op with
  | OpBind _ => Forall (fun c => held_graph c = None) (w_cycles w)
  | _ => True
  end ->
  sessions_agree w -> sessions_agree (apply_op rt op w).
Proof.
  intros Hbind [Hs Hcs]. destruct w as [s cs es]. cbn [w_service w_cycles] in *.
  destruct op as [sid|o speaker text|env|i| | |]; cbn [apply_op].
  - split; [reflexivity|]. cbn [on_service w_cycles].
    eapply Forall_impl; [exact Hbind|]. intros c Hc g Hg. cbv beta in Hc.
    rewrite Hc in Hg. discriminate Hg.
  - destruct (turn_frame o speaker text s) as (Eg & Es & _).
    split; cbn [on_service w_service w_cycles]; rewrite ?Eg, Es; assumption.
  - split; [exact Hs|]. unfold launch. cbn [w_cycles w_service].
    apply Forall_app. split; [exact Hcs|]. repeat constructor.
    intros g. unfold held_graph. cbn [c_point]. destruct (no_session s); discriminate.
  - unfold settle. cbn [w_cycles w_service w_effects].
    destruct (cs !! i) as [[env [point|]]|] eqn:Hi; [|split; assumption..].
    assert (Hc : ∀ g, held (Some point) = Some g -> graph_session g = currentSessionId s).
    { intros g. apply (Forall_lookup_1 _ _ _ _ Hcs Hi). }
    destruct (resume_session rt env point s Hs Hc) as (E1 & E2 & Hnext).
    destruct (resume rt env point s) as [[s' effects] next]. cbn [fst snd] in *.
    split; cbn [w_service w_cycles]; rewrite E1; [exact E2|].
    apply Forall_insert; [exact Hcs|exact Hnext].
  - split; [reflexivity|exact Hcs].
  - split; assumption.
  - unfold sessions_agree, on_service, stopUpdateTimer. cbn [w_service w_cycles].
    destruct (updateTimer s); split; assumption.
Qed.

Lemma world_ok_ops (rt : Runtime) (ops : list Op) (w : World) :
  world_ok w -> world_ok (apply_ops rt ops w).
Proof.
  unfold apply_ops. revert w. induction ops as [|op ops IH]; intros w Hw; [exact Hw|].
  simpl. apply IH. apply world_ok_op. exact Hw.
Qed.

Lemma sessions_agree_ops (rt : Runtime) (ops : list Op) (w : World) :
  binds_outside_saves rt ops w -> sessions_agree w ->
  sessions_agree (apply_ops rt ops w).
Proof.
  unfold apply_ops. revert w.
  induction ops as [|op ops IH]; intros w Hb Hw; [exact Hw|].
  destruct Hb as [Hop Hb]. simpl. apply IH; [exact Hb|].
  apply sessions_agree_op; assumption.
Qed.

(** X15. Whatever the service goes through after its construction, in
    whatever order (sessions bound, conversation turns, update cycles
    launched, cycles in flight running on at their awaits while others are
    suspended, resets, the timer started and stopped), its graph has
    metadata with a version that is a number and is not negative, and it
    never has more pending transcripts than turns in its history.  The
    session id in the metadata of the graph is the bound session id as
    long as no session is bound while a cycle holds a graph that it has
    built and not yet committed. *)
Theorem X15_service_invariant (rt : Runtime) (ops : list Op) :
  let w := apply_ops rt ops (idle constructor) in
  service_ok (w_service w) ∧
  (binds_outside_saves rt ops (idle constructor) ->
   graph_session (currentMindmap (w_service w)) = currentSessionId (w_service w)).
Proof.
  intros w. split.
  - apply world_ok_ops. split; [|constructor].
    split; [|simpl; lia]. eexists _, 0. repeat split. lia.
  - intros Hb. apply sessions_agree_ops; [exact Hb|].
    split; [reflexivity|constructor].
Qed.

(** X15 on a session bound before a cycle and another bound after it. *)
Lemma X15_service_invariant_witness :
  let ops := [OpBind (Some "s1"); OpTurn (sample_clock 1000) "Me" "hello";
              OpCycle curiosity_env; OpSettle 0; OpSettle 0; OpSettle 0; OpSettle 0;
              OpBind (Some "s2")] in
  graph_session (currentMindmap (w_service (apply_ops sample_runtime ops
                                              (idle constructor)))) = Some "s2".
Proof.
  intros ops.
  rewrite (proj2 (X15_service_invariant sample_runtime ops)).
  - reflexivity.
  - cbn [binds_outside_saves ops]. repeat split.
    + constructor.
    + apply (Forall_fmap held_graph (fun g => g = None)). vm_compute.
      repeat constructor.
Defined.

(** A session bound while a cycle is saving: the cycle commits a graph
    that carries the session id of before, and has written it under the
    session id of after. *)
Example rebind_while_saving :
  let ops := [OpCycle curiosity_env; OpSettle 0; OpSettle 0; OpBind (Some "s2");
              OpSettle 0; OpSettle 0] in
  let w := apply_ops sample_runtime ops (idle bound_service) in
  graph_session (currentMindmap (w_service w)) = Some "s1" ∧
  currentSessionId (w_service w) = Some "s2" ∧
  omap (fun e => match e with SaveSummary args => Some (a_sessionId args) | _ => None end)
    (w_effects w) = ["s2"].
Proof. vm_compute. repeat split. Qed.

(** ** Turns, the timer and the session *)

Lemma addConversationTurn_eq (o : Oracle) (speaker text : string) (s : Service) :
  addConversationTurn o speaker text s =
  ({| currentMindmap := currentMindmap s;
      conversationHistory :=
        conversationHistory s ++ [Js.toLowerCase speaker +:+ ": " +:+ Js.trim text];
      currentSessionId := currentSessionId s;
      updateTimer := updateTimer s || negb (no_session s);
      pendingTranscripts :=
        pendingTranscripts s ++
        [{| p_speaker := speaker; p_text := text; p_timestamp := date_now o 0 |}] |},
   negb (updateTimer s) && negb (no_session s)).
Proof.
  unfold addConversationTurn, startUpdateTimer, with_timer, no_session.
  cbn [updateTimer currentSessionId pendingTranscripts currentMindmap
       conversationHistory].
  assert (Hp : ∀ x, (0 <? length (pendingTranscripts s ++ [x]))%nat = true).
  { intros x. rewrite length_app. simpl. apply Nat.ltb_lt. lia. }
  rewrite Hp.
  destruct (updateTimer s), (negb (Js.truthy (default EmptyString (currentSessionId s))));
    reflexivity.
Qed.

(** X16. A conversation turn is appended to the history as
    'speaker in lower case: trimmed text' and to the pending transcripts,
    and leaves the graph alone.  It arms the timer and launches an update
    cycle at once exactly when no timer is armed and a session is bound;
    the turn that follows it never launches a cycle; without a session no
    turn arms the timer. *)
Theorem X16_turn_launches_first_cycle (o o' : Oracle)
  (speaker text speaker' text' : string) (s : Service) :
  let s1 := (addConversationTurn o speaker text s).1 in
  conversationHistory s1 =
    conversationHistory s ++ [Js.toLowerCase speaker +:+ ": " +:+ Js.trim text] ∧
  length (pendingTranscripts s1) = S (length (pendingTranscripts s)) ∧
  currentMindmap s1 = currentMindmap s ∧
  (addConversationTurn o speaker text s).2 = negb (updateTimer s) && negb (no_session s) ∧
  updateTimer s1 = updateTimer s || negb (no_session s) ∧
  (addConversationTurn o' speaker' text' s1).2 = false.
Proof.
  intros s1. unfold s1. rewrite !addConversationTurn_eq.
  cbn [fst snd pendingTranscripts conversationHistory currentMindmap updateTimer].
  split; [reflexivity|]. split; [rewrite length_app; simpl; lia|].
  split; [reflexivity|]. split; [reflexivity|]. split; [reflexivity|].
  unfold no_session. cbn [updateTimer currentSessionId].
  destruct (updateTimer s), (negb (Js.truthy (default EmptyString (currentSessionId s))));
    reflexivity.
Qed.

(** X17. Binding another session does not clear anything: the nodes, the
    edges and the version of the graph, the history and the pending
    transcripts of the previous session stay, only the session id changes.
    The next successful cycle therefore continues the version of the
    previous session's graph, and a failed one keeps the previous
    session's nodes, if there are any. *)
Theorem X17_binding_keeps_the_graph (rt : Runtime) (env : CycleEnv)
  (sessionId : option string) (s : Service) :
  let s1 := setSessionId sessionId s in
  (nodes (currentMindmap s1) = nodes (currentMindmap s) ∧
   edges (currentMindmap s1) = edges (currentMindmap s) ∧
   graph_version (currentMindmap s1) = graph_version (currentMindmap s) ∧
   conversationHistory s1 = conversationHistory s ∧
   pendingTranscripts s1 = pendingTranscripts s ∧
   currentSessionId s1 = sessionId) ∧
  (cycle_kind (updateMindmap rt env s1).2 = Succeeded ->
   graph_version (currentMindmap (updateMindmap rt env s1).1) =
   graph_version (currentMindmap s) + 1) ∧
  (cycle_kind (updateMindmap rt env s1).2 = Failed ->
   nodes (currentMindmap s) ≠ [] ->
   nodes (currentMindmap (updateMindmap rt env s1).1) = nodes (currentMindmap s)).
Proof.
  intros s1.
  assert (Hv : graph_version (currentMindmap s1) = graph_version (currentMindmap s)).
  { unfold s1, setSessionId, graph_version. simpl.
    destruct (metadata (currentMindmap s)); reflexivity. }
  split; [repeat split; exact Hv|]. split.
  - intros Hk. rewrite (cycle_succeeded_version rt env s1 Hk), Hv. reflexivity.
  - intros Hk Hn. rewrite (cycle_failed_keeps rt env s1 Hk); [reflexivity|exact Hn].
Qed.

(** X17 on a service that holds the sample graph and is bound to
    another session before a successful cycle. *)
Lemma X17_binding_keeps_the_graph_witness :
  let s := with_mindmap bound_service sample_graph in
  let s1 := setSessionId (Some "s2") s in
  n_id <$> nodes (currentMindmap s1) = ["node-1"; "node-2"] ∧
  graph_version (currentMindmap (updateMindmap sample_runtime curiosity_env s1).1) = 2.
Proof.
  intros s s1. split; [reflexivity|].
  destruct (X17_binding_keeps_the_graph sample_runtime curiosity_env (Some "s2") s)
    as (_ & Hs & _).
  fold s1 in Hs. rewrite Hs; reflexivity.
Defined.

(** ** Loading, and what a save makes loadable *)

(** X18. Loading either installs the parsed graph as the current graph,
    whole, leaving everything else of the service as it was, or returns
    null and leaves the service untouched: so it does when the repository
    throws, when no record or no graph text is stored, and when the text
    does not parse.  What [saveMindmap] has written loads back: on any
    record whose graph field is the text of a successful save of [g], with
    a [JSON.parse] that inverts [JSON.stringify] on [g], loading returns
    [g] and makes it current. *)
Theorem X18_load_all_or_nothing_and_round_trip (rt : Runtime)
  (JSON_parse : string -> Outcome Graph) :
  (∀ stored s,
     match (loadMindmapFromDatabase JSON_parse stored s).2 with
     | None => (loadMindmapFromDatabase JSON_parse stored s).1 = s
     | Some g => (loadMindmapFromDatabase JSON_parse stored s).1 = with_mindmap s g
     end) ∧
  (∀ msg s, loadMindmapFromDatabase JSON_parse (Throws msg) s = (s, None)) ∧
  (∀ s, loadMindmapFromDatabase JSON_parse (Returns None) s = (s, None)) ∧
  (∀ o repo session g args row s,
     saveMindmap rt o repo session g = Returns args ->
     Js.truthy (JSON_stringify rt g) = true ->
     JSON_parse (JSON_stringify rt g) = Returns g ->
     r_mindmap_json row = Some (a_mindmap_json args) ->
     loadMindmapFromDatabase JSON_parse (Returns (Some row)) s =
       (with_mindmap s g, Some g)).
Proof.
  split; [|split; [reflexivity|split; [reflexivity|]]].
  - intros stored s. unfold loadMindmapFromDatabase.
    destruct stored as [[row|]|msg]; try reflexivity.
    destruct (r_mindmap_json row) as [json|]; [|reflexivity].
    destruct (Js.truthy json); [|reflexivity].
    destruct (JSON_parse json); reflexivity.
  - intros o repo session g args row s Hsave Ht Hp Hrow.
    assert (E : a_mindmap_json args = JSON_stringify rt g).
    { unfold saveMindmap in Hsave.
      destruct session as [[|c r]|]; try discriminate.
      destruct (stored_summary repo) as [existing|]; [|discriminate].
      destruct (write_result repo); [|discriminate].
      injection Hsave as <-. destruct existing; reflexivity. }
    unfold loadMindmapFromDatabase. rewrite Hrow, E, Ht, Hp. reflexivity.
Qed.

(** X18 on the sample graph, saved and loaded into a fresh service. *)
Lemma X18_load_all_or_nothing_and_round_trip_witness :
  ∃ args,
    saveMindmap sample_runtime (sample_clock 0) (sample_repository None)
      (Some "test-session") sample_graph = Returns args ∧
    loadMindmapFromDatabase (parse_only sample_runtime sample_graph)
      (Returns (Some (mkSummaryRow None None None None None None None
                        (Some (a_mindmap_json args))))) constructor
    = (with_mindmap constructor sample_graph, Some sample_graph).
Proof.
  eexists. split; [reflexivity|].
  apply (proj2 (proj2 (proj2 (X18_load_all_or_nothing_and_round_trip sample_runtime
                  (parse_only sample_runtime sample_graph))))
           (sample_clock 0) (sample_repository None) (Some "test-session")
           sample_graph _ _ constructor eq_refl eq_refl).
  - unfold parse_only. rewrite bool_decide_eq_true_2 by reflexivity. reflexivity.
  - reflexivity.
Defined.

(** ** Formatting *)

Lemma slice_last {A} (l : list A) (n : Z) :
  0 < n -> Js.slice l (- n) None = drop (length l - Z.to_nat n) l.
Proof.
  intros H. unfold Js.slice, Js.rel_index.
  destruct (Z.ltb_spec (- n) 0); [|lia].
  replace (Z.to_nat (Z.max (Z.of_nat (length l) + - n) 0))
    with (length l - Z.to_nat n)%nat by lia.
  apply take_ge. rewrite length_drop. lia.
Qed.

(** X19. [formatConversationForPrompt] joins the last [maxTurns] turns
    with line feeds, all the turns when there are no more than that, and
    gives the empty string for no turns.  With [maxTurns] = 0 it does not
    give the empty string but all the turns: [slice(-0)] is the whole
    array. *)
Theorem X19_prompt_takes_last_turns (conversationTexts : list string) (maxTurns : Z) :
  formatConversationForPrompt [] maxTurns = EmptyString ∧
  (0 < maxTurns ->
   formatConversationForPrompt conversationTexts maxTurns =
   join_lines (drop (length conversationTexts - Z.to_nat maxTurns) conversationTexts)) ∧
  (Z.of_nat (length conversationTexts) <= maxTurns ->
   formatConversationForPrompt conversationTexts maxTurns = join_lines conversationTexts) ∧
  formatConversationForPrompt conversationTexts 0 = join_lines conversationTexts.
Proof.
  assert (Hpos : 0 < maxTurns ->
    formatConversationForPrompt conversationTexts maxTurns =
    join_lines (drop (length conversationTexts - Z.to_nat maxTurns) conversationTexts)).
  { intros H. unfold formatConversationForPrompt.
    destruct conversationTexts as [|x l]; [reflexivity|].
    cbn [length Nat.eqb]. rewrite slice_last by exact H. reflexivity. }
  split; [reflexivity|]. split; [exact Hpos|]. split.
  - intros H. destruct conversationTexts as [|x l]; [reflexivity|].
    rewrite Hpos by (simpl in H; lia).
    replace (length (x :: l) - Z.to_nat maxTurns)%nat with 0%nat by lia. reflexivity.
  - unfold formatConversationForPrompt.
    destruct conversationTexts as [|x l]; [reflexivity|].
    cbn [length Nat.eqb].
    rewrite (proj2 (slice_all_older (x :: l) 0 ltac:(lia)) eq_refl). reflexivity.
Qed.

(** X19 on three turns, for the last two and for [maxTurns] = 0. *)
Lemma X19_prompt_takes_last_turns_witness :
  formatConversationForPrompt ["me: a"; "them: b"; "me: c"] 2 =
    "them: b" +:+ String "010"%char "me: c" ∧
  formatConversationForPrompt ["me: a"; "them: b"; "me: c"] 0 =
    "me: a" +:+ String "010"%char ("them: b" +:+ String "010"%char "me: c").
Proof.
  split.
  - rewrite (proj1 (proj2 (X19_prompt_takes_last_turns
                             ["me: a"; "them: b"; "me: c"] 2)) ltac:(lia)).
    reflexivity.
  - reflexivity.
Defined.

(** X20. How [start_at] is read is decided by its size alone.  A value
    that is not 0 and at most 8 640 000 000 000 in absolute value is taken
    as seconds, so a time given in epoch milliseconds within that range,
    such as 1 700 000 000 000, is formatted as that many seconds; only a
    larger value, up to 8 640 000 000 000 000, is taken as milliseconds;
    beyond that, and for 0 or no value, the line carries the index. *)
Theorem X20_start_at_ranges (rt : Runtime) (index : nat) (t : Transcript) :
  (∀ s, start_at t = Some s -> s ≠ 0 -> Z.abs s <= 8640000000000 ->
        timestamp_of rt index t = toLocaleTimeString rt (s * 1000)) ∧
  (∀ s, start_at t = Some s ->
        8640000000000 < Z.abs s <= 8640000000000000 ->
        timestamp_of rt index t = toLocaleTimeString rt s) ∧
  (∀ s, start_at t = Some s -> 8640000000000000 < Z.abs s ->
        timestamp_of rt index t = index_tag index) ∧
  (start_at t = None ∨ start_at t = Some 0 -> timestamp_of rt index t = index_tag index).
Proof.
  unfold timestamp_of, valid_time. repeat split.
  - intros s -> Hz Hs. destruct (Z.eqb_spec s 0); [contradiction|].
    destruct (Z.leb_spec (Z.abs (s * 1000)) 8640000000000000); [reflexivity|lia].
  - intros s -> Hs. destruct (Z.eqb_spec s 0); [lia|].
    destruct (Z.leb_spec (Z.abs (s * 1000)) 8640000000000000); [lia|].
    destruct (Z.leb_spec (Z.abs s) 8640000000000000); [reflexivity|lia].
  - intros s -> Hs. destruct (Z.eqb_spec s 0); [lia|].
    destruct (Z.leb_spec (Z.abs (s * 1000)) 8640000000000000); [lia|].
    destruct (Z.leb_spec (Z.abs s) 8640000000000000); [lia|reflexivity].
  - intros [-> | ->]; reflexivity.
Qed.

(** X20 on a time in milliseconds, with the time of day in UTC: it is
    formatted as 1 700 000 000 000 seconds after the epoch. *)
Lemma X20_start_at_ranges_witness :
  timestamp_of sample_runtime 0
    {| t_speaker := "me"; t_text := "hi"; start_at := Some 1700000000000 |}
  = utc_time_string 1700000000000000.
Proof.
  apply (proj1 (X20_start_at_ranges sample_runtime 0
           {| t_speaker := "me"; t_text := "hi"; start_at := Some 1700000000000 |})
           1700000000000 eq_refl); lia.
Defined.

Lemma trimEnd_keeps_first (c : ascii) (r : string) :
  Js.is_space c = false -> ∃ r', Js.trimEnd (String c r) = String c r'.
Proof.
  intros H. simpl. destruct (Js.trimEnd r); rewrite ?H; eexists; reflexivity.
Qed.

Lemma formatted_starts_with_bracket (rt : Runtime) (t : Transcript)
  (ts : list Transcript) :
  ∃ r, formattedTranscripts rt (t :: ts) = String "[" r.
Proof.
  unfold formattedTranscripts.
  change (imap (format_transcript rt) (t :: ts))
    with (format_transcript rt 0 t :: imap (format_transcript rt ∘ S) ts).
  destruct (imap (format_transcript rt ∘ S) ts); eexists; reflexivity.
Qed.

(** X21. The guard against transcripts without content fires for the
    empty list of transcripts only: every formatted line starts with an
    opening bracket, so as soon as there is one transcript the formatted
    text is not blank, even if every speaker and every text is empty. *)
Theorem X21_content_guard_only_for_no_transcripts (rt : Runtime)
  (allTranscripts : list Transcript) :
  no_transcript_content rt allTranscripts = true ↔ allTranscripts = [].
Proof.
  split; [|intros ->; reflexivity].
  destruct allTranscripts as [|t ts]; [reflexivity|]. intros H. exfalso.
  unfold no_transcript_content in H.
  destruct (formatted_starts_with_bracket rt t ts) as (r & E). rewrite E in H.
  destruct (trimEnd_keeps_first "[" r eq_refl) as (r' & E').
  unfold Js.trim in H. cbn [Js.trimStart Js.is_space Ascii.is_space] in H.
  rewrite E' in H. discriminate H.
Qed.

(** ** Extraction: from the first opening brace to the last closing one *)

Lemma upto_last_close_lacks (s : string) :
  lacks "}" s -> upto_last_close s = None.
Proof.
  unfold lacks. induction s as [|d s IH]; simpl; intros H; [reflexivity|].
  rewrite IH by tauto.
  unfold is_close. rewrite bool_decide_eq_false_2; [reflexivity|].
  intros ->. tauto.
Qed.

Lemma upto_last_close_split (s t : string) :
  upto_last_close s = Some t ->
  ∃ b rest, t = b +:+ "}" ∧ s = t +:+ rest ∧ lacks "}" rest.
Proof.
  revert t. induction s as [|d s IH]; simpl; intros t; [discriminate|].
  destruct (upto_last_close s) as [u|] eqn:E.
  - intros [= <-]. destruct (IH u eq_refl) as (b & rest & -> & Hs & Hl).
    exists (String d b), rest. repeat split; [rewrite Hs at 1; reflexivity|exact Hl].
  - destruct (is_close d) eqn:Ed; [|discriminate]. intros [= <-].
    unfold is_close in Ed. apply bool_decide_eq_true in Ed. subst d.
    exists EmptyString, s. repeat split.
    intros Hin. pose proof (upto_last_close_none s _ E Hin) as Hc. discriminate Hc.
Qed.

Lemma upto_last_close_found (b c : string) :
  lacks "}" c -> upto_last_close (b +:+ "}" +:+ c) = Some (b +:+ "}").
Proof.
  intros Hc. induction b as [|x b IH].
  - str_norm. rewrite (upto_last_close_lacks c Hc). reflexivity.
  - change (String x b +:+ "}" +:+ c) with (String x (b +:+ "}" +:+ c)).
    change (String x b +:+ "}") with (String x (b +:+ "}")).
    cbn [upto_last_close]. rewrite IH. reflexivity.
Qed.

Lemma regex_match_lacks_close (s : string) :
  upto_last_close s = None -> regex_match s = None.
Proof.
  induction s as [|d s IH]; simpl; [reflexivity|].
  destruct (upto_last_close s) eqn:E; [discriminate|].
  intros _. rewrite (IH eq_refl). destruct (is_open d); reflexivity.
Qed.

Lemma regex_match_skip (a s : string) :
  lacks "{" a -> regex_match (a +:+ s) = regex_match s.
Proof.
  unfold lacks. induction a as [|x a IH]; intros H; [reflexivity|].
  rewrite str_app_cons. simpl in *.
  unfold is_open. rewrite bool_decide_eq_false_2; [apply IH; tauto|].
  intros ->. tauto.
Qed.

Lemma extract_json_regex (s : string) : extract_json s = regex_match s.
Proof.
  unfold extract_json. destruct (regex_match s) eqn:E; [reflexivity|].
  apply regex_match_none_fallback. exact E.
Qed.

Lemma extract_json_shape (responseText m : string) :
  extract_json responseText = Some m ↔
  ∃ a b c, responseText = a +:+ m +:+ c ∧ m = "{" +:+ b +:+ "}" ∧
           lacks "{" a ∧ lacks "}" c.
Proof.
  rewrite extract_json_regex. split.
  - revert m. induction responseText as [|d s IH]; simpl; intros m; [discriminate|].
    destruct (is_open d) eqn:Ed.
    + unfold is_open in Ed. apply bool_decide_eq_true in Ed. subst d.
      destruct (upto_last_close s) as [t|] eqn:E.
      * intros [= <-]. destruct (upto_last_close_split s t E) as (b & rest & -> & Hs & Hl).
        exists EmptyString, b, rest. split; [rewrite Hs at 1; reflexivity|].
        split; [reflexivity|]. split; [intros []|exact Hl].
      * rewrite (regex_match_lacks_close s E). discriminate.
    + intros H. destruct (IH m H) as (a & b & c & -> & Hm & Ha & Hc).
      exists (String d a), b, c. split; [reflexivity|]. split; [exact Hm|].
      split; [|exact Hc]. intros [E|Hin]; [|apply Ha; exact Hin].
      rewrite E in Ed. discriminate Ed.
  - intros (a & b & c & -> & -> & Ha & Hc).
    rewrite (regex_match_skip a _ Ha), str_app_assoc.
    rewrite str_app_cons, str_app_nil. simpl.
    rewrite str_app_assoc, (upto_last_close_found b c Hc). reflexivity.
Qed.


(** X22. The extraction returns the text from the first opening brace
    to the last closing brace: it yields [m] exactly when the answer is
    some text without an opening brace, then [m], which starts with an
    opening brace and ends with a closing one, then some text without a
    closing brace.  Prose before and after the object is dropped; braces
    inside it are not matched against each other. *)
Theorem X22_extraction_first_to_last_brace (responseText m : string) :
  extract_json responseText = Some m ↔
  ∃ a b c, responseText = a +:+ m +:+ c ∧ m = "{" +:+ b +:+ "}" ∧
           lacks "{" a ∧ lacks "}" c.
Proof. apply extract_json_shape. Qed.

(** X22 on the answer of the repository's test with text around the
    object. *)
Lemma X22_extraction_first_to_last_brace_witness :
  extract_json "Here is the mindmap: {nodes: [], edges: []} This is the result."
  = Some "{nodes: [], edges: []}".
Proof.
  apply (proj2 (X22_extraction_first_to_last_brace _ _)).
  exists "Here is the mindmap: ", "nodes: [], edges: []", " This is the result.".
  split; [reflexivity|]. split; [reflexivity|]. split; compute_done.
Defined.

(** ** Cleaning the answer: code fences *)

Lemma prefix_iff (p s : string) :
  String.prefix p s = true ↔ ∃ r, s = p +:+ r.
Proof.
  revert s. induction p as [|a p IH]; intros s.
  - split; [intros _; exists s; reflexivity|]. intros _. destruct s; reflexivity.
  - destruct s as [|b s]; simpl.
    + split; [discriminate|]. intros (r & H). discriminate H.
    + destruct (ascii_dec a b) as [->|Hne].
      * rewrite IH. split; intros (r & H); exists r.
        -- rewrite str_app_cons, H. reflexivity.
        -- rewrite str_app_cons in H. injection H as H. exact H.
      * split; [discriminate|]. intros (r & H). rewrite str_app_cons in H.
        injection H as H _. congruence.
Qed.

Lemma remove_lit_step (lit : string) (c : ascii) (r : string) :
  remove_lit lit 0 (String c r) =
  if String.prefix lit (String c r) then
    remove_lit lit
      (String.length lit - 1 + (if newline_at (String.length lit) (String c r) then 1 else 0))
      r
  else String c (remove_lit lit 0 r).
Proof. reflexivity. Qed.

Lemma remove_fence_first (r x : string) :
  remove_lit fence 0 r = String "`" x -> ∃ y, r = String "`" y.
Proof.
  destruct r as [|e r]; [discriminate|]. rewrite remove_lit_step.
  destruct (String.prefix fence (String e r)) eqn:E.
  - apply prefix_iff in E as (z & E). intros _. rewrite E. eexists. reflexivity.
  - intros [= -> _]. eexists. reflexivity.
Qed.

Lemma remove_fence_two (r x : string) :
  remove_lit fence 0 r = String "`" (String "`" x) ->
  ∃ y, r = String "`" (String "`" y).
Proof.
  destruct r as [|d r]; [discriminate|]. rewrite remove_lit_step.
  destruct (String.prefix fence (String d r)) eqn:E.
  - apply prefix_iff in E as (z & E). intros _. rewrite E. eexists. reflexivity.
  - intros [= -> H]. apply remove_fence_first in H as (y & ->).
    eexists. reflexivity.
Qed.

Lemma remove_fence_no_new (c : ascii) (r : string) :
  String.prefix fence (String c r) = false ->
  String.prefix fence (String c (remove_lit fence 0 r)) = false.
Proof.
  intros H. destruct (String.prefix fence (String c (remove_lit fence 0 r))) eqn:E;
    [|reflexivity].
  apply prefix_iff in E as (x & E). injection E as -> E.
  apply remove_fence_two in E as (y & ->).
  rewrite <- H. symmetry. apply prefix_iff. exists y. reflexivity.
Qed.

Lemma remove_fence_clean (s : string) (k : nat) :
  Js.includes (remove_lit fence k s) fence = false.
Proof.
  revert k. induction s as [|c r IH]; intros k; [reflexivity|].
  destruct k as [|k]; [|apply IH].
  rewrite remove_lit_step.
  destruct (String.prefix fence (String c r)) eqn:E; [apply IH|].
  cbn [Js.includes]. rewrite (remove_fence_no_new c r E), IH. reflexivity.
Qed.

Lemma includes_app_l (t rest p : string) :
  Js.includes t p = true -> Js.includes (t +:+ rest) p = true.
Proof.
  induction t as [|c t IH].
  - destruct p; [intros _; destruct rest; reflexivity|discriminate].
  - rewrite str_app_cons. cbn [Js.includes]. intros H.
    apply orb_true_iff in H as [H|H]; apply orb_true_iff.
    + left. apply prefix_iff in H as (r & H). apply prefix_iff.
      exists (r +:+ rest). rewrite <- str_app_cons, H, str_app_assoc. reflexivity.
    + right. apply IH. exact H.
Qed.

Lemma trimEnd_prefix (s : string) : ∃ rest, s = Js.trimEnd s +:+ rest.
Proof.
  induction s as [|c r (rest & IH)]; [exists EmptyString; reflexivity|].
  simpl. destruct (Js.trimEnd r) as [|d t] eqn:E.
  - destruct (Js.is_space c); [exists (String c r)|exists r]; reflexivity.
  - exists rest. rewrite str_app_cons, <- IH. reflexivity.
Qed.

Lemma includes_trimStart (s p : string) :
  Js.includes (Js.trimStart s) p = true -> Js.includes s p = true.
Proof.
  induction s as [|c r IH]; [intros H; exact H|].
  simpl. destruct (Js.is_space c); [|intros H; exact H].
  intros H. rewrite (IH H). apply orb_true_r.
Qed.

Lemma includes_trim (s p : string) :
  Js.includes (Js.trim s) p = true -> Js.includes s p = true.
Proof.
  unfold Js.trim. intros H. apply includes_trimStart.
  destruct (trimEnd_prefix (Js.trimStart s)) as (rest & E). rewrite E.
  apply includes_app_l. exact H.
Qed.

(** X23. Whatever the model answered, the cleaned text contains no code
    fence: after the two replacements and the trim, three back quotes in a
    row occur nowhere, also where removing one fence brings back quotes
    together. *)
Theorem X23_no_fence_after_cleaning (responseText : string) :
  Js.includes (strip_fences responseText) fence = false.
Proof.
  destruct (Js.includes (strip_fences responseText) fence) eqn:E; [|reflexivity].
  apply includes_trim in E. rewrite remove_fence_clean in E. discriminate E.
Qed.

Lemma prefix_first (lit : string) (c d : ascii) (r rest : string) :
  c ≠ d -> String.prefix (String c lit) (String d r) = false.
Proof. intros H. simpl. destruct (ascii_dec c d); [contradiction|reflexivity]. Qed.

(** A text without back quotes passes through a replacement of a fence. *)
Lemma remove_lit_passes (lit j rest : string) :
  lacks "`" j ->
  remove_lit (String "`" lit) 0 (j +:+ rest) =
  j +:+ remove_lit (String "`" lit) 0 rest.
Proof.
  unfold lacks. induction j as [|c j IH]; intros H; [reflexivity|].
  rewrite !str_app_cons, remove_lit_step.
  rewrite (prefix_first lit "`" c _ EmptyString);
    [|intros E; apply H; left; symmetry; exact E].
  rewrite IH; [reflexivity|]. intros Hin. apply H. right. exact Hin.
Qed.

Lemma trimEnd_newline (x : string) :
  Js.trimEnd (x +:+ String "010"%char EmptyString) = Js.trimEnd x.
Proof.
  induction x as [|c x IH]; [reflexivity|].
  rewrite str_app_cons. cbn [Js.trimEnd]. rewrite IH. reflexivity.
Qed.

Lemma trimEnd_closed (x : string) :
  Js.trimEnd (x +:+ "}") = x +:+ "}".
Proof.
  induction x as [|c x IH]; [reflexivity|].
  rewrite str_app_cons. cbn [Js.trimEnd]. rewrite IH.
  destruct (x +:+ "}") eqn:E; [|reflexivity].
  destruct x; discriminate E.
Qed.

Lemma chars_app (a b : string) :
  list_ascii_of_string (a +:+ b) = list_ascii_of_string a ++ list_ascii_of_string b.
Proof.
  induction a as [|c a IH]; [reflexivity|].
  rewrite str_app_cons. cbn [list_ascii_of_string]. rewrite IH. reflexivity.
Qed.

Lemma lacks_app (c : ascii) (a b : string) :
  lacks c a -> lacks c b -> lacks c (a +:+ b).
Proof.
  unfold lacks. rewrite chars_app. intros Ha Hb Hin.
  apply in_app_or in Hin as [H|H]; [apply Ha|apply Hb]; exact H.
Qed.

Lemma str_app_nil_r (s : string) : s +:+ EmptyString = s.
Proof. induction s as [|c s IH]; [reflexivity|]. rewrite str_app_cons, IH. reflexivity. Qed.

Lemma remove_lit_nil (lit : string) (k : nat) : remove_lit lit k EmptyString = EmptyString.
Proof. destruct k; reflexivity. Qed.

(** X24. The cleaning only trims a text that has no back quote; and an
    object between a [```json] line and a closing fence is recovered
    exactly: for every text [b] without a back quote, cleaning and
    extraction applied to the fenced ["{" b "}"] give back ["{" b "}"]. *)
Theorem X24_fenced_object_recovered (b : string) :
  lacks "`" b ->
  strip_fences b = Js.trim b ∧
  extract_json
    (strip_fences
       (json_fence +:+ String "010"%char
          (("{" +:+ b +:+ "}") +:+ String "010"%char fence)))
  = Some ("{" +:+ b +:+ "}").
Proof.
  intros Hb. split.
  - unfold strip_fences, fence, json_fence.
    rewrite <- (str_app_nil_r b) at 1.
    rewrite (remove_lit_passes "``json" b EmptyString Hb), remove_lit_nil.
    rewrite (remove_lit_passes "``" b EmptyString Hb), remove_lit_nil.
    rewrite !str_app_nil_r. reflexivity.
  - assert (Hj : lacks "`" ("{" +:+ b +:+ "}")).
    { apply lacks_app; [compute_done|]. apply lacks_app; [exact Hb|compute_done]. }
    set (j := "{" +:+ b +:+ "}") in *.
    assert (E1 : remove_lit json_fence 0
                   (json_fence +:+ String "010"%char (j +:+ String "010"%char fence))
                 = j +:+ String "010"%char fence).
    { change (remove_lit json_fence 0
                (json_fence +:+ String "010"%char (j +:+ String "010"%char fence)))
        with (remove_lit json_fence 0 (j +:+ String "010"%char fence)).
      unfold json_fence. rewrite (remove_lit_passes "``json" j _ Hj). reflexivity. }
    unfold strip_fences. rewrite E1. unfold fence at 2.
    rewrite (remove_lit_passes "``" j _ Hj).
    assert (E2 : remove_lit "```" 0 (String "010"%char "```")
                 = String "010"%char EmptyString) by reflexivity.
    rewrite E2. unfold Js.trim.
    assert (Hs : Js.trimStart (j +:+ String "010"%char EmptyString)
                 = j +:+ String "010"%char EmptyString) by reflexivity.
    rewrite Hs, trimEnd_newline. unfold j.
    change ("{" +:+ b +:+ "}") with (String "{" (b +:+ "}")).
    rewrite <- str_app_cons, trimEnd_closed, str_app_cons.
    apply (proj2 (extract_json_shape _ _)). exists EmptyString, b, EmptyString.
    repeat split; [rewrite str_app_nil_r; reflexivity|intros []|intros []].
Qed.

(** X24 on the answer of the repository's test with a code block. *)
Lemma X24_fenced_object_recovered_witness :
  extract_json
    (strip_fences
       (json_fence +:+ String "010"%char
          (("{" +:+ "nodes: [], edges: []" +:+ "}") +:+ String "010"%char fence)))
  = Some "{nodes: [], edges: []}".
Proof.
  apply (proj2 (X24_fenced_object_recovered "nodes: [], edges: []" ltac:(compute_done))).
Defined.

(** ** From the answer to the updates *)

(** X25. [JSON.parse] is only ever given a text that starts with an
    opening brace and ends with a closing one: two parsers that agree on
    such texts give the same result on every answer.  An answer that is
    not empty but is blank or nothing but fences after the cleaning is not
    reported as an empty response: it fails with the no-JSON error, with an
    empty excerpt, and the parser is not consulted. *)
Theorem X25_parser_only_sees_braced_text (JSON_parse JSON_parse' : string -> Outcome Parsed)
  (finishReason responseText : string) :
  ((∀ b, JSON_parse ("{" +:+ b +:+ "}") = JSON_parse' ("{" +:+ b +:+ "}")) ->
   updates_of_response JSON_parse finishReason responseText =
   updates_of_response JSON_parse' finishReason responseText) ∧
  (Js.truthy responseText = true -> strip_fences responseText = EmptyString ->
   updates_of_response JSON_parse finishReason responseText =
   Throws "No JSON found in LLM response. Response: ").
Proof.
  split.
  - intros H. unfold updates_of_response.
    destruct (negb (Js.truthy responseText)); [reflexivity|].
    destruct (extract_json (strip_fences responseText)) as [m|] eqn:E; [|reflexivity].
    apply extract_json_shape in E as (a & b & c & _ & -> & _). rewrite H. reflexivity.
  - intros Ht E. unfold updates_of_response. rewrite Ht, E. reflexivity.
Qed.

(** X25 on an answer that is an empty code block. *)
Lemma X25_parser_only_sees_braced_text_witness :
  updates_of_response (fun _ => Returns (mkParsed None None)) EmptyString
    (json_fence +:+ String "010"%char fence)
  = Throws "No JSON found in LLM response. Response: ".
Proof.
  apply (proj2 (X25_parser_only_sees_braced_text (fun _ => Returns (mkParsed None None))
                  (fun _ => Returns (mkParsed None None)) EmptyString
                  (json_fence +:+ String "010"%char fence))); reflexivity.
Defined.

(** ** The view *)

Lemma filter_all {A} (f : A -> bool) (l : list A) :
  Forall (fun x => f x = true) l -> List.filter f l = l.
Proof.
  induction l as [|x l IH]; intros H; [reflexivity|].
  apply Forall_cons in H as [Hx H]. simpl. rewrite Hx, (IH H). reflexivity.
Qed.

Lemma rendered_edges (data : Graph) :
  (View.rendered data).2 =
  List.filter (fun e => bool_decide (e_from e ∈ (n_id <$> nodes data)) &&
                        bool_decide (e_to e ∈ (n_id <$> nodes data)))
    (edges data).
Proof.
  unfold View.rendered, View.getVisibleEdges, View.getVisibleNodes.
  destruct (nodes data) as [|n ns]; simpl.
  - induction (edges data) as [|e es IH]; [reflexivity|].
    cbn [List.filter]. exact IH.
  - destruct (edges data); reflexivity.
Qed.

(** X26. The view draws every node of the graph it is given, and of its
    edges exactly those whose two ends are ids of nodes of the graph, in
    their order: a dangling edge is never drawn.  Of a graph without
    dangling edges it draws every edge, so it draws every edge of what
    [summarizeOlderNodes] makes of such a graph. *)
Theorem X26_view_draws_resolved_edges (data : Graph) :
  (View.rendered data).1 = nodes data ∧
  (∀ e, e ∈ (View.rendered data).2 ↔ e ∈ edges data ∧ resolved_in (nodes data) e) ∧
  (no_dangling data -> (View.rendered data).2 = edges data) ∧
  (∀ o maxNodes, no_dangling data ->
     (View.rendered (summarizeOlderNodes o data maxNodes)).2 =
     edges (summarizeOlderNodes o data maxNodes)).
Proof.
  assert (Hall : ∀ g, no_dangling g -> (View.rendered g).2 = edges g).
  { intros g Hd. rewrite rendered_edges. apply filter_all.
    eapply Forall_impl; [exact Hd|]. intros e [Hf Ht]. simpl.
    rewrite !bool_decide_eq_true_2 by assumption. reflexivity. }
  split; [|split; [|split]].
  - unfold View.rendered, View.getVisibleNodes. destruct (nodes data); reflexivity.
  - intros e. rewrite rendered_edges, list_elem_of_In, List.filter_In,
      <- list_elem_of_In, andb_true_iff, !bool_decide_eq_true. reflexivity.
  - apply Hall.
  - intros o maxNodes Hd. apply Hall. apply summarize_no_dangling. exact Hd.
Qed.

(** X26 on the triangle, summarized to two nodes. *)
Lemma X26_view_draws_resolved_edges_witness :
  length (View.rendered (summarizeOlderNodes (sample_clock 1000) triangle_graph 2)).2
  = 3%nat.
Proof.
  rewrite (proj2 (proj2 (proj2 (X26_view_draws_resolved_edges triangle_graph)))
             (sample_clock 1000) 2 ltac:(compute_done)).
  reflexivity.
Defined.

(** X27. A click on a node toggles its id in the set of expanded nodes
    and touches no other id: the id is in the set after the click exactly
    when it was not before, and a second click on the same node restores
    the set. *)
Theorem X27_click_toggles (expandedNodes : gset string) (node other : Node) :
  (n_id node ∈ View.handleNodeClick expandedNodes node ↔ n_id node ∉ expandedNodes) ∧
  (n_id other ≠ n_id node ->
   (n_id other ∈ View.handleNodeClick expandedNodes node ↔ n_id other ∈ expandedNodes)) ∧
  View.handleNodeClick (View.handleNodeClick expandedNodes node) node = expandedNodes.
Proof.
  unfold View.handleNodeClick.
  destruct (decide (n_id node ∈ expandedNodes)) as [Hin|Hin].
  - rewrite (bool_decide_eq_true_2 _ Hin).
    rewrite bool_decide_eq_false_2 by set_solver.
    split; [set_solver|]. split; [set_solver|].
    apply set_eq. intros x. destruct (decide (x = n_id node)); set_solver.
  - rewrite (bool_decide_eq_false_2 _ Hin).
    rewrite bool_decide_eq_true_2 by set_solver.
    split; [set_solver|]. split; [set_solver|]. set_solver.
Qed.

(** X27 on a set that holds the id of another node. *)
Lemma X27_click_toggles_witness :
  "n2" ∈ View.handleNodeClick {[ "n2" ]} (plain_node "n1" "Budget").
Proof.
  apply (proj1 (proj2 (X27_click_toggles {[ "n2" ]} (plain_node "n1" "Budget")
                         (plain_node "n2" "Sales")))); [discriminate|].
  apply elem_of_singleton. reflexivity.
Defined.
